(** * TextDBX: a file-backed, optionally encrypted JSON document store

    A shallow embedding of the three copies of the engine that the
    repository carries, and the properties of its specification.

    - [Basic]    : textdbx/src/TextDBX.ts       (the first, smallest engine)
    - [Examples] : textdbx/examples/TextDBX.ts  (adds recovery on load and a
                   backup on save)
    - [Engine]   : the TypeScript engine that follows the CLI inside
                   textdbx/README.md (lines 339-1621: cache, salted
                   envelope, temp-file save, filter combinators,
                   transactions)

    Modelling conventions.
    - A JavaScript string and a Node [Buffer] are both a Rocq [string], a
      sequence of bytes: text is kept in its UTF-8 encoding, so that
      [cipher.update(data, 'utf8')] and [buf.toString('utf8')] are the
      identity.
    - A JavaScript number is an integer ([Z]); floating point is outside the
      model.
    - A JavaScript object is the list of its own properties in the order
      JavaScript enumerates them (integer-like keys first, ascending; then
      the others in creation order). Properties inherited from
      [Object.prototype] are not modelled.
    - An exception is an [exn]; messages are dropped, the code of a
      [TextDBXError] is kept.
    - The file system, the clock and the random source form the [os]
      record, threaded through every effectful function. Calls run one
      after the other: the [await]s of the engine are sequential
      composition and no second caller holds a file lock or a pooled
      connection.
    - [crypto] and [JSON] are library code. AES, SHA-256 and PBKDF2 are the
      members of the class [Crypto], with the facts about them that the
      proofs use; [JSON.stringify(_, null, 2)] and [JSON.parse] are
      written out. *)

From Stdlib Require Import ZArith String Ascii List Bool Lia Sorted.
From Stdlib Require Decimal DecimalN.
From stdpp Require Import base option list gmap strings pretty.

Open Scope string_scope.
Open Scope Z_scope.
Open Scope list_scope.

(* ================================================================== *)
(** * Part I. Definitions                                              *)
(* ================================================================== *)

(** ** Text and bytes *)

(** A text is held as its UTF-8 bytes. [String.prototype.trim] removes the
    white space and the line terminators of ECMAScript: the characters of
    one byte below, U+00A0 (two bytes), and U+1680, U+2000 to U+200A,
    U+2028, U+2029, U+202F, U+205F, U+3000 and U+FEFF (three bytes
    each). *)
Definition is_ws (c : ascii) : bool :=
  let n := nat_of_ascii c in
  ((9 <=? n)%nat && (n <=? 13)%nat) || (n =? 32)%nat.

Definition is_ws2 (c d : ascii) : bool :=
  ((nat_of_ascii c =? 194) && (nat_of_ascii d =? 160))%nat.

Definition is_ws3 (c d e : ascii) : bool :=
  let c := nat_of_ascii c in
  let d := nat_of_ascii d in
  let e := nat_of_ascii e in
  ((c =? 225) && (d =? 154) && (e =? 128) ||
   (c =? 226) && (d =? 128) &&
     ((128 <=? e) && (e <=? 138) || (e =? 168) || (e =? 169) || (e =? 175)) ||
   (c =? 226) && (d =? 129) && (e =? 159) ||
   (c =? 227) && (d =? 128) && (e =? 128) ||
   (c =? 239) && (d =? 187) && (e =? 191))%nat.

(** A byte that is a character of its own and no white space. *)
Definition plain_byte (c : ascii) : bool :=
  (nat_of_ascii c <? 128)%nat && negb (is_ws c).

(** [is_blank s] is [!s.trim()]: nothing is left after trimming. *)
Fixpoint is_blank (s : string) : bool :=
  match s with
  | EmptyString => true
  | String c s1 =>
      if is_ws c then is_blank s1
      else
        match s1 with
        | String d s2 =>
            if is_ws2 c d then is_blank s2
            else
              match s2 with
              | String e s3 => is_ws3 c d e && is_blank s3
              | EmptyString => false
              end
        | EmptyString => false
        end
  end.

(** [s.includes(c)] for a one-character needle. *)
Fixpoint includes_char (c : ascii) (s : string) : bool :=
  match s with
  | EmptyString => false
  | String d s' => Ascii.eqb d c || includes_char c s'
  end.

(** [s.split(sep)] for a one-character separator: always at least one
    field. *)
Fixpoint split_on (sep : ascii) (s : string) : list string :=
  match s with
  | EmptyString => [EmptyString]
  | String c s' =>
      if Ascii.eqb c sep then EmptyString :: split_on sep s'
      else match split_on sep s' with
           | f :: fs => String c f :: fs
           | [] => [String c EmptyString]
           end
  end.

(** [s.startsWith(p)] *)
Definition startsWith (p s : string) : bool := String.prefix p s.

(** [s.includes(needle)] on strings. *)
Fixpoint str_includes (needle s : string) : bool :=
  String.prefix needle s ||
  match s with
  | EmptyString => false
  | String _ s' => str_includes needle s'
  end.

(** [s.trimStart()]: the white space at the start goes, character by
    character. *)
Fixpoint trim_start (s : string) : string :=
  match s with
  | EmptyString => EmptyString
  | String c s1 =>
      if is_ws c then trim_start s1
      else
        match s1 with
        | String d s2 =>
            if is_ws2 c d then trim_start s2
            else
              match s2 with
              | String e s3 => if is_ws3 c d e then trim_start s3 else s
              | EmptyString => s
              end
        | EmptyString => s
        end
  end.

(** [s.trimEnd()]: the longest blank end of the text goes. A character of
    white space never starts on a continuation byte, so a blank end
    starts where a character does. *)
Fixpoint trim_end (s : string) : string :=
  match s with
  | EmptyString => EmptyString
  | String c s' => if is_blank s then EmptyString else String c (trim_end s')
  end.

(** [s.trim()] *)

Definition trim (s : string) : string := trim_end (trim_start s).

(** [parts.join(sep)] *)
Fixpoint join (sep : string) (parts : list string) : string :=
  match parts with
  | [] => EmptyString
  | [p] => p
  | p :: ps => p +:+ sep +:+ join sep ps
  end.

(** Well-formed UTF-8: the bytes that [fs.readFileSync(p, 'utf8')] hands
    over as they are. (An ill-formed sequence it replaces by U+FFFD.) *)
Definition utf8_tail (c : ascii) : bool :=
  let n := nat_of_ascii c in ((128 <=? n) && (n <=? 191))%nat.

Definition utf8_two (a b : ascii) : bool :=
  let a := nat_of_ascii a in ((194 <=? a) && (a <=? 223))%nat && utf8_tail b.

Definition utf8_three (a b c : ascii) : bool :=
  let x := nat_of_ascii a in
  let y := nat_of_ascii b in
  ((x =? 224) && (160 <=? y) && (y <=? 191) ||
   (225 <=? x) && (x <=? 236) && utf8_tail b ||
   (x =? 237) && (128 <=? y) && (y <=? 159) ||
   (238 <=? x) && (x <=? 239) && utf8_tail b)%nat && utf8_tail c.

Definition utf8_four (a b c d : ascii) : bool :=
  let x := nat_of_ascii a in
  let y := nat_of_ascii b in
  ((x =? 240) && (144 <=? y) && (y <=? 191) ||
   (241 <=? x) && (x <=? 243) && utf8_tail b ||
   (x =? 244) && (128 <=? y) && (y <=? 143))%nat
  && utf8_tail c && utf8_tail d.

Fixpoint valid_utf8 (s : string) : bool :=
  match s with
  | EmptyString => true
  | String a s1 =>
      if (nat_of_ascii a <? 128)%nat then valid_utf8 s1
      else
        match s1 with
        | String b s2 =>
            if utf8_two a b then valid_utf8 s2
            else
              match s2 with
              | String c s3 =>
                  if utf8_three a b c then valid_utf8 s3
                  else
                    match s3 with
                    | String d s4 => utf8_four a b c d && valid_utf8 s4
                    | EmptyString => false
                    end
              | EmptyString => false
              end
        | EmptyString => false
        end
  end.

(** *** Hexadecimal, as [buf.toString('hex')] and [Buffer.from(s, 'hex')] *)

Definition hex_digit (n : nat) : ascii :=
  match n with
  | 0 => "0" | 1 => "1" | 2 => "2" | 3 => "3" | 4 => "4" | 5 => "5"
  | 6 => "6" | 7 => "7" | 8 => "8" | 9 => "9" | 10 => "a" | 11 => "b"
  | 12 => "c" | 13 => "d" | 14 => "e" | _ => "f"
  end%char%nat.

Definition hex_val (c : ascii) : option nat :=
  let n := nat_of_ascii c in
  if ((48 <=? n) && (n <=? 57))%nat then Some (n - 48)%nat
  else if ((97 <=? n) && (n <=? 102))%nat then Some (n - 87)%nat
  else if ((65 <=? n) && (n <=? 70))%nat then Some (n - 55)%nat
  else None.

Fixpoint to_hex (buf : string) : string :=
  match buf with
  | EmptyString => EmptyString
  | String c buf' =>
      let n := nat_of_ascii c in
      String (hex_digit (n / 16)) (String (hex_digit (n mod 16)) (to_hex buf'))
  end.

(** Node decodes pairs of digits and stops, without an error, at the first
    pair that is not hexadecimal; a trailing single digit is dropped. *)
Fixpoint from_hex (s : string) : string :=
  match s with
  | String a (String b s') =>
      match hex_val a, hex_val b with
      | Some h, Some l => String (ascii_of_nat (16 * h + l)) (from_hex s')
      | _, _ => EmptyString
      end
  | _ => EmptyString
  end.

(** ** JavaScript values *)

Unset Elimination Schemes.
Inductive value : Type :=
| VUndef
| VNull
| VBool (b : bool)
| VNum (n : Z)
| VStr (s : string)
| VArr (items : list value)
| VObj (props : list (string * value)).
Set Elimination Schemes.

(** The induction principle that reaches below arrays and objects. *)
Definition value_ind (P : value -> Prop)
  (HU : P VUndef) (HN : P VNull) (HB : forall b, P (VBool b))
  (HZ : forall n, P (VNum n)) (HS : forall s, P (VStr s))
  (HA : forall items, Forall P items -> P (VArr items))
  (HO : forall props, Forall (fun kv => P (snd kv)) props -> P (VObj props))
  : forall v, P v :=
  fix go (v : value) : P v :=
    match v with
    | VUndef => HU
    | VNull => HN
    | VBool b => HB b
    | VNum n => HZ n
    | VStr s => HS s
    | VArr items =>
        HA items ((fix all (l : list value) : Forall P l :=
                     match l with
                     | [] => List.Forall_nil P
                     | x :: l' => @List.Forall_cons _ P x l' (go x) (all l')
                     end) items)
    | VObj props =>
        HO props ((fix all (l : list (string * value))
                     : Forall (fun kv => P (snd kv)) l :=
                     match l with
                     | [] => List.Forall_nil _
                     | kv :: l' =>
                         @List.Forall_cons _ (fun kv => P (snd kv)) kv l'
                           (go (snd kv)) (all l')
                     end) props)
    end.

(** Nesting depth, the measure under the recursive functions on values. *)
Fixpoint depth (v : value) : nat :=
  match v with
  | VArr items => S (list_max (map depth items))
  | VObj props => S (list_max (map (fun kv => depth (snd kv)) props))
  | _ => 0%nat
  end.

(** [!!v] *)
Definition truthy (v : value) : bool :=
  match v with
  | VUndef | VNull => false
  | VBool b => b
  | VNum n => negb (n =? 0)
  | VStr s => negb (String.eqb s "")
  | VArr _ | VObj _ => true
  end.

(** [a === b]. Two arrays or two objects are equal only when they are the
    same reference; the values compared here come from different object
    graphs (a stored record and a caller's filter), so they never are. *)
Definition strict_eq (a b : value) : bool :=
  match a, b with
  | VUndef, VUndef => true
  | VNull, VNull => true
  | VBool x, VBool y => Bool.eqb x y
  | VNum x, VNum y => x =? y
  | VStr x, VStr y => String.eqb x y
  | _, _ => false
  end.

Definition is_array (v : value) : bool :=
  match v with VArr _ => true | _ => false end.

(** [typeof v === 'object'] (which [null] and arrays satisfy). *)
Definition typeof_object (v : value) : bool :=
  match v with VNull | VArr _ | VObj _ => true | _ => false end.

Definition typeof_number (v : value) : bool :=
  match v with VNum _ => true | _ => false end.

Definition typeof_string (v : value) : bool :=
  match v with VStr _ => true | _ => false end.

Definition typeof_boolean (v : value) : bool :=
  match v with VBool _ => true | _ => false end.

(** *** Property keys and their order *)

Definition digit_val (c : ascii) : option N :=
  let n := nat_of_ascii c in
  if ((48 <=? n) && (n <=? 57))%nat then Some (N.of_nat (n - 48)) else None.

Fixpoint digits_val (acc : N) (s : string) : option N :=
  match s with
  | EmptyString => Some acc
  | String c s' =>
      match digit_val c with
      | Some d => digits_val (10 * acc + d)%N s'
      | None => None
      end
  end.

(** An array index in the sense of ECMAScript: the canonical decimal
    numeral of an integer below 2^32 - 1. Such keys are enumerated first,
    in ascending order. *)
Definition array_index (k : string) : option N :=
  match k with
  | EmptyString => None
  | String c rest =>
      if Ascii.eqb c "0" && negb (String.eqb rest "") then None
      else match digits_val 0%N k with
           | Some n => if (n <? 4294967295)%N then Some n else None
           | None => None
           end
  end.

(** [key_before k k']: a new key [k] is enumerated before the existing key
    [k']. *)
Definition key_before (k k' : string) : bool :=
  match array_index k, array_index k' with
  | Some n, Some n' => (n <? n')%N
  | Some _, None => true
  | None, _ => false
  end.

Abbreviation props := (list (string * value)).

(** [k in o] for an own property. *)
Fixpoint obj_has (o : props) (k : string) : bool :=
  match o with
  | [] => false
  | (k', _) :: o' => String.eqb k' k || obj_has o' k
  end.

(** [o[k]]: [undefined] when the property is absent. *)
Fixpoint obj_get (o : props) (k : string) : value :=
  match o with
  | [] => VUndef
  | (k', v) :: o' => if String.eqb k' k then v else obj_get o' k
  end.

(** [o[k] = v]: an existing property keeps its place; a new one goes where
    JavaScript enumerates it. *)
Fixpoint obj_set (o : props) (k : string) (v : value) : props :=
  match o with
  | [] => [(k, v)]
  | (k', v') :: o' =>
      if String.eqb k' k then (k, v) :: o'
      else if key_before k k' then (k, v) :: (k', v') :: o'
      else (k', v') :: obj_set o' k v
  end.

Definition obj_keys (o : props) : list string := map fst o.

(** The object that successive assignments build, as [JSON.parse] and
    object literals do. *)
Definition obj_of_list (l : props) : props :=
  fold_left (fun o kv => obj_set o (fst kv) (snd kv)) l [].

Definition index_key (i : nat) : string := pretty (N.of_nat i).

Fixpoint indexed {A} (i : nat) (l : list A) : list (string * A) :=
  match l with
  | [] => []
  | x :: l' => (index_key i, x) :: indexed (S i) l'
  end.

Fixpoint chars (s : string) : list value :=
  match s with
  | EmptyString => []
  | String c s' => VStr (String c EmptyString) :: chars s'
  end.

(** The pairs a [for (const k in v)] loop visits, with [v[k]]. *)
Definition enum_props (v : value) : props :=
  match v with
  | VObj o => o
  | VArr items => indexed 0 items
  | VStr s => indexed 0 (chars s)
  | _ => []
  end.

(** ** Exceptions and the state monad *)

Inductive exn : Type :=
| JsError                       (* Error, TypeError, SyntaxError, ... *)
| TextDBXError (code : string).

Inductive outcome (A : Type) : Type :=
| Ok (a : A)
| Throw (e : exn).
Arguments Ok {A} a.
Arguments Throw {A} e.

Definition outcome_map {A B} (f : A -> B) (r : outcome A) : outcome B :=
  match r with
  | Ok a => Ok (f a)
  | Throw e => Throw e
  end.

Definition M (S A : Type) : Type := S -> outcome A * S.

Definition ret {S A} (a : A) : M S A := fun s => (Ok a, s).
Definition throw {S A} (e : exn) : M S A := fun s => (Throw e, s).
Definition bind {S A B} (m : M S A) (k : A -> M S B) : M S B :=
  fun s => match m s with
           | (Ok a, s') => k a s'
           | (Throw e, s') => (Throw e, s')
           end.
(** [try { m } catch (e) { h e }]: the state reached when [m] threw is
    kept. *)
Definition try_catch {S A} (m : M S A) (h : exn -> M S A) : M S A :=
  fun s => match m s with
           | (Ok a, s') => (Ok a, s')
           | (Throw e, s') => h e s'
           end.
Definition get_state {S} : M S S := fun s => (Ok s, s).
Definition put_state {S} (s : S) : M S unit := fun _ => (Ok tt, s).
Definition lift_outcome {S A} (r : outcome A) : M S A := fun s => (r, s).

Notation "'do' x <- m ; k" := (bind m (fun x => k))
  (at level 10, x name, m at level 100, k at level 200).
Notation "m >> k" := (bind m (fun _ => k))
  (at level 100, k at level 200, right associativity).

(** [v[k]]: a [TypeError] on [null] and [undefined]; on an array or a
    string, the element at an index key and the [length]. *)
Definition get_prop (v : value) (k : string) : outcome value :=
  match v with
  | VUndef | VNull => Throw JsError
  | VArr items =>
      if String.eqb k "length" then Ok (VNum (Z.of_nat (length items)))
      else match array_index k with
           | Some i => Ok (nth (N.to_nat i) items VUndef)
           | None => Ok VUndef
           end
  | VStr s =>
      if String.eqb k "length" then Ok (VNum (Z.of_nat (String.length s)))
      else match array_index k with
           | Some i => Ok (nth (N.to_nat i) (chars s) VUndef)
           | None => Ok VUndef
           end
  | VObj o => Ok (obj_get o k)
  | _ => Ok VUndef
  end.

(** The names that every object inherits from [Object.prototype]. Under
    such a name, unless the value has a property of its own there,
    [v[k]] is a built-in function (the prototype itself under
    [__proto__]) and [k in v] is true. The values above hold no
    functions: [get_prop] and the tests for a key are exact for the
    other names. Arrays and strings inherit more, the methods of their
    kind. *)
Definition object_prototype_names : list string :=
  ["constructor"; "__defineGetter__"; "__defineSetter__"; "hasOwnProperty";
   "__lookupGetter__"; "__lookupSetter__"; "isPrototypeOf";
   "propertyIsEnumerable"; "toString"; "valueOf"; "__proto__";
   "toLocaleString"].

Definition inherited_name (k : string) : bool :=
  existsb (String.eqb k) object_prototype_names.

(** [v[k]] is found on [Object.prototype]. *)
Definition inherits (v : value) (k : string) : bool :=
  match v with
  | VUndef | VNull => false
  | VObj o => negb (obj_has o k) && inherited_name k
  | _ => inherited_name k
  end.

(** No object in [v], at any depth, has a key named like a property
    that every object inherits: with such a filter, no lookup in a
    record reaches [Object.prototype]. *)
Fixpoint plain_names (v : value) : bool :=
  match v with
  | VObj o =>
      forallb (fun kv => negb (inherited_name (fst kv)) && plain_names (snd kv))
        o
  | VArr items => forallb plain_names items
  | _ => true
  end.

(** ** The operating system: files, clock, random source *)

Record file : Type := File { content : string; mtime : Z }.

(** What a system call does to the file system. [fs.writeFileSync] and
    [fs.promises.writeFile] open the file with truncation and then write:
    two events, with the empty file visible in between. [rename] is one
    event. *)
Inductive fs_event : Type :=
| EvTruncate (p : string)
| EvWrite (p data : string)
| EvCopy (src dst : string)
| EvRename (src dst : string).

Definition apply_event (t : Z) (ev : fs_event) (fs : gmap string file)
  : gmap string file :=
  match ev with
  | EvTruncate p => <[p := File "" t]> fs
  | EvWrite p data =>
      <[p := File (from_option content "" (fs !! p) +:+ data) t]> fs
  | EvCopy src dst =>
      match fs !! src with
      | Some f => <[dst := File (content f) t]> fs
      | None => fs
      end
  | EvRename src dst =>
      match fs !! src with
      | Some f => <[dst := f]> (base.delete src fs)
      | None => fs
      end
  end.

(** [clock] gives the reading of the wall clock after each number of
    system calls; [entropy] is the tape that the random source of [crypto]
    hands out, to [randomBytes] and to [randomUUID]. *)
Record os : Type := OS {
  files : gmap string file;
  clock : nat -> Z;
  ticks : nat;
  entropy : nat -> ascii;
  drawn : nat;
  journal : list fs_event
}.

Definition now (w : os) : Z := clock w (ticks w).

(** The world after a system call that did [ev]. *)
Definition os_event (ev : fs_event) (w : os) : os :=
  {| files := apply_event (now w) ev (files w);
     clock := clock w; ticks := S (ticks w);
     entropy := entropy w; drawn := drawn w;
     journal := journal w ++ [ev] |}.

Definition run_event (ev : fs_event) : M os unit :=
  fun w => (Ok tt, os_event ev w).

Definition existsSync (p : string) : M os bool :=
  fun w => (Ok (match files w !! p with Some _ => true | None => false end),
            w).

(** [fs.readFileSync(p, 'utf8')] *)
Definition readFileSync (p : string) : M os string :=
  fun w => match files w !! p with
           | Some f => (Ok (content f), w)
           | None => (Throw JsError, w)
           end.

Definition writeFileSync (p data : string) : M os unit :=
  run_event (EvTruncate p) >> run_event (EvWrite p data).

Definition copyFileSync (src dst : string) : M os unit :=
  fun w => match files w !! src with
           | Some _ => run_event (EvCopy src dst) w
           | None => (Throw JsError, w)
           end.

Definition rename (src dst : string) : M os unit :=
  fun w => match files w !! src with
           | Some _ => run_event (EvRename src dst) w
           | None => (Throw JsError, w)
           end.

(** [fs.statSync(p).mtime.getTime()] *)
Definition stat_mtime (p : string) : M os Z :=
  fun w => match files w !! p with
           | Some f => (Ok (mtime f), w)
           | None => (Throw JsError, w)
           end.

Definition Date_now : M os Z := fun w => (Ok (now w), w).

Fixpoint tape (e : nat -> ascii) (from n : nat) : string :=
  match n with
  | O => EmptyString
  | S n' => String (e from) (tape e (S from) n')
  end.

(** The world after [n] bytes were read from the tape. *)
Definition os_drew (n : nat) (w : os) : os :=
  {| files := files w; clock := clock w; ticks := ticks w;
     entropy := entropy w; drawn := (drawn w + n)%nat;
     journal := journal w |}.

(** [crypto.randomBytes(n)]: the next [n] bytes of the tape. *)
Definition randomBytes (n : nat) : M os string :=
  fun w => (Ok (tape (entropy w) (drawn w) n), os_drew n w).

Fixpoint map_byte_at (i : nat) (f : ascii -> ascii) (s : string) : string :=
  match s, i with
  | EmptyString, _ => EmptyString
  | String c s', O => String (f c) s'
  | String c s', S i' => String c (map_byte_at i' f s')
  end.

(** The UUID of version 4 that sixteen random bytes make: the version goes
    into the high half of byte 6 and the variant into the two high bits
    of byte 8; the bytes are printed in hexadecimal, in groups of 4, 2,
    2, 2 and 6. *)
Definition uuid_v4 (bytes : string) : string :=
  let b :=
    map_byte_at 8 (fun c => ascii_of_nat (nat_of_ascii c mod 64 + 128))
      (map_byte_at 6 (fun c => ascii_of_nat (nat_of_ascii c mod 16 + 64))
         bytes) in
  to_hex (substring 0 4 b) +:+ "-" +:+ to_hex (substring 4 2 b) +:+ "-" +:+
  to_hex (substring 6 2 b) +:+ "-" +:+ to_hex (substring 8 2 b) +:+ "-" +:+
  to_hex (substring 10 6 b).

(** [crypto.randomUUID()]: sixteen bytes of the random source, as a UUID
    of version 4. *)
Definition randomUUID : M os string :=
  fun w => (Ok (uuid_v4 (tape (entropy w) (drawn w) 16)), os_drew 16 w).

(** [path.join(dir, name)], without the normalisation of [.] and [..]. *)
Definition path_join (dir name : string) : string := dir +:+ "/" +:+ name.

(** What a reader of the file system can see: the contents, event by
    event. *)
Definition apply_content (ev : fs_event) (fs : gmap string string)
  : gmap string string :=
  match ev with
  | EvTruncate p => <[p := ""]> fs
  | EvWrite p data => <[p := from_option id "" (fs !! p) +:+ data]> fs
  | EvCopy src dst =>
      match fs !! src with
      | Some c => <[dst := c]> fs
      | None => fs
      end
  | EvRename src dst =>
      match fs !! src with
      | Some c => <[dst := c]> (base.delete src fs)
      | None => fs
      end
  end.

(** The states the file system passes through while [evs] happen. *)
Fixpoint states_after (fs : gmap string string) (evs : list fs_event)
  : list (gmap string string) :=
  match evs with
  | [] => []
  | ev :: evs' =>
      let fs' := apply_content ev fs in fs' :: states_after fs' evs'
  end.

(** ** Library interfaces *)

(** Node's [crypto]: [createHash('sha256')], [pbkdf2Sync], and
    [createCipheriv] / [createDecipheriv] of ['aes-256-cbc'] followed by
    [update] and [final]. Both cipher calls throw on a key that is not of
    32 bytes or an IV that is not of 16; deciphering also throws when the
    padding of the last block is wrong. *)
Class Crypto : Type := {
  sha256 : string -> string;
  pbkdf2Sync : string -> string -> N -> nat -> string -> string;
  aes_256_cbc_encrypt : string -> string -> string -> outcome string;
  aes_256_cbc_decrypt : string -> string -> string -> outcome string;
  sha256_length : forall s, String.length (sha256 s) = 32%nat;
  pbkdf2Sync_length :
    forall pw salt iters len digest,
      String.length (pbkdf2Sync pw salt iters len digest) = len;
  aes_256_cbc_roundtrip :
    forall key iv pt,
      String.length key = 32%nat -> String.length iv = 16%nat ->
      exists ct, aes_256_cbc_encrypt key iv pt = Ok ct /\ ct <> "" /\
                 aes_256_cbc_decrypt key iv ct = Ok pt;
  aes_256_cbc_decrypt_iv :
    forall key iv ct,
      String.length iv <> 16%nat ->
      aes_256_cbc_decrypt key iv ct = Throw JsError
}.

(** A value that JSON can carry: no [undefined], and every object with
    its properties in JavaScript's order. *)
Fixpoint json_value (v : value) : Prop :=
  match v with
  | VUndef => False
  | VArr items => fold_right (fun x acc => json_value x /\ acc) True items
  | VObj o =>
      obj_of_list o = o /\
      fold_right (fun kv acc => json_value (snd kv) /\ acc) True o
  | _ => True
  end.

(** [JSON.stringify(v, null, 2)] and [JSON.parse] (which throws a
    [SyntaxError] on a text that is not JSON). *)
Class JSON : Type := {
  JSON_stringify : value -> string;
  JSON_parse : string -> outcome value;
  JSON_parse_stringify :
    forall v, json_value v -> JSON_parse (JSON_stringify v) = Ok v;
  JSON_stringify_array_not_blank :
    forall items, is_blank (JSON_stringify (VArr items)) = false
}.

(** ** The loops of the source, with their early exits *)

(** [items.every(f)], [items.some(f)] and [items.filter(f)] for a callback
    that may throw: the first exception ends the loop. *)
Fixpoint every {A} (f : A -> outcome bool) (items : list A) : outcome bool :=
  match items with
  | [] => Ok true
  | x :: items' =>
      match f x with
      | Ok true => every f items'
      | Ok false => Ok false
      | Throw e => Throw e
      end
  end.

Fixpoint some {A} (f : A -> outcome bool) (items : list A) : outcome bool :=
  match items with
  | [] => Ok false
  | x :: items' =>
      match f x with
      | Ok true => Ok true
      | Ok false => some f items'
      | Throw e => Throw e
      end
  end.

Fixpoint filter_rows {A} (f : A -> outcome bool) (items : list A)
  : outcome (list A) :=
  match items with
  | [] => Ok []
  | x :: items' =>
      match f x with
      | Ok b =>
          match filter_rows f items' with
          | Ok l => Ok (if b then x :: l else l)
          | Throw e => Throw e
          end
      | Throw e => Throw e
      end
  end.

Fixpoint map_rows {A B} (f : A -> outcome B) (items : list A)
  : outcome (list B) :=
  match items with
  | [] => Ok []
  | x :: items' =>
      match f x with
      | Ok y =>
          match map_rows f items' with
          | Ok l => Ok (y :: l)
          | Throw e => Throw e
          end
      | Throw e => Throw e
      end
  end.

(** [items.includes(x)] *)
Definition arr_includes (items : list value) (x : value) : bool :=
  existsb (fun y => strict_eq y x) items.

(** [v.includes(x)], for whatever [v] is: membership in an array, substring
    in a string, a [TypeError] elsewhere. *)
Definition js_includes (v x : value) : outcome bool :=
  match v with
  | VArr items => Ok (arr_includes items x)
  | VStr s =>
      match x with
      | VStr needle => Ok (str_includes needle s)
      | _ => Throw JsError
      end
  | _ => Throw JsError
  end.

(** [/^[a-zA-Z0-9_-]+$/.test(s)] *)
Definition name_char (c : ascii) : bool :=
  let n := nat_of_ascii c in
  ((48 <=? n) && (n <=? 57) || (65 <=? n) && (n <=? 90) ||
   (97 <=? n) && (n <=? 122) || (n =? 95) || (n =? 45))%nat.

Fixpoint all_chars (f : ascii -> bool) (s : string) : bool :=
  match s with
  | EmptyString => true
  | String c s' => f c && all_chars f s'
  end.

Definition name_regex (s : string) : bool :=
  negb (String.eqb s "") && all_chars name_char s.

(** The length that JavaScript counts for a text, in UTF-16 code units:
    one for a character of one to three bytes, two for one of four. *)
Fixpoint js_length (s : string) : nat :=
  match s with
  | EmptyString => 0
  | String c s' =>
      let n := nat_of_ascii c in
      ((if (128 <=? n) && (n <? 192) then 0 else if 240 <=? n then 2 else 1)
       + js_length s')%nat
  end.

(** A property that a boxed string does not let one write: its length and
    its code units. *)
Definition string_own_key (s k : string) : bool :=
  String.eqb k "length" ||
  match array_index k with
  | Some i => (N.to_nat i <? js_length s)%nat
  | None => false
  end.

(** A record: a plain object, as a collection holds them. *)
Definition is_record (v : value) : bool :=
  match v with VObj _ => true | _ => false end.

(** [Object.assign(target, source)] on a stored row. [null] and
    [undefined] throw. A primitive target is boxed and the row stays as
    it is; the box of a string refuses, with a [TypeError], a property
    named like its length or one of its characters. Rows that are
    arrays, and the key [__proto__] of the source, are outside the
    model. *)
Definition object_assign (target source : value) : outcome value :=
  match target with
  | VUndef | VNull => Throw JsError
  | VObj o =>
      Ok (VObj (fold_left (fun o kv => obj_set o (fst kv) (snd kv))
                  (enum_props source) o))
  | VStr s =>
      if existsb (fun kv => string_own_key s (fst kv)) (enum_props source)
      then Throw JsError
      else Ok target
  | _ => Ok target
  end.

Definition is_null (v : value) : bool :=
  match v with VNull => true | _ => false end.

(** [v.k] where [v] is known to be neither [null] nor [undefined]. *)
Definition member (v : value) (k : string) : value :=
  match get_prop v k with
  | Ok x => x
  | Throw _ => VUndef
  end.

Definition is_encrypted (mode : string) : bool := String.eqb mode "encrypted".

(** The [ConnectConfig] interface of textdbx/src/TextDBX.ts and
    textdbx/examples/TextDBX.ts. *)
Record ConnectConfig : Type := {
  database : string;
  encryptionKey : string;
  mode : string;
  role : string
}.

(** ** [Examples]: textdbx/examples/TextDBX.ts *)

Module Examples.

(** A missing [filter] is [VUndef]; a missing [fields] is [None]. *)
Record Query : Type := {
  collection : string;
  filter : value;
  fields : option (list string)
}.

Section Methods.
Context {crypto : Crypto} {json : JSON}.
Variable config : ConnectConfig.
(** [this.auth], as parsed from the [.auth] file. *)
Variable auth : value.

(** lines 94-104 *)
Definition encrypt (data : string) : M os string :=
  try_catch
    (let key := sha256 (encryptionKey config) in
     do iv <- randomBytes 16;
     do encrypted <- lift_outcome (aes_256_cbc_encrypt key iv data);
     ret (to_hex iv +:+ ":" +:+ to_hex encrypted))
    (fun _ => throw JsError).

(** lines 106-127. The whole body is inside [try]; whatever is thrown is
    thrown again as [Error('Decryption failed: ...')]. *)
Definition decrypt (data : string) : outcome string :=
  if String.eqb data "" || negb (includes_char ":" data) then Throw JsError
  else
    let key := sha256 (encryptionKey config) in
    match split_on ":" data with
    | ivHex :: encHex :: _ =>
        if String.eqb ivHex "" || String.eqb encHex "" then Throw JsError
        else
          let iv := from_hex ivHex in
          let encrypted := from_hex encHex in
          match aes_256_cbc_decrypt key iv encrypted with
          | Ok decrypted => Ok decrypted
          | Throw _ => Throw JsError
          end
    | _ => Throw JsError
    end.

Definition filePath (collection : string) : string :=
  path_join (database config) (collection +:+ ".tdbx").

(** lines 201-228. [data] is a list, so the [Array.isArray] guard holds. *)
Definition saveFile (collection : string) (data : list value) : M os unit :=
  try_catch
    (let json := JSON_stringify (VArr data) in
     do raw <- (if is_encrypted (mode config) then encrypt json
                else ret json);
     do present <- existsSync (filePath collection);
     do _ <- (if (present : bool)
              then copyFileSync (filePath collection)
                     (filePath collection +:+ ".backup")
              else ret tt);
     do _ <- writeFileSync (filePath collection) raw;
     do written <- existsSync (filePath collection);
     if (written : bool) then ret tt else throw JsError)
    (fun _ => throw JsError).

(** lines 129-199 *)
Definition loadFile (collection : string) : M os (list value) :=
  do present <- existsSync (filePath collection);
  if negb present then ret []
  else
    try_catch
      (do raw <- readFileSync (filePath collection);
       if is_blank raw then (saveFile collection [] >> ret [])
       else
         do json <- (if is_encrypted (mode config)
                     then try_catch (lift_outcome (decrypt raw))
                            (fun _ => throw JsError)
                     else ret raw);
         try_catch
           (do parsed <- lift_outcome (JSON_parse json);
            match parsed with
            | VArr items => ret items
            | _ => ret [parsed]
            end)
           (fun _ =>
              do t <- Date_now;
              let backupPath :=
                filePath collection +:+ ".backup." +:+ pretty t in
              do _ <- copyFileSync (filePath collection) backupPath;
              do _ <- saveFile collection [];
              ret []))
      (fun _ => ret []).

(** lines 272-284 *)
Definition checkPermission (action : string) : outcome unit :=
  match get_prop auth (role config) with
  | Throw e => Throw e
  | Ok allowed =>
      if negb (truthy allowed) then Throw JsError
      else match js_includes allowed (VStr action) with
           | Ok true => Ok tt
           | Ok false => Throw JsError
           | Throw e => Throw e
           end
  end.

(** lines 292-304 *)
Definition validateCollectionName (collection : string) : outcome unit :=
  if String.eqb collection "" then Throw JsError
  else if negb (name_regex collection) then Throw JsError
  else if startsWith "." collection then Throw JsError
  else Ok tt.

(** lines 315-324. The loop returns [false] at the first key that does not
    match, which is [every]. *)
Definition matchFilter (row filter : value) : outcome bool :=
  if negb (truthy filter) then Ok true
  else
    every
      (fun kv =>
         let key := fst kv in
         let val := snd kv in
         if typeof_object val && negb (is_null val)
            && truthy (member val "$contains")
         then
           match get_prop row key with
           | Throw e => Throw e
           | Ok (VArr items) =>
               Ok (arr_includes items (member val "$contains"))
           | Ok _ => Ok false
           end
         else
           match get_prop row key with
           | Throw e => Throw e
           | Ok rowValue => Ok (strict_eq rowValue val)
           end)
      (enum_props filter).

(** lines 326-331 *)
Definition projectFields (row : value) (fields : option (list string))
  : outcome value :=
  match fields with
  | None => Ok row
  | Some fs =>
      outcome_map VObj
        (fold_left
           (fun acc f =>
              match acc with
              | Throw e => Throw e
              | Ok projected =>
                  match get_prop row f with
                  | Throw e => Throw e
                  | Ok v => Ok (obj_set projected f v)
                  end
              end)
           fs (Ok []))
  end.

(** lines 306-313 *)
Definition queryObject (query : Query) : M os (list value) :=
  do _ <- lift_outcome (checkPermission "query");
  do _ <- lift_outcome (validateCollectionName (collection query));
  do data <- loadFile (collection query);
  do kept <- lift_outcome
               (filter_rows (fun row => matchFilter row (filter query)) data);
  lift_outcome (map_rows (fun row => projectFields row (fields query)) kept).

(** lines 333-344 *)
Definition insert (collection : string) (record : value) : M os unit :=
  do _ <- lift_outcome (checkPermission "insert");
  do _ <- lift_outcome (validateCollectionName collection);
  if negb (truthy record) || negb (typeof_object record) then throw JsError
  else
    do data <- loadFile collection;
    saveFile collection (data ++ [record]).

(** The loop of [update]: the rows after the merge, and the count. *)
Fixpoint update_rows (filter changes : value) (data : list value)
  : outcome (list value * Z) :=
  match data with
  | [] => Ok ([], 0)
  | row :: data' =>
      match matchFilter row filter with
      | Throw e => Throw e
      | Ok hit =>
          match (if hit then object_assign row changes else Ok row) with
          | Throw e => Throw e
          | Ok row' =>
              match update_rows filter changes data' with
              | Throw e => Throw e
              | Ok (rows, n) => Ok (row' :: rows, if hit then n + 1 else n)
              end
          end
      end
  end.

(** lines 346-366 *)
Definition update (collection : string) (filter changes : value) : M os Z :=
  do _ <- lift_outcome (checkPermission "update");
  do _ <- lift_outcome (validateCollectionName collection);
  if negb (truthy changes) || negb (typeof_object changes) then throw JsError
  else
    do data <- loadFile collection;
    do r <- lift_outcome (update_rows filter changes data);
    do _ <- saveFile collection (fst r);
    ret (snd r).

(** lines 368-379 *)
Definition delete (collection : string) (filter : value) : M os Z :=
  do _ <- lift_outcome (checkPermission "delete");
  do _ <- lift_outcome (validateCollectionName collection);
  do data <- loadFile collection;
  do filtered <- lift_outcome
                   (filter_rows
                      (fun row => outcome_map negb (matchFilter row filter))
                      data);
  do _ <- saveFile collection filtered;
  ret (Z.of_nat (length data) - Z.of_nat (length filtered)).

(** One turn of the loop of [loadConfig] (lines 47-55): [cfg] is the
    object under construction, with the text of each key. *)
Definition config_line (cfg : props) (line : string) : props :=
  let trimmedLine := trim line in
  if negb (String.eqb trimmedLine "") && negb (startsWith "#" trimmedLine)
  then
    match split_on "=" trimmedLine with
    | key :: valueParts =>
        if negb (String.eqb key "") &&
           negb (match valueParts with [] => true | _ => false end)
        then obj_set cfg (trim key) (VStr (trim (join "=" valueParts)))
        else cfg
    | [] => cfg
    end
  else cfg.

(** [!cfg.k]: the key is missing or its text is empty. *)
Definition config_field (cfg : props) (k : string) : option string :=
  match obj_get cfg k with
  | VStr v => if String.eqb v "" then None else Some v
  | _ => None
  end.

(** lines 34-61 *)
Definition loadConfig (file : string) : M os ConnectConfig :=
  do present <- existsSync file;
  if negb present then throw JsError
  else
    do text <- readFileSync file;
    let cfg := fold_left config_line (split_on "010" text) [] in
    match config_field cfg "database", config_field cfg "encryptionKey",
          config_field cfg "mode", config_field cfg "role" with
    | Some d, Some k, Some m, Some r =>
        ret {| database := d; encryptionKey := k; mode := m; role := r |}
    | _, _, _, _ => throw JsError
    end.

(** lines 63-81; the warnings are not modelled. *)
Definition validateConfig : outcome unit :=
  if String.eqb (mode config) "encrypted" || String.eqb (mode config) "plain"
  then Ok tt
  else Throw JsError.

(** lines 258-270 *)
Definition defaultAuth : value :=
  VObj [("admin", VArr [VStr "query"; VStr "insert"; VStr "update";
                        VStr "delete"; VStr "index"]);
        ("editor", VArr [VStr "query"; VStr "insert"; VStr "update"]);
        ("reader", VArr [VStr "query"])].

Definition createDefaultAuth : M os value :=
  let authPath := path_join (database config) ".auth" in
  do _ <- writeFileSync authPath (JSON_stringify defaultAuth);
  ret defaultAuth.

(** lines 230-256: the new [this.users] and [this.auth], both [{}]
    before. *)
Definition loadUsersAndAuth : M os (value * value) :=
  let usersPath := path_join (database config) ".users" in
  let authPath := path_join (database config) ".auth" in
  do hasUsers <- existsSync usersPath;
  do users <- (if (hasUsers : bool)
               then try_catch
                      (do raw <- readFileSync usersPath;
                       lift_outcome (JSON_parse raw))
                      (fun _ => ret (VObj []))
               else ret (VObj []));
  do hasAuth <- existsSync authPath;
  do auth' <- (if (hasAuth : bool)
               then try_catch
                      (do raw <- readFileSync authPath;
                       lift_outcome (JSON_parse raw))
                      (fun _ => throw JsError)
               else createDefaultAuth);
  ret (users, auth').

End Methods.
End Examples.

(** ** [Basic]: textdbx/src/TextDBX.ts *)

Module Basic.
Section Methods.
Context {crypto : Crypto} {json : JSON}.
Variable config : ConnectConfig.

(** lines 43-49 *)
Definition encrypt (data : string) : M os string :=
  let key := sha256 (encryptionKey config) in
  do iv <- randomBytes 16;
  do encrypted <- lift_outcome (aes_256_cbc_encrypt key iv data);
  ret (to_hex iv +:+ ":" +:+ to_hex encrypted).

(** lines 51-59. With no second field, [Buffer.from(undefined, 'hex')]
    throws. *)
Definition decrypt (data : string) : outcome string :=
  let key := sha256 (encryptionKey config) in
  match split_on ":" data with
  | ivHex :: encHex :: _ =>
      aes_256_cbc_decrypt key (from_hex ivHex) (from_hex encHex)
  | _ => Throw JsError
  end.

Definition filePath (collection : string) : string :=
  path_join (database config) (collection +:+ ".tdbx").

(** lines 61-67. Whatever [JSON.parse] gives is returned. *)
Definition loadFile (collection : string) : M os value :=
  do present <- existsSync (filePath collection);
  if negb present then ret (VArr [])
  else
    do raw <- readFileSync (filePath collection);
    do json <- (if is_encrypted (mode config) then lift_outcome (decrypt raw)
                else ret raw);
    lift_outcome (JSON_parse json).

(** lines 69-73 *)
Definition saveFile (collection : string) (data : list value) : M os unit :=
  let json := JSON_stringify (VArr data) in
  do raw <- (if is_encrypted (mode config) then encrypt json else ret json);
  writeFileSync (filePath collection) raw.

(** lines 96-105. [val.$contains] is read before [val] is known not to be
    [null]. *)
Definition matchFilter (row filter : value) : outcome bool :=
  if negb (truthy filter) then Ok true
  else
    every
      (fun kv =>
         let key := fst kv in
         let val := snd kv in
         match (if typeof_object val
                then outcome_map truthy (get_prop val "$contains")
                else Ok false) with
         | Throw e => Throw e
         | Ok true =>
             match get_prop row key with
             | Throw e => Throw e
             | Ok (VArr items) =>
                 Ok (arr_includes items (member val "$contains"))
             | Ok _ => Ok false
             end
         | Ok false =>
             match get_prop row key with
             | Throw e => Throw e
             | Ok rowValue => Ok (strict_eq rowValue val)
             end
         end)
      (enum_props filter).

(** lines 107-112 *)
Definition projectFields (row : value) (fields : option (list string))
  : outcome value :=
  match fields with
  | None => Ok row
  | Some fs =>
      outcome_map VObj
        (fold_left
           (fun acc f =>
              match acc with
              | Throw e => Throw e
              | Ok projected =>
                  match get_prop row f with
                  | Throw e => Throw e
                  | Ok v => Ok (obj_set projected f v)
                  end
              end)
           fs (Ok []))
  end.

(** One turn of the loop of [loadConfig] (lines 35-38): the line is cut
    at every [=] and the first two pieces are used. *)
Definition config_line (cfg : props) (line : string) : props :=
  match split_on "=" line with
  | key :: value :: _ =>
      if negb (String.eqb key "") && negb (String.eqb value "")
      then obj_set cfg (trim key) (VStr (trim value))
      else cfg
  | _ => cfg
  end.

(** lines 32-41 *)
Definition loadConfig (file : string) : M os ConnectConfig :=
  do text <- readFileSync file;
  let cfg := fold_left config_line (split_on "010" text) [] in
  match Examples.config_field cfg "database",
        Examples.config_field cfg "encryptionKey",
        Examples.config_field cfg "mode", Examples.config_field cfg "role"
  with
  | Some d, Some k, Some m, Some r =>
      ret {| database := d; encryptionKey := k; mode := m; role := r |}
  | _, _, _, _ => throw JsError
  end.

End Methods.
End Basic.

(** ** JavaScript's [Map], in insertion order *)

Fixpoint map_get {V} (m : list (string * V)) (k : string) : option V :=
  match m with
  | [] => None
  | (k', v) :: m' => if String.eqb k' k then Some v else map_get m' k
  end.

Fixpoint map_set {V} (m : list (string * V)) (k : string) (v : V)
  : list (string * V) :=
  match m with
  | [] => [(k, v)]
  | (k', v') :: m' =>
      if String.eqb k' k then (k, v) :: m' else (k', v') :: map_set m' k v
  end.

Fixpoint map_delete {V} (m : list (string * V)) (k : string)
  : list (string * V) :=
  match m with
  | [] => []
  | (k', v') :: m' =>
      if String.eqb k' k then m' else (k', v') :: map_delete m' k
  end.

(** [k in v]: a [TypeError] unless [v] is an object; true for a property
    of [v]'s own and for a name that every object inherits. (An array
    inherits the methods of arrays as well, which are not listed.) *)
Definition js_in (k : string) (v : value) : outcome bool :=
  match v with
  | VObj o => Ok (obj_has o k || inherited_name k)
  | VArr items =>
      Ok (String.eqb k "length" ||
          match array_index k with
          | Some i => (N.to_nat i <? length items)%nat
          | None => false
          end || inherited_name k)
  | _ => Throw JsError
  end.

Definition is_undef (v : value) : bool :=
  match v with VUndef => true | _ => false end.

(** ** [Engine]: the engine listed in textdbx/README.md

    Line numbers are those of textdbx/README.md. [commitTransaction] and
    [executeOperation] are not embedded: nothing in the source ever adds to
    [transaction.operations], so they replay the empty list. *)

Module Engine.

(** lines 375-383. [maxCacheSize] is [parseInt(...)]; the [NaN] of an
    unreadable number behaves as [0] in [maxCacheSize || 100]. *)
Record ConnectConfig : Type := {
  database : string;
  encryptionKey : string;
  mode : string;
  role : string;
  maxCacheSize : Z;
  maxConnections : Z;
  queryTimeout : Z
}.

(** lines 397-402 *)
Record CacheEntry : Type := {
  data : list value;
  lastModified : Z;
  accessCount : Z;
  lastAccessed : Z
}.

(** lines 411-417 *)
Inductive operation_type : Type := op_insert | op_update | op_delete.

Record TransactionOperation : Type := {
  type : operation_type;
  collection : string;
  op_data : value;
  op_filter : value;
  op_changes : value
}.

Inductive transaction_status : Type := pending | committed | rolled_back.

(** lines 404-409 *)
Record Transaction : Type := {
  id : string;
  operations : list TransactionOperation;
  backups : list (string * list value);
  status : transaction_status
}.

(** The fields of the engine that change. *)
Record state : Type := {
  world : os;
  cache : list (string * CacheEntry);
  activeTransactions : list (string * Transaction)
}.

Definition lift_os {A} (m : M os A) : M state A :=
  fun s => match m (world s) with
           | (r, w') => (r, {| world := w'; cache := cache s;
                               activeTransactions := activeTransactions s |})
           end.

Definition set_cache (c : list (string * CacheEntry)) : M state unit :=
  fun s => (Ok tt, {| world := world s; cache := c;
                      activeTransactions := activeTransactions s |}).

Definition set_transactions (t : list (string * Transaction))
  : M state unit :=
  fun s => (Ok tt, {| world := world s; cache := cache s;
                      activeTransactions := t |}).

(** [entries.sort((a, b) => a.lastAccessed - b.lastAccessed)[0][0]]: the
    sort is stable, so this is the first entry with the least
    [lastAccessed]. *)
Fixpoint oldest_from (best : string * CacheEntry)
  (entries : list (string * CacheEntry)) : string :=
  match entries with
  | [] => fst best
  | e :: entries' =>
      if lastAccessed (snd e) <? lastAccessed (snd best)
      then oldest_from e entries'
      else oldest_from best entries'
  end.

Section Methods.
Context {crypto : Crypto} {json : JSON}.
Variable config : ConnectConfig.
Variable auth : value.

Definition ValidationError : exn := TextDBXError "VALIDATION_ERROR".
Definition PermissionError : exn := TextDBXError "PERMISSION_DENIED".
Definition TransactionError : exn := TextDBXError "TRANSACTION_ERROR".

(** lines 627-647 *)
Definition validateCollectionName (collection : string) : outcome unit :=
  if String.eqb collection "" then Throw ValidationError
  else if negb (name_regex collection) then Throw ValidationError
  else if (64 <? String.length collection)%nat then Throw ValidationError
  else if startsWith "." collection then Throw ValidationError
  else Ok tt.

(** lines 649-652 *)
Definition getCollectionPath (collection : string) : outcome string :=
  match validateCollectionName collection with
  | Throw e => Throw e
  | Ok _ => Ok (path_join (database config) (collection +:+ ".tdbx"))
  end.

(** lines 654-656 *)
Definition deriveKey (password salt : string) : string :=
  pbkdf2Sync password salt 100000%N 32 "sha256".

(** lines 658-673 *)
Definition encrypt (data : string) : M os string :=
  try_catch
    (do salt <- randomBytes 16;
     let key := deriveKey (encryptionKey config) salt in
     do iv <- randomBytes 16;
     do encrypted <- lift_outcome (aes_256_cbc_encrypt key iv data);
     ret (to_hex salt +:+ ":" +:+ to_hex iv +:+ ":" +:+ to_hex encrypted))
    (fun _ => throw (TextDBXError "ENCRYPTION_ERROR")).

(** lines 675-696 *)
Definition decrypt (data : string) : outcome string :=
  match split_on ":" data with
  | saltHex :: ivHex :: encHex :: _ =>
      if String.eqb saltHex "" || String.eqb ivHex "" || String.eqb encHex ""
      then Throw (TextDBXError "DECRYPTION_ERROR")
      else
        let salt := from_hex saltHex in
        let iv := from_hex ivHex in
        let encrypted := from_hex encHex in
        let key := deriveKey (encryptionKey config) salt in
        match aes_256_cbc_decrypt key iv encrypted with
        | Ok decrypted => Ok decrypted
        | Throw _ => Throw (TextDBXError "DECRYPTION_ERROR")
        end
  | _ => Throw (TextDBXError "DECRYPTION_ERROR")
  end.

(** lines 698-720. No other caller holds the lock: the operation runs at
    once. *)
Definition withFileLock {A} (filePath : string) (operation : M state A)
  : M state A := operation.

Definition cache_limit : Z :=
  if maxCacheSize config =? 0 then 100 else maxCacheSize config.

(** lines 804-818 *)
Definition updateCache (collection : string) (data : list value)
  (lastModified : Z) : M state unit :=
  do s <- get_state;
  do _ <- (if cache_limit <=? Z.of_nat (length (cache s))
           then match cache s with
                | [] => throw JsError
                | e :: entries =>
                    set_cache (map_delete (cache s) (oldest_from e entries))
                end
           else ret tt);
  do t <- lift_os Date_now;
  do s' <- get_state;
  set_cache (map_set (cache s') collection
               {| data := data; lastModified := lastModified;
                  accessCount := 1; lastAccessed := t |}).

(** [catch (error) { if (error instanceof TextDBXError) throw error;
    throw new TextDBXError(..., code) }] *)
Definition rethrow_as (code : string) (e : exn) : exn :=
  match e with
  | TextDBXError c => TextDBXError c
  | JsError => TextDBXError code
  end.

(** lines 722-776 *)
Definition loadFile (collection : string) : M state (list value) :=
  do s <- get_state;
  let cached := map_get (cache s) collection in
  do filePath <- lift_outcome (getCollectionPath collection);
  try_catch
    (do present <- lift_os (existsSync filePath);
     if negb present then ret []
     else
       do mtime <- lift_os (stat_mtime filePath);
       let from_file :=
         do raw <- lift_os (readFileSync filePath);
         do text <- (if is_encrypted (mode config)
                     then lift_outcome (decrypt raw) else ret raw);
         do parsed <- try_catch (lift_outcome (JSON_parse text))
                        (fun _ => throw (TextDBXError "DATA_CORRUPTION_ERROR"));
         match parsed with
         | VArr items =>
             do _ <- updateCache collection items mtime;
             ret items
         | _ => throw (TextDBXError "DATA_FORMAT_ERROR")
         end in
       match cached with
       | Some entry =>
           if mtime <=? lastModified entry
           then
             do t <- lift_os Date_now;
             do s' <- get_state;
             do _ <- set_cache
                       (map_set (cache s') collection
                          {| data := data entry;
                             lastModified := lastModified entry;
                             accessCount := accessCount entry + 1;
                             lastAccessed := t |});
             ret (data entry)
           else from_file
       | None => from_file
       end)
    (fun e => throw (rethrow_as "FILE_READ_ERROR" e)).

(** lines 778-802 *)
Definition saveFile (collection : string) (data : list value)
  : M state unit :=
  do filePath <- lift_outcome (getCollectionPath collection);
  withFileLock filePath
    (try_catch
       (let text := JSON_stringify (VArr data) in
        do raw <- (if is_encrypted (mode config) then lift_os (encrypt text)
                   else ret text);
        let tempPath := filePath +:+ ".tmp" in
        do _ <- lift_os (writeFileSync tempPath raw);
        do _ <- lift_os (rename tempPath filePath);
        do t <- lift_os Date_now;
        updateCache collection data t)
       (fun _ => throw (TextDBXError "FILE_WRITE_ERROR"))).

(** lines 842-847. Under a name that [auth] inherits, [this.auth[role]]
    is a built-in: it is truthy and has no method [includes], and the
    call is a [TypeError]. *)
Definition checkPermission (action : string) : outcome unit :=
  if inherits auth (role config) then Throw JsError
  else
    match get_prop auth (role config) with
    | Throw e => Throw e
    | Ok allowed =>
        if negb (truthy allowed) then Throw PermissionError
        else match js_includes allowed (VStr action) with
             | Ok true => Ok tt
             | Ok false => Throw PermissionError
             | Throw e => Throw e
             end
    end.

(** The body of one [case] of lines 880-919: [Ok true] where the source
    reaches [break], [Ok false] where it returns [false]. *)
Definition operator_holds (op : string) (opValue rowValue : value)
  : outcome bool :=
  if is_undef opValue || is_null opValue then Throw ValidationError
  else if String.eqb op "$gt" then
    match rowValue, opValue with
    | VNum r, VNum o => Ok (negb (r <=? o))
    | _, _ => Ok false
    end
  else if String.eqb op "$lt" then
    match rowValue, opValue with
    | VNum r, VNum o => Ok (negb (o <=? r))
    | _, _ => Ok false
    end
  else if String.eqb op "$gte" then
    match rowValue, opValue with
    | VNum r, VNum o => Ok (negb (r <? o))
    | _, _ => Ok false
    end
  else if String.eqb op "$lte" then
    match rowValue, opValue with
    | VNum r, VNum o => Ok (negb (o <? r))
    | _, _ => Ok false
    end
  else if String.eqb op "$contains" then
    match rowValue with
    | VArr items =>
        Ok (forallb (fun item => typeof_string item || typeof_number item)
              items
            && arr_includes items opValue)
    | VStr s =>
        match opValue with
        | VStr needle => Ok (str_includes needle s)
        | _ => Ok false
        end
    | _ => Ok false
    end
  else if String.eqb op "$in" then
    match opValue with
    | VArr items => Ok (arr_includes items rowValue)
    | _ => Ok false
    end
  else if String.eqb op "$exists" then
    match opValue with
    | VBool b => Ok (Bool.eqb (negb (is_undef rowValue)) b)
    | _ => Ok false
    end
  else Throw ValidationError.

(** One turn of the loop of lines 864-924. *)
Definition field_matches (row : value) (kv : string * value) : outcome bool :=
  let key := fst kv in
  let filterValue := snd kv in
  if startsWith "$" key then Ok true
  else
    match get_prop row key with
    | Throw e => Throw e
    | Ok rowValue =>
        match filterValue with
        | VObj operators =>
            every (fun o => operator_holds (fst o) (snd o) rowValue)
              operators
        | _ => Ok (strict_eq rowValue filterValue)
        end
    end.

Definition filter_error {A} (r : outcome A) : outcome A :=
  match r with
  | Ok a => Ok a
  | Throw _ => Throw (TextDBXError "FILTER_ERROR")
  end.

Fixpoint every_o {A} (f : A -> option (outcome bool)) (items : list A)
  : option (outcome bool) :=
  match items with
  | [] => Some (Ok true)
  | x :: items' =>
      match f x with
      | None => None
      | Some (Ok true) => every_o f items'
      | Some r => Some r
      end
  end.

Fixpoint some_o {A} (f : A -> option (outcome bool)) (items : list A)
  : option (outcome bool) :=
  match items with
  | [] => Some (Ok false)
  | x :: items' =>
      match f x with
      | None => None
      | Some (Ok false) => some_o f items'
      | Some r => Some r
      end
  end.

(** lines 849-932, by recursion on a bound for the nesting of the filter;
    [None] is a bound that was too small. *)
Fixpoint matchFilter_fuel (fuel : nat) (row filter : value)
  : option (outcome bool) :=
  match fuel with
  | O => None
  | S fuel' =>
      if negb (truthy filter) then Some (Ok true)
      else
        option_map filter_error
          (if truthy (member filter "$and") then
             match member filter "$and" with
             | VArr fs => every_o (matchFilter_fuel fuel' row) fs
             | _ => Some (Throw JsError)
             end
           else if truthy (member filter "$or") then
             match member filter "$or" with
             | VArr fs => some_o (matchFilter_fuel fuel' row) fs
             | _ => Some (Throw JsError)
             end
           else if truthy (member filter "$not") then
             option_map (outcome_map negb)
               (matchFilter_fuel fuel' row (member filter "$not"))
           else Some (every (field_matches row) (enum_props filter)))
  end.

(** The nesting of the filter is bound enough (see
    [matchFilter_fuel_enough]). *)
Definition matchFilter (row filter : value) : outcome bool :=
  match matchFilter_fuel (S (depth filter)) row filter with
  | Some r => r
  | None => Throw JsError
  end.

(** lines 934-944. Under a name that the row only inherits, [row[field]]
    is a built-in, which the values do not hold: the result is exact for
    the other names. *)
Definition projectFields (row : value) (fields : option (list string))
  : outcome value :=
  match fields with
  | None | Some [] => Ok row
  | Some fs =>
      outcome_map VObj
        (fold_left
           (fun acc field =>
              match acc with
              | Throw e => Throw e
              | Ok projected =>
                  match js_in field row with
                  | Throw e => Throw e
                  | Ok true => Ok (obj_set projected field (member row field))
                  | Ok false => Ok projected
                  end
              end)
           fs (Ok []))
  end.

(** lines 947-958 *)
Definition beginTransaction : M state string :=
  do transactionId <- lift_os randomUUID;
  do s <- get_state;
  do _ <- set_transactions
            (map_set (activeTransactions s) transactionId
               {| id := transactionId; operations := []; backups := [];
                  status := pending |});
  ret transactionId.

Fixpoint for_each {S A} (f : A -> M S unit) (items : list A) : M S unit :=
  match items with
  | [] => ret tt
  | x :: items' => f x >> for_each f items'
  end.

(** lines 983-1003 *)
Definition rollbackTransaction (transactionId : string) : M state unit :=
  do s <- get_state;
  match map_get (activeTransactions s) transactionId with
  | None => throw TransactionError
  | Some transaction =>
      try_catch
        (do _ <- for_each (fun cb => saveFile (fst cb) (snd cb))
                   (backups transaction);
         do s' <- get_state;
         set_transactions (map_delete (activeTransactions s') transactionId))
        (fun _ => throw TransactionError)
  end.

(** lines 1192-1196 *)
Definition insertInternal (collection : string) (record : value)
  : M state unit :=
  do data <- loadFile collection;
  saveFile collection (data ++ [record]).

(** lines 1214-1223. The pool grants the connection at once. *)
Definition insert (collection : string) (record : value) : M state unit :=
  do _ <- lift_outcome (checkPermission "insert");
  insertInternal collection record.

(** The loop of [updateInternal] (lines 1200-1204): the rows as the loop
    leaves them, and the exception that ended it, if one did. *)
Fixpoint update_loop (filter changes : value) (data : list value)
  : list value * option exn :=
  match data with
  | [] => ([], None)
  | row :: data' =>
      match matchFilter row filter with
      | Throw e => (row :: data', Some e)
      | Ok false =>
          let (rows, r) := update_loop filter changes data' in
          (row :: rows, r)
      | Ok true =>
          match object_assign row changes with
          | Throw e => (row :: data', Some e)
          | Ok row' =>
              let (rows, r) := update_loop filter changes data' in
              (row' :: rows, r)
          end
      end
  end.

(** lines 1198-1206. [Object.assign] changes the rows in place, and the
    rows that [loadFile] returned are the very objects that the cache
    entry of the collection holds ([cached.data] itself on a hit, and on a
    miss the elements that [updateCache] copied by [[...data]]): when the
    loop ends in an exception, the entry keeps the rows as the loop left
    them. [saveFile] replaces the entry otherwise. *)
Definition updateInternal (collection : string) (filter changes : value)
  : M state unit :=
  do data <- loadFile collection;
  match update_loop filter changes data with
  | (rows, None) => saveFile collection rows
  | (rows, Some e) =>
      do s <- get_state;
      do _ <- match map_get (cache s) collection with
              | Some entry =>
                  set_cache
                    (map_set (cache s) collection
                       {| data := rows;
                          lastModified := lastModified entry;
                          accessCount := accessCount entry;
                          lastAccessed := lastAccessed entry |})
              | None => ret tt
              end;
      throw e
  end.

(** lines 1208-1212 *)
Definition deleteInternal (collection : string) (filter : value)
  : M state unit :=
  do data <- loadFile collection;
  do filtered <- lift_outcome
                   (filter_rows
                      (fun row => outcome_map negb (matchFilter row filter))
                      data);
  saveFile collection filtered.

(** lines 1225-1234 *)
Definition update (collection : string) (filter changes : value)
  : M state unit :=
  do _ <- lift_outcome (checkPermission "update");
  updateInternal collection filter changes.

(** lines 1236-1245 *)
Definition delete (collection : string) (filter : value) : M state unit :=
  do _ <- lift_outcome (checkPermission "delete");
  deleteInternal collection filter.


End Methods.
End Engine.

(** ** Reference implementations of the library interfaces

    [Json] writes out [JSON.stringify(v, null, 2)] and [JSON.parse] for
    the values of the model; a numeral with a fraction or an exponent is
    outside the model and is refused. [Cipher] is a stand-in for Node's
    [crypto] that has the interface and the laws of [Crypto], and no
    secrecy. They give the instances at which the theorems below are
    applied to concrete inputs. *)

Module Json.

(** *** Printing, each function putting its text before [k] *)

Fixpoint spaces (n : nat) (k : string) : string :=
  match n with
  | O => k
  | S n' => String " " (spaces n' k)
  end.

Definition newline (indent : nat) (k : string) : string :=
  String "010" (spaces indent k).

(** [QuoteJSONString], character by character. *)
Definition escape (c : ascii) (k : string) : string :=
  let n := nat_of_ascii c in
  if (n =? 34)%nat then String "\" (String "034" k)
  else if (n =? 92)%nat then String "\" (String "\" k)
  else if (n =? 8)%nat then String "\" (String "b" k)
  else if (n =? 9)%nat then String "\" (String "t" k)
  else if (n =? 10)%nat then String "\" (String "n" k)
  else if (n =? 12)%nat then String "\" (String "f" k)
  else if (n =? 13)%nat then String "\" (String "r" k)
  else if (n <? 32)%nat then
    String "\" (String "u" (String "0" (String "0"
      (String (hex_digit (n / 16)) (String (hex_digit (n mod 16)) k)))))
  else String c k.

Fixpoint quote_body (s : string) (k : string) : string :=
  match s with
  | EmptyString => k
  | String c s' => escape c (quote_body s' k)
  end.

Definition quote (s : string) (k : string) : string :=
  String "034" (quote_body s (String "034" k)).

Fixpoint digits (d : Decimal.uint) (k : string) : string :=
  match d with
  | Decimal.Nil => k
  | Decimal.D0 d' => String "0" (digits d' k)
  | Decimal.D1 d' => String "1" (digits d' k)
  | Decimal.D2 d' => String "2" (digits d' k)
  | Decimal.D3 d' => String "3" (digits d' k)
  | Decimal.D4 d' => String "4" (digits d' k)
  | Decimal.D5 d' => String "5" (digits d' k)
  | Decimal.D6 d' => String "6" (digits d' k)
  | Decimal.D7 d' => String "7" (digits d' k)
  | Decimal.D8 d' => String "8" (digits d' k)
  | Decimal.D9 d' => String "9" (digits d' k)
  end.

Definition number (n : Z) (k : string) : string :=
  if n <? 0 then String "-" (digits (N.to_uint (Z.abs_N n)) k)
  else digits (N.to_uint (Z.abs_N n)) k.

Section Printers.
Variable pr : value -> string -> string.
Variable indent : nat.
Variable k : string.

(** The items of an array after the first, and the closing bracket. *)
Fixpoint print_items (l : list value) : string :=
  match l with
  | [] => newline indent (String "]" k)
  | y :: l' => String "," (newline (indent + 2) (pr y (print_items l')))
  end.

Definition print_member (key : string) (x : value) (rest : string)
  : string :=
  newline (indent + 2) (quote key (String ":" (String " " (pr x rest)))).

(** The members of an object after the first, and the closing brace. A
    member whose value is [undefined] is left out. *)
Fixpoint print_members (l : props) : string :=
  match l with
  | [] => newline indent (String "}" k)
  | (key, VUndef) :: l' => print_members l'
  | (key, y) :: l' => String "," (print_member key y (print_members l'))
  end.

(** The object from its first member that is not [undefined]. *)
Fixpoint print_object (l : props) : string :=
  match l with
  | [] => String "{" (String "}" k)
  | (key, VUndef) :: l' => print_object l'
  | (key, x) :: l' => String "{" (print_member key x (print_members l'))
  end.

End Printers.

(** [undefined] is printed as [null] in an array. *)
Fixpoint print (indent : nat) (v : value) (k : string) : string :=
  match v with
  | VUndef | VNull => String "n" (String "u" (String "l" (String "l" k)))
  | VBool true => String "t" (String "r" (String "u" (String "e" k)))
  | VBool false =>
      String "f" (String "a" (String "l" (String "s" (String "e" k))))
  | VNum n => number n k
  | VStr s => quote s k
  | VArr [] => String "[" (String "]" k)
  | VArr (x :: items) =>
      String "["
        (newline (indent + 2)
           (print (indent + 2) x
              (print_items (print (indent + 2)) indent k items)))
  | VObj o => print_object (print (indent + 2)) indent k o
  end.

Definition stringify (v : value) : string := print 0 v "".

(** *** Parsing *)

Definition is_json_ws (c : ascii) : bool :=
  let n := nat_of_ascii c in
  ((n =? 32) || (n =? 9) || (n =? 10) || (n =? 13))%nat.

Fixpoint skip_ws (s : string) : string :=
  match s with
  | EmptyString => EmptyString
  | String c s' => if is_json_ws c then skip_ws s' else s
  end.

Definition digit_of (c : ascii) : option (Decimal.uint -> Decimal.uint) :=
  match nat_of_ascii c with
  | 48 => Some Decimal.D0 | 49 => Some Decimal.D1 | 50 => Some Decimal.D2
  | 51 => Some Decimal.D3 | 52 => Some Decimal.D4 | 53 => Some Decimal.D5
  | 54 => Some Decimal.D6 | 55 => Some Decimal.D7 | 56 => Some Decimal.D8
  | 57 => Some Decimal.D9 | _ => None
  end%nat.

Fixpoint parse_digits (s : string) : Decimal.uint * string :=
  match s with
  | EmptyString => (Decimal.Nil, EmptyString)
  | String c s' =>
      match digit_of c with
      | Some d => let (ds, r) := parse_digits s' in (d ds, r)
      | None => (Decimal.Nil, s)
      end
  end.

(** The character after a numeral starts neither a fraction nor an
    exponent. *)
Definition ends_numeral (s : string) : bool :=
  match s with
  | EmptyString => true
  | String c _ =>
      negb (Ascii.eqb c "." || Ascii.eqb c "e" || Ascii.eqb c "E")
  end.

(** The digits of an integer numeral: at least one, and no leading
    zero. *)
Definition parse_natural (s : string) : option (N * string) :=
  let (ds, r) := parse_digits s in
  match ds with
  | Decimal.Nil => None
  | _ =>
      if Decimal.uint_beq (N.to_uint (N.of_uint ds)) ds && ends_numeral r
      then Some (N.of_uint ds, r)
      else None
  end.

(** The UTF-8 bytes of a code unit given by [\uXXXX]. *)
Definition utf8 (code : nat) (k : string) : string :=
  if (code <? 128)%nat then String (ascii_of_nat code) k
  else if (code <? 2048)%nat then
    String (ascii_of_nat (192 + code / 64))
      (String (ascii_of_nat (128 + code mod 64)) k)
  else
    String (ascii_of_nat (224 + code / 4096))
      (String (ascii_of_nat (128 + (code / 64) mod 64))
         (String (ascii_of_nat (128 + code mod 64)) k)).

(** The text after an opening quote, up to the closing one. *)
Fixpoint parse_string (s : string) : option (string * string) :=
  match s with
  | EmptyString => None
  | String c s' =>
      if Ascii.eqb c "034" then Some (EmptyString, s')
      else if Ascii.eqb c "\" then
        match s' with
        | String e s'' =>
            let simple (x : ascii) :=
              match parse_string s'' with
              | Some (t, r) => Some (String x t, r)
              | None => None
              end in
            if Ascii.eqb e "034" then simple "034"%char
            else if Ascii.eqb e "\" then simple "\"%char
            else if Ascii.eqb e "/" then simple "/"%char
            else if Ascii.eqb e "b" then simple "008"%char
            else if Ascii.eqb e "f" then simple "012"%char
            else if Ascii.eqb e "n" then simple "010"%char
            else if Ascii.eqb e "r" then simple "013"%char
            else if Ascii.eqb e "t" then simple "009"%char
            else if Ascii.eqb e "u" then
              match s'' with
              | String h1 (String h2 (String h3 (String h4 s3))) =>
                  match hex_val h1, hex_val h2, hex_val h3, hex_val h4 with
                  | Some a, Some b, Some c', Some d =>
                      match parse_string s3 with
                      | Some (t, r) =>
                          Some (utf8 (4096 * a + 256 * b + 16 * c' + d) t, r)
                      | None => None
                      end
                  | _, _, _, _ => None
                  end
              | _ => None
              end
            else None
        | EmptyString => None
        end
      else if (nat_of_ascii c <? 32)%nat then None
      else
        match parse_string s' with
        | Some (t, r) => Some (String c t, r)
        | None => None
        end
  end.

(** The items of an array after the first [[], up to the closing []]. *)
Fixpoint parse_items (pv : string -> option (value * string)) (n : nat)
  (s : string) : option (list value * string) :=
  match n with
  | O => None
  | S n' =>
      match pv s with
      | Some (v, r) =>
          match skip_ws r with
          | String c r' =>
              if Ascii.eqb c "," then
                match parse_items pv n' r' with
                | Some (vs, r'') => Some (v :: vs, r'')
                | None => None
                end
              else if Ascii.eqb c "]" then Some ([v], r')
              else None
          | EmptyString => None
          end
      | None => None
      end
  end.

(** The members of an object, up to the closing [}]. *)
Fixpoint parse_members (pv : string -> option (value * string)) (n : nat)
  (s : string) : option (props * string) :=
  match n with
  | O => None
  | S n' =>
      match skip_ws s with
      | String q s1 =>
          if Ascii.eqb q "034" then
            match parse_string s1 with
            | Some (key, s2) =>
                match skip_ws s2 with
                | String colon s3 =>
                    if Ascii.eqb colon ":" then
                      match pv s3 with
                      | Some (v, r) =>
                          match skip_ws r with
                          | String c r' =>
                              if Ascii.eqb c "," then
                                match parse_members pv n' r' with
                                | Some (ms, r'') => Some ((key, v) :: ms, r'')
                                | None => None
                                end
                              else if Ascii.eqb c "}"
                              then Some ([(key, v)], r')
                              else None
                          | EmptyString => None
                          end
                      | None => None
                      end
                    else None
                | EmptyString => None
                end
            | None => None
            end
          else None
      | EmptyString => None
      end
  end.

Definition parse_literal (lit : string) (v : value) (s : string)
  : option (value * string) :=
  (fix go (lit s : string) : option (value * string) :=
     match lit with
     | EmptyString => Some (v, s)
     | String c lit' =>
         match s with
         | String d s' => if Ascii.eqb c d then go lit' s' else None
         | EmptyString => None
         end
     end) lit s.

(** A value, after optional white space; [fuel] bounds the nesting and
    the number of items. *)
Fixpoint parse_value (fuel : nat) (s : string) : option (value * string) :=
  match fuel with
  | O => None
  | S fuel' =>
      match skip_ws s with
      | EmptyString => None
      | String c r =>
          if Ascii.eqb c "[" then
            match skip_ws r with
            | String c' r' =>
                if Ascii.eqb c' "]" then Some (VArr [], r')
                else
                  match parse_items (parse_value fuel') fuel' r with
                  | Some (vs, r'') => Some (VArr vs, r'')
                  | None => None
                  end
            | EmptyString => None
            end
          else if Ascii.eqb c "{" then
            match skip_ws r with
            | String c' r' =>
                if Ascii.eqb c' "}" then Some (VObj [], r')
                else
                  match parse_members (parse_value fuel') fuel' r with
                  | Some (ms, r'') => Some (VObj (obj_of_list ms), r'')
                  | None => None
                  end
            | EmptyString => None
            end
          else if Ascii.eqb c "034" then
            match parse_string r with
            | Some (t, r') => Some (VStr t, r')
            | None => None
            end
          else if Ascii.eqb c "-" then
            match parse_natural r with
            | Some (n, r') => Some (VNum (- Z.of_N n), r')
            | None => None
            end
          else if Ascii.eqb c "n" then parse_literal "ull" VNull r
          else if Ascii.eqb c "t" then parse_literal "rue" (VBool true) r
          else if Ascii.eqb c "f" then parse_literal "alse" (VBool false) r
          else
            match parse_natural (String c r) with
            | Some (n, r') => Some (VNum (Z.of_N n), r')
            | None => None
            end
      end
  end.

(** [JSON.parse]: one value, and white space at most after it. *)
Definition parse (s : string) : outcome value :=
  match parse_value (S (String.length s)) s with
  | Some (v, r) =>
      match skip_ws r with
      | EmptyString => Ok v
      | _ => Throw JsError
      end
  | None => Throw JsError
  end.

End Json.

Module Cipher.

Fixpoint resize (n : nat) (s : string) : string :=
  match n with
  | O => EmptyString
  | S n' =>
      match s with
      | EmptyString => String Ascii.zero (resize n' EmptyString)
      | String c s' => String c (resize n' s')
      end
  end.

Fixpoint strip_prefix (p s : string) : option string :=
  match p with
  | EmptyString => Some s
  | String c p' =>
      match s with
      | String d s' => if Ascii.eqb c d then strip_prefix p' s' else None
      | EmptyString => None
      end
  end.

Definition sha256 (s : string) : string := resize 32 s.

Definition pbkdf2Sync (password salt : string) (iterations : N)
  (keylen : nat) (digest : string) : string :=
  resize keylen (salt +:+ password).

Definition sizes_ok (key iv : string) : bool :=
  ((String.length key =? 32) && (String.length iv =? 16))%nat.

(** The "ciphertext" is a marker byte, the key, the IV and the plain
    text. *)
Definition encrypt (key iv plain : string) : outcome string :=
  if sizes_ok key iv then Ok (String "001" (key +:+ iv +:+ plain))
  else Throw JsError.

(** Deciphering with another key or IV fails, as a wrong padding does. *)
Definition decrypt (key iv cipher : string) : outcome string :=
  if sizes_ok key iv then
    match cipher with
    | String c body =>
        if Ascii.eqb c "001" then
          match strip_prefix (key +:+ iv) body with
          | Some plain => Ok plain
          | None => Throw JsError
          end
        else Throw JsError
    | EmptyString => Throw JsError
    end
  else Throw JsError.

End Cipher.

(* ================================================================== *)
(** * Part II. Properties                                              *)
(* ================================================================== *)

(** ** Values and their depth *)

Lemma depth_item (items : list value) (x : value) :
  In x items -> (depth x <= list_max (map depth items))%nat.
Proof.
  induction items as [|y items IH]; simpl; [tauto|].
  intros [->|Hin]; [lia|]. specialize (IH Hin). lia.
Qed.

Lemma depth_obj_get (o : props) (k : string) :
  (depth (obj_get o k) <= list_max (map (fun kv => depth (snd kv)) o))%nat.
Proof.
  induction o as [|[k' v] o IH]; simpl; [lia|].
  destruct (String.eqb k' k); simpl; lia.
Qed.

(** A key that is neither an index nor [length] is found on objects
    only. *)
Lemma member_plain_key (v : value) (k : string) :
  array_index k = None -> String.eqb k "length" = false ->
  member v k = match v with VObj o => obj_get o k | _ => VUndef end.
Proof.
  intros Hi Hl. unfold member, get_prop.
  destruct v; try reflexivity; rewrite Hl, Hi; reflexivity.
Qed.

Lemma member_depth (v : value) (k : string) :
  array_index k = None -> String.eqb k "length" = false ->
  truthy (member v k) = true -> (depth (member v k) < depth v)%nat.
Proof.
  intros Hi Hl. rewrite (member_plain_key v k Hi Hl).
  destruct v as [| | | | | |o]; simpl; try discriminate.
  intros _. pose proof (depth_obj_get o k). lia.
Qed.

Lemma member_items_depth (v : value) (k : string) (fs : list value) (x : value) :
  array_index k = None -> String.eqb k "length" = false ->
  member v k = VArr fs -> In x fs -> (S (depth x) < depth v)%nat.
Proof.
  intros Hi Hl Hm Hin.
  assert (Ht : truthy (member v k) = true) by (rewrite Hm; reflexivity).
  pose proof (member_depth v k Hi Hl Ht) as Hd. rewrite Hm in Hd. simpl in Hd.
  pose proof (depth_item fs x Hin). lia.
Qed.

(** ** The filter evaluator of the engine *)

Lemma every_o_ext {A} (g h : A -> option (outcome bool)) (l : list A) :
  (forall x, In x l -> g x = h x) -> Engine.every_o g l = Engine.every_o h l.
Proof.
  induction l as [|x l IH]; simpl; [reflexivity|].
  intros Hgh. rewrite (Hgh x (or_introl eq_refl)).
  destruct (h x) as [[[|]|]|]; try reflexivity. apply IH. auto.
Qed.

Lemma some_o_ext {A} (g h : A -> option (outcome bool)) (l : list A) :
  (forall x, In x l -> g x = h x) -> Engine.some_o g l = Engine.some_o h l.
Proof.
  induction l as [|x l IH]; simpl; [reflexivity|].
  intros Hgh. rewrite (Hgh x (or_introl eq_refl)).
  destruct (h x) as [[[|]|]|]; try reflexivity. apply IH. auto.
Qed.

Lemma every_o_some {A} (g : A -> option (outcome bool)) (l : list A) :
  (forall x, In x l -> is_Some (g x)) -> is_Some (Engine.every_o g l).
Proof.
  induction l as [|x l IH]; simpl; [eauto|].
  intros Hg. destruct (Hg x (or_introl eq_refl)) as [r ->].
  destruct r as [[|]|]; eauto.
Qed.

Lemma some_o_some {A} (g : A -> option (outcome bool)) (l : list A) :
  (forall x, In x l -> is_Some (g x)) -> is_Some (Engine.some_o g l).
Proof.
  induction l as [|x l IH]; simpl; [eauto|].
  intros Hg. destruct (Hg x (or_introl eq_refl)) as [r ->].
  destruct r as [[|]|]; eauto.
Qed.

(** Any bound above the depth of the filter gives the same answer. *)
Lemma matchFilter_fuel_stable (row : value) :
  forall n m filter,
    (depth filter < n)%nat -> (depth filter < m)%nat ->
    Engine.matchFilter_fuel n row filter = Engine.matchFilter_fuel m row filter.
Proof.
  induction n as [|n IH]; intros m filter Hn Hm; [lia|].
  destruct m as [|m]; [lia|]. simpl.
  destruct (truthy filter); simpl; [|reflexivity].
  f_equal.
  destruct (truthy (member filter "$and")) eqn:Hand.
  { destruct (member filter "$and") as [| | | | |fs|] eqn:Hm'; try reflexivity.
    apply every_o_ext. intros x Hx.
    pose proof (member_items_depth filter "$and" fs x eq_refl eq_refl Hm' Hx).
    apply IH; lia. }
  destruct (truthy (member filter "$or")) eqn:Hor.
  { destruct (member filter "$or") as [| | | | |fs|] eqn:Hm'; try reflexivity.
    apply some_o_ext. intros x Hx.
    pose proof (member_items_depth filter "$or" fs x eq_refl eq_refl Hm' Hx).
    apply IH; lia. }
  destruct (truthy (member filter "$not")) eqn:Hnot; [|reflexivity].
  pose proof (member_depth filter "$not" eq_refl eq_refl Hnot).
  f_equal. apply IH; lia.
Qed.

(** The recursion of [matchFilter] ends: a bound above the depth of the
    filter is never too small. *)
Lemma matchFilter_fuel_enough (row : value) :
  forall n filter,
    (depth filter < n)%nat -> is_Some (Engine.matchFilter_fuel n row filter).
Proof.
  induction n as [|n IH]; intros filter Hn; [lia|]. simpl.
  destruct (truthy filter); simpl; [|eauto].
  apply fmap_is_Some.
  destruct (truthy (member filter "$and")) eqn:Hand.
  { destruct (member filter "$and") as [| | | | |fs|] eqn:Hm'; eauto.
    apply every_o_some. intros x Hx.
    pose proof (member_items_depth filter "$and" fs x eq_refl eq_refl Hm' Hx).
    apply IH; lia. }
  destruct (truthy (member filter "$or")) eqn:Hor.
  { destruct (member filter "$or") as [| | | | |fs|] eqn:Hm'; eauto.
    apply some_o_some. intros x Hx.
    pose proof (member_items_depth filter "$or" fs x eq_refl eq_refl Hm' Hx).
    apply IH; lia. }
  destruct (truthy (member filter "$not")) eqn:Hnot; [|eauto].
  pose proof (member_depth filter "$not" eq_refl eq_refl Hnot).
  apply fmap_is_Some. apply IH; lia.
Qed.

Lemma matchFilter_fuel_eq (row : value) (n : nat) (filter : value) :
  (depth filter < n)%nat ->
  Engine.matchFilter_fuel n row filter = Some (Engine.matchFilter row filter).
Proof.
  intros Hn. unfold Engine.matchFilter.
  rewrite (matchFilter_fuel_stable row n (S (depth filter)) filter Hn)
    by lia.
  destruct (matchFilter_fuel_enough row (S (depth filter)) filter) as [r Hr];
    [lia|].
  rewrite Hr. reflexivity.
Qed.

Lemma every_o_every {A} (g : A -> option (outcome bool))
  (h : A -> outcome bool) (l : list A) :
  (forall x, In x l -> g x = Some (h x)) ->
  Engine.every_o g l = Some (every h l).
Proof.
  induction l as [|x l IH]; simpl; [reflexivity|].
  intros Hg. rewrite (Hg x (or_introl eq_refl)).
  destruct (h x) as [[|]|]; try reflexivity. apply IH. auto.
Qed.

Lemma some_o_some_eq {A} (g : A -> option (outcome bool))
  (h : A -> outcome bool) (l : list A) :
  (forall x, In x l -> g x = Some (h x)) ->
  Engine.some_o g l = Some (some h l).
Proof.
  induction l as [|x l IH]; simpl; [reflexivity|].
  intros Hg. rewrite (Hg x (or_introl eq_refl)).
  destruct (h x) as [[|]|]; try reflexivity. apply IH. auto.
Qed.

(** [matchFilter] satisfies the equation of its source text. *)
Lemma matchFilter_unfold (row filter : value) :
  Engine.matchFilter row filter =
  if negb (truthy filter) then Ok true
  else
    Engine.filter_error
      (if truthy (member filter "$and") then
         match member filter "$and" with
         | VArr fs => every (Engine.matchFilter row) fs
         | _ => Throw JsError
         end
       else if truthy (member filter "$or") then
         match member filter "$or" with
         | VArr fs => some (Engine.matchFilter row) fs
         | _ => Throw JsError
         end
       else if truthy (member filter "$not") then
         outcome_map negb (Engine.matchFilter row (member filter "$not"))
       else every (Engine.field_matches row) (enum_props filter)).
Proof.
  unfold Engine.matchFilter at 1. simpl.
  destruct (truthy filter); simpl; [|reflexivity].
  destruct (truthy (member filter "$and")) eqn:Hand.
  { destruct (member filter "$and") as [| | | | |fs|] eqn:Hm'; try reflexivity.
    rewrite (every_o_every _ (Engine.matchFilter row)); [reflexivity|].
    intros x Hx. apply matchFilter_fuel_eq.
    pose proof (member_items_depth filter "$and" fs x eq_refl eq_refl Hm' Hx).
    lia. }
  destruct (truthy (member filter "$or")) eqn:Hor.
  { destruct (member filter "$or") as [| | | | |fs|] eqn:Hm'; try reflexivity.
    rewrite (some_o_some_eq _ (Engine.matchFilter row)); [reflexivity|].
    intros x Hx. apply matchFilter_fuel_eq.
    pose proof (member_items_depth filter "$or" fs x eq_refl eq_refl Hm' Hx).
    lia. }
  destruct (truthy (member filter "$not")) eqn:Hnot; [|reflexivity].
  pose proof (member_depth filter "$not" eq_refl eq_refl Hnot).
  rewrite matchFilter_fuel_eq by lia. reflexivity.
Qed.

Lemma filter_error_idem {A} (r : outcome A) :
  Engine.filter_error (Engine.filter_error r) = Engine.filter_error r.
Proof. destruct r; reflexivity. Qed.

(** What [matchFilter] throws is a [FILTER_ERROR]. *)
Lemma matchFilter_throws (row filter : value) (e : exn) :
  Engine.matchFilter row filter = Throw e -> e = TextDBXError "FILTER_ERROR".
Proof.
  rewrite matchFilter_unfold. destruct (truthy filter); simpl; [|discriminate].
  match goal with |- Engine.filter_error ?r = _ -> _ => destruct r end;
    simpl; congruence.
Qed.

(** The filter [{$not: F}] for any [F] that JavaScript takes as true:
    every object is. *)
Lemma matchFilter_not_truthy (row F : value) :
  truthy F = true ->
  Engine.matchFilter row (VObj [("$not", F)]) =
  outcome_map negb (Engine.matchFilter row F).
Proof.
  intros HF. rewrite matchFilter_unfold. cbn. rewrite HF.
  destruct (Engine.matchFilter row F) as [b|e] eqn:Hr; simpl; [reflexivity|].
  rewrite (matchFilter_throws row F e Hr). reflexivity.
Qed.

(** C7. For every filter [F] (an object) and every record [r]: when
    [match(r, F)] returns a boolean, [match(r, {$not: F})] returns its
    negation; when the evaluation of [F] fails, that of [{$not: F}] fails
    with the same error. Both do return: the empty filter matches every
    record, and its negation matches none. *)
Theorem matchFilter_not (row : value) (F : props) :
  (forall b,
     Engine.matchFilter row (VObj F) = Ok b ->
     Engine.matchFilter row (VObj [("$not", VObj F)]) = Ok (negb b)) /\
  (forall e,
     Engine.matchFilter row (VObj F) = Throw e ->
     Engine.matchFilter row (VObj [("$not", VObj F)]) = Throw e) /\
  Engine.matchFilter row (VObj []) = Ok true /\
  Engine.matchFilter row (VObj [("$not", VObj [])]) = Ok false.
Proof.
  assert (Hnot : forall G,
    Engine.matchFilter row (VObj [("$not", VObj G)]) =
    outcome_map negb (Engine.matchFilter row (VObj G))).
  { intros G. apply matchFilter_not_truthy. reflexivity. }
  assert (Hempty : Engine.matchFilter row (VObj []) = Ok true)
    by (rewrite matchFilter_unfold; reflexivity).
  split; [|split; [|split]].
  - intros b Hb. rewrite Hnot, Hb. reflexivity.
  - intros e He. rewrite Hnot, He. reflexivity.
  - exact Hempty.
  - rewrite Hnot, Hempty. reflexivity.
Qed.

(** ** Objects as ordered property lists *)

Lemma obj_keys_set (o : props) (k : string) (v : value) (k' : string) :
  In k' (obj_keys (obj_set o k v)) <-> k' = k \/ In k' (obj_keys o).
Proof.
  induction o as [|[k0 v0] o IH]; simpl; [intuition congruence|].
  destruct (String.eqb_spec k0 k) as [->|Hne]; simpl; [intuition congruence|].
  destruct (key_before k k0); simpl; [intuition congruence|].
  unfold obj_keys in IH. rewrite IH. intuition congruence.
Qed.

Lemma obj_get_set_eq (o : props) (k : string) (v : value) :
  obj_get (obj_set o k v) k = v.
Proof.
  induction o as [|[k0 v0] o IH]; simpl.
  - rewrite String.eqb_refl. reflexivity.
  - destruct (String.eqb_spec k0 k) as [->|Hne]; simpl.
    + rewrite String.eqb_refl. reflexivity.
    + destruct (key_before k k0); simpl.
      * rewrite String.eqb_refl. reflexivity.
      * destruct (String.eqb_spec k0 k); [contradiction|]. exact IH.
Qed.

Lemma obj_get_set_ne (o : props) (k : string) (v : value) (k' : string) :
  k' <> k -> obj_get (obj_set o k v) k' = obj_get o k'.
Proof.
  intros Hne. induction o as [|[k0 v0] o IH]; simpl.
  - destruct (String.eqb_spec k k'); [congruence|reflexivity].
  - destruct (String.eqb_spec k0 k) as [->|Hne0]; simpl.
    + destruct (String.eqb_spec k k'); [congruence|reflexivity].
    + destruct (key_before k k0); simpl.
      * destruct (String.eqb_spec k k'); [congruence|reflexivity].
      * destruct (String.eqb_spec k0 k'); [reflexivity|]. exact IH.
Qed.

Lemma obj_has_keys (o : props) (k : string) :
  obj_has o k = true <-> In k (obj_keys o).
Proof.
  induction o as [|[k0 v0] o IH]; simpl; [split; [discriminate|tauto]|].
  rewrite orb_true_iff, IH. destruct (String.eqb_spec k0 k); intuition congruence.
Qed.

Lemma obj_get_absent (o : props) (k : string) :
  obj_has o k = false -> obj_get o k = VUndef.
Proof.
  induction o as [|[k0 v0] o IH]; simpl; [reflexivity|].
  destruct (String.eqb k0 k); simpl; [discriminate|]. exact IH.
Qed.


Lemma key_before_irrefl (k : string) : key_before k k = false.
Proof.
  unfold key_before. destruct (array_index k); [apply N.ltb_irrefl|reflexivity].
Qed.






(** ** Projection *)


(** What the loop of [Examples.projectFields] builds from a record. *)
Definition project_all (r : props) (fs : list string) (p0 : props) : props :=
  fold_left (fun p f => obj_set p f (obj_get r f)) fs p0.


Lemma examples_projectFields_record (r : props) (fs : list string) :
  Examples.projectFields (VObj r) (Some fs) =
  Ok (VObj (project_all r fs [])).
Proof.
  unfold Examples.projectFields, project_all.
  generalize (@nil (string * value)) as p0.
  induction fs as [|x l IH]; intros p0; simpl; [reflexivity|]. apply IH.
Qed.

Lemma basic_projectFields_same (row : value) (fields : option (list string)) :
  Basic.projectFields row fields = Examples.projectFields row fields.
Proof. reflexivity. Qed.





Lemma project_all_keys (r : props) (fs : list string) :
  forall p0 k,
    In k (obj_keys (project_all r fs p0)) <-> In k (obj_keys p0) \/ In k fs.
Proof.
  unfold project_all. induction fs as [|f fs IH]; intros p0 k; simpl.
  - tauto.
  - rewrite IH, obj_keys_set. intuition congruence.
Qed.

Lemma project_all_values (r : props) (fs : list string) :
  forall p0,
    (forall k, In k (obj_keys p0) -> obj_get p0 k = obj_get r k) ->
    forall k, In k (obj_keys (project_all r fs p0)) ->
              obj_get (project_all r fs p0) k = obj_get r k.
Proof.
  unfold project_all. induction fs as [|f fs IH]; intros p0 Hp0; simpl.
  - exact Hp0.
  - apply IH. intros k Hk. destruct (String.eqb_spec k f) as [->|Hne].
    + apply obj_get_set_eq.
    + rewrite obj_get_set_ne by exact Hne. apply Hp0.
      apply obj_keys_set in Hk. tauto.
Qed.



(** In the two earlier copies every listed field is a key of the result,
    those that [r] lacks with the value [undefined]. *)
Lemma examples_projectFields_listed (r : props) (fs : list string) :
  exists q,
    Examples.projectFields (VObj r) (Some fs) = Ok (VObj q) /\
    Basic.projectFields (VObj r) (Some fs) = Ok (VObj q) /\
    (forall k, In k (obj_keys q) <-> In k fs) /\
    (forall k, In k fs -> obj_get q k = obj_get r k).
Proof.
  exists (project_all r fs []).
  split; [apply examples_projectFields_record|].
  split; [rewrite basic_projectFields_same;
          apply examples_projectFields_record|].
  split.
  - intros k. rewrite project_all_keys. simpl. tauto.
  - intros k Hk. apply project_all_values; [simpl; tauto|].
    apply project_all_keys. tauto.
Qed.



(** ** Text, hexadecimal and the envelope *)

Lemma append_nil (b : string) : "" +:+ b = b.
Proof. reflexivity. Qed.

Lemma append_cons (x : ascii) (a b : string) :
  String x a +:+ b = String x (a +:+ b).
Proof. reflexivity. Qed.

Lemma append_assoc (a b c : string) : (a +:+ b) +:+ c = a +:+ (b +:+ c).
Proof.
  induction a as [|x a IH]; [reflexivity|].
  rewrite !append_cons, IH. reflexivity.
Qed.

Lemma append_length (a b : string) :
  String.length (a +:+ b) = (String.length a + String.length b)%nat.
Proof.
  induction a as [|x a IH]; [reflexivity|].
  rewrite append_cons. simpl. rewrite IH. reflexivity.
Qed.

Lemma append_nonempty_ne (a b : string) : b <> "" -> a +:+ b <> a.
Proof.
  intros Hb Heq. apply (f_equal String.length) in Heq.
  rewrite append_length in Heq. destruct b; [congruence|]. simpl in Heq. lia.
Qed.

Lemma append_inj_l (a b c : string) : a +:+ b = a +:+ c -> b = c.
Proof.
  induction a as [|x a IH]; [tauto|].
  rewrite !append_cons. intros H. injection H. exact IH.
Qed.

Lemma tape_length (e : nat -> ascii) (from n : nat) :
  String.length (tape e from n) = n.
Proof. revert from. induction n as [|n IH]; intros from; simpl; [|rewrite IH]; reflexivity. Qed.

Lemma from_hex_step (c : ascii) (s : string) :
  from_hex (String (hex_digit (nat_of_ascii c / 16))
              (String (hex_digit (nat_of_ascii c mod 16)) s)) =
  String c (from_hex s).
Proof.
  destruct c as [[] [] [] [] [] [] [] []]; reflexivity.
Qed.

(** [Buffer.from(buf.toString('hex'), 'hex')] is [buf]. *)
Lemma from_hex_to_hex (buf : string) : from_hex (to_hex buf) = buf.
Proof.
  induction buf as [|c buf IH]; [reflexivity|].
  cbn [to_hex]. rewrite from_hex_step, IH. reflexivity.
Qed.

Lemma hex_digit_not_colon (n : nat) : Ascii.eqb (hex_digit n) ":" = false.
Proof. do 16 (destruct n as [|n]; [reflexivity|]). reflexivity. Qed.

Lemma to_hex_no_colon (buf : string) : includes_char ":" (to_hex buf) = false.
Proof.
  induction buf as [|c buf IH]; [reflexivity|].
  cbn [to_hex includes_char]. rewrite !hex_digit_not_colon, IH. reflexivity.
Qed.

Lemma to_hex_empty (buf : string) : to_hex buf = "" -> buf = "".
Proof. destruct buf; [reflexivity|discriminate]. Qed.

Lemma split_on_none (sep : ascii) (s : string) :
  includes_char sep s = false -> split_on sep s = [s].
Proof.
  induction s as [|c s IH]; simpl; [reflexivity|].
  intros H. apply orb_false_iff in H as [Hc Hs].
  rewrite Hc, (IH Hs). reflexivity.
Qed.

Lemma split_on_append (sep : ascii) (a b : string) :
  includes_char sep a = false ->
  split_on sep (a +:+ String sep b) = a :: split_on sep b.
Proof.
  induction a as [|c a IH]; rewrite ?append_nil, ?append_cons; simpl.
  - intros _. rewrite Ascii.eqb_refl. reflexivity.
  - intros H. apply orb_false_iff in H as [Hc Ha].
    rewrite Hc, (IH Ha). reflexivity.
Qed.

Lemma includes_char_append (sep : ascii) (a b : string) :
  includes_char sep (a +:+ b) = includes_char sep a || includes_char sep b.
Proof.
  induction a as [|c a IH]; rewrite ?append_nil, ?append_cons; simpl;
    [reflexivity|].
  rewrite IH, orb_assoc. reflexivity.
Qed.

(** The fields of a two-field and of a three-field envelope. *)
Lemma split_envelope2 (iv ct : string) :
  split_on ":" (to_hex iv +:+ ":" +:+ to_hex ct) = [to_hex iv; to_hex ct].
Proof.
  change (":" +:+ to_hex ct) with (String ":" (to_hex ct)).
  rewrite split_on_append by apply to_hex_no_colon.
  rewrite split_on_none by apply to_hex_no_colon. reflexivity.
Qed.

Lemma split_envelope3 (salt iv ct : string) :
  split_on ":" (to_hex salt +:+ ":" +:+ to_hex iv +:+ ":" +:+ to_hex ct) =
  [to_hex salt; to_hex iv; to_hex ct].
Proof.
  change (":" +:+ to_hex iv +:+ ":" +:+ to_hex ct)
    with (String ":" (to_hex iv +:+ ":" +:+ to_hex ct)).
  rewrite split_on_append by apply to_hex_no_colon.
  rewrite split_envelope2. reflexivity.
Qed.

(** No white space of several bytes starts with a plain byte. *)
Lemma plain_byte_not_ws (c : ascii) :
  plain_byte c = true ->
  is_ws c = false /\ (forall d, is_ws2 c d = false) /\
  (forall d e, is_ws3 c d e = false).
Proof.
  unfold plain_byte, is_ws2, is_ws3. intros H.
  apply andb_true_iff in H as [Hlt Hws]. apply Nat.ltb_lt in Hlt.
  apply negb_true_iff in Hws. split; [exact Hws|].
  split; intros; cbv zeta;
    repeat match goal with
           | |- context [(nat_of_ascii c =? ?n)%nat] =>
               destruct (Nat.eqb_spec (nat_of_ascii c) n); [lia|]
           end; reflexivity.
Qed.

Lemma is_blank_plain (c : ascii) (s : string) :
  plain_byte c = true -> is_blank (String c s) = false.
Proof.
  intros H. destruct (plain_byte_not_ws c H) as [H1 [H2 H3]].
  cbn [is_blank]. rewrite H1. destruct s as [|d s]; [reflexivity|].
  rewrite H2. destruct s as [|e s]; [reflexivity|]. rewrite H3. reflexivity.
Qed.

Lemma hex_digit_plain (n : nat) : plain_byte (hex_digit n) = true.
Proof. do 16 (destruct n as [|n]; [reflexivity|]). reflexivity. Qed.

Lemma is_blank_hex (buf rest : string) :
  buf <> "" -> is_blank (to_hex buf +:+ rest) = false.
Proof.
  destruct buf as [|c buf]; [congruence|]. intros _.
  cbn [to_hex]. rewrite append_cons. apply is_blank_plain, hex_digit_plain.
Qed.

(** ** The file system *)

Lemma content_apply_event (t : Z) (ev : fs_event) (fs : gmap string file) :
  content <$> apply_event t ev fs = apply_content ev (content <$> fs).
Proof.
  destruct ev as [p|p d|src dst|src dst]; simpl.
  - rewrite fmap_insert. reflexivity.
  - rewrite fmap_insert, lookup_fmap. simpl.
    destruct (fs !! p); reflexivity.
  - rewrite lookup_fmap. destruct (fs !! src) as [f|]; simpl; [|reflexivity].
    rewrite fmap_insert. reflexivity.
  - rewrite lookup_fmap. destruct (fs !! src) as [f|]; simpl; [|reflexivity].
    rewrite fmap_insert, fmap_delete. reflexivity.
Qed.

(** What a file holds after [writeFileSync]. *)
Lemma written_content (p raw : string) (w : os) :
  files (os_event (EvWrite p raw) (os_event (EvTruncate p) w)) !! p =
  Some (File raw (now (os_event (EvTruncate p) w))).
Proof. simpl. rewrite lookup_insert_eq. simpl. rewrite lookup_insert_eq. reflexivity. Qed.

Lemma written_other (p raw q : string) (w : os) :
  q <> p ->
  files (os_event (EvWrite p raw) (os_event (EvTruncate p) w)) !! q =
  files w !! q.
Proof. intros Hq. simpl. rewrite !lookup_insert_ne by congruence. reflexivity. Qed.

Lemma writeFileSync_eq (p raw : string) (w : os) :
  writeFileSync p raw w =
  (Ok tt, os_event (EvWrite p raw) (os_event (EvTruncate p) w)).
Proof. reflexivity. Qed.

(** ** [Examples]: saving and loading *)

Section ExamplesFacts.
Context {crypto : Crypto} {json : JSON}.
Variable config : ConnectConfig.

(** [raw] is what a file holds for the text [text] under [config]. *)
Definition examples_holds (raw text : string) : Prop :=
  if is_encrypted (mode config) then Examples.decrypt config raw = Ok text
  else raw = text.

Lemma examples_encrypt_ok (data : string) (w : os) :
  exists ct,
    ct <> "" /\
    aes_256_cbc_decrypt (sha256 (encryptionKey config))
      (tape (entropy w) (drawn w) 16) ct = Ok data /\
    Examples.encrypt config data w =
    (Ok (to_hex (tape (entropy w) (drawn w) 16) +:+ ":" +:+ to_hex ct),
     os_drew 16 w).
Proof.
  destruct (aes_256_cbc_roundtrip (sha256 (encryptionKey config))
              (tape (entropy w) (drawn w) 16) data)
    as [ct [Henc [Hne Hdec]]];
    [apply sha256_length|apply tape_length|].
  exists ct. split; [exact Hne|]. split; [exact Hdec|].
  unfold Examples.encrypt, try_catch, bind, randomBytes, lift_outcome, ret.
  rewrite Henc. reflexivity.
Qed.

Lemma examples_decrypt_envelope (iv ct data : string) :
  iv <> "" -> ct <> "" ->
  aes_256_cbc_decrypt (sha256 (encryptionKey config)) iv ct = Ok data ->
  Examples.decrypt config (to_hex iv +:+ ":" +:+ to_hex ct) = Ok data.
Proof.
  intros Hiv Hct Hdec. unfold Examples.decrypt.
  rewrite split_envelope2, !from_hex_to_hex, Hdec.
  rewrite includes_char_append.
  change (":" +:+ to_hex ct) with (String ":" (to_hex ct)).
  cbn [includes_char]. rewrite Ascii.eqb_refl, orb_true_r. simpl.
  destruct (to_hex iv) eqn:Hi; [apply to_hex_empty in Hi; congruence|].
  destruct (to_hex ct) eqn:Hc; [apply to_hex_empty in Hc; congruence|].
  reflexivity.
Qed.

(** The world after [saveFile] wrote [raw]: the random bytes of the
    envelope are drawn first, an existing file is copied to its
    [.backup], and the file is written. *)
Definition examples_saved (c raw : string) (w : os) : os :=
  let p := Examples.filePath config c in
  let w0 := if is_encrypted (mode config) then os_drew 16 w else w in
  let w1 := match files w !! p with
            | Some _ => os_event (EvCopy p (p +:+ ".backup")) w0
            | None => w0
            end in
  os_event (EvWrite p raw) (os_event (EvTruncate p) w1).

Lemma examples_saveFile_eq (c : string) (data : list value) (w : os) :
  exists raw,
    examples_holds raw (JSON_stringify (VArr data)) /\
    is_blank raw = false /\
    Examples.saveFile config c data w = (Ok tt, examples_saved c raw w).
Proof.
  unfold Examples.saveFile, examples_saved, examples_holds.
  destruct (is_encrypted (mode config)) eqn:Hmode.
  - destruct (examples_encrypt_ok (JSON_stringify (VArr data)) w)
      as [ct [Hne [Hdec Henc]]].
    exists (to_hex (tape (entropy w) (drawn w) 16) +:+ ":" +:+ to_hex ct).
    assert (Hiv : tape (entropy w) (drawn w) 16 <> "").
    { intros H. apply (f_equal String.length) in H.
      rewrite tape_length in H. discriminate. }
    split; [apply examples_decrypt_envelope; assumption|].
    split; [apply is_blank_hex; exact Hiv|].
    unfold try_catch, bind. rewrite Henc.
    unfold existsSync, copyFileSync, run_event, ret. simpl.
    destruct (files w !! Examples.filePath config c) eqn:Hf; simpl.
    + rewrite Hf. simpl. rewrite lookup_insert_eq. reflexivity.
    + rewrite lookup_insert_eq. reflexivity.
  - exists (JSON_stringify (VArr data)).
    split; [reflexivity|]. split; [apply JSON_stringify_array_not_blank|].
    unfold try_catch, bind, existsSync, copyFileSync, run_event, ret. simpl.
    destruct (files w !! Examples.filePath config c) eqn:Hf; simpl.
    + rewrite Hf. simpl. rewrite lookup_insert_eq. reflexivity.
    + rewrite lookup_insert_eq. reflexivity.
Qed.

Lemma examples_saved_content (c raw : string) (w : os) :
  content <$> files (examples_saved c raw w) !! Examples.filePath config c =
  Some raw.
Proof. unfold examples_saved. rewrite written_content. reflexivity. Qed.

Lemma backup_path_ne (p : string) : p +:+ ".backup" <> p.
Proof. apply append_nonempty_ne. discriminate. Qed.

Lemma examples_saved_backup (c raw : string) (w : os) (old : file) :
  files w !! Examples.filePath config c = Some old ->
  content <$> files (examples_saved c raw w)
                !! (Examples.filePath config c +:+ ".backup") =
  Some (content old).
Proof.
  intros Hold. unfold examples_saved.
  rewrite written_other by apply backup_path_ne. rewrite Hold.
  destruct (is_encrypted (mode config)); simpl; rewrite Hold;
    rewrite lookup_insert_eq; reflexivity.
Qed.

Lemma examples_saved_journal (c raw : string) (w : os) :
  journal (examples_saved c raw w) =
  journal w ++
  match files w !! Examples.filePath config c with
  | Some _ => [EvCopy (Examples.filePath config c)
                 (Examples.filePath config c +:+ ".backup")]
  | None => []
  end ++
  [EvTruncate (Examples.filePath config c);
   EvWrite (Examples.filePath config c) raw].
Proof.
  unfold examples_saved.
  destruct (files w !! Examples.filePath config c),
    (is_encrypted (mode config)); simpl;
    rewrite <- ?app_assoc; reflexivity.
Qed.

Lemma examples_saved_other (c raw q : string) (w : os) :
  q <> Examples.filePath config c ->
  q <> Examples.filePath config c +:+ ".backup" ->
  files (examples_saved c raw w) !! q = files w !! q.
Proof.
  intros Hq Hb. unfold examples_saved. rewrite written_other by exact Hq.
  destruct (files w !! Examples.filePath config c) as [f|] eqn:Hf,
    (is_encrypted (mode config)); simpl; rewrite ?Hf;
    rewrite ?lookup_insert_ne by congruence; reflexivity.
Qed.

(** [loadFile] on a file that holds the text [text]. *)
Lemma examples_loadFile_present (c : string) (w : os) (f : file)
  (text : string) :
  files w !! Examples.filePath config c = Some f ->
  is_blank (content f) = false ->
  examples_holds (content f) text ->
  Examples.loadFile config c w =
  match JSON_parse text with
  | Ok (VArr items) => (Ok items, w)
  | Ok v => (Ok [v], w)
  | Throw _ =>
      match Examples.saveFile config c []
              (os_event (EvCopy (Examples.filePath config c)
                           (Examples.filePath config c +:+ ".backup." +:+
                            pretty (now w))) w) with
      | (_, w') => (Ok [], w')
      end
  end.
Proof.
  intros Hf Hblank Hholds.
  unfold Examples.loadFile, bind, try_catch, existsSync, readFileSync.
  rewrite Hf. simpl. rewrite Hf, Hblank. unfold examples_holds in Hholds.
  unfold lift_outcome, ret, Date_now, copyFileSync, run_event, throw.
  destruct (is_encrypted (mode config)); rewrite ?Hholds.
  - destruct (JSON_parse text) as [v|e].
    + destruct v; reflexivity.
    + rewrite Hf.
      destruct (Examples.saveFile config c [] _) as [[u|e'] w']; reflexivity.
  - subst text. destruct (JSON_parse (content f)) as [v|e].
    + destruct v; reflexivity.
    + rewrite Hf.
      destruct (Examples.saveFile config c [] _) as [[u|e'] w']; reflexivity.
Qed.

(** [loadFile] after [saveFile] gives the records back, in either mode. *)
Lemma examples_load_save (c : string) (R : list value) (w : os) :
  json_value (VArr R) ->
  exists w1,
    Examples.saveFile config c R w = (Ok tt, w1) /\
    Examples.loadFile config c w1 = (Ok R, w1).
Proof.
  intros HR.
  destruct (examples_saveFile_eq c R w) as [raw [Hholds [Hblank Hsave]]].
  exists (examples_saved c raw w). split; [exact Hsave|].
  pose proof (examples_saved_content c raw w) as Hc.
  destruct (files (examples_saved c raw w) !! Examples.filePath config c)
    as [f|] eqn:Hf; [|discriminate].
  simpl in Hc. injection Hc as Hc.
  rewrite (examples_loadFile_present c _ f (JSON_stringify (VArr R)) Hf);
    rewrite ?Hc; try assumption.
  rewrite (JSON_parse_stringify (VArr R) HR). reflexivity.
Qed.

(** The three ways in which [decrypt] refuses a text: no [:] in it, an
    empty field, and a cipher that throws (as it does on an IV that is not
    16 bytes long and on a wrong padding). *)
Lemma examples_decrypt_refuses (data : string) :
  data = "" \/ includes_char ":" data = false \/
  (exists ivHex encHex rest,
      split_on ":" data = ivHex :: encHex :: rest /\
      (ivHex = "" \/ encHex = "" \/
       exists e, aes_256_cbc_decrypt (sha256 (encryptionKey config))
                   (from_hex ivHex) (from_hex encHex) = Throw e)) ->
  Examples.decrypt config data = Throw JsError.
Proof.
  unfold Examples.decrypt. intros [->|[Hno|H]]; [reflexivity| |].
  - rewrite Hno, orb_true_r. reflexivity.
  - destruct H as [ivHex [encHex [rest [-> H]]]].
    destruct (String.eqb data "" || negb (includes_char ":" data));
      [reflexivity|].
    destruct H as [->|[->|[e He]]].
    + reflexivity.
    + rewrite orb_true_r. reflexivity.
    + rewrite He. destruct (String.eqb ivHex "" || String.eqb encHex "");
        reflexivity.
Qed.

(** C1, on the code. In encrypted mode a file that cannot be decrypted
    does not make [loadFile] fail: the error thrown at line 162 is caught
    at line 195, and the load answers the empty array, as it does for a
    collection that has no file, and leaves the file system as it was. *)
Theorem loadFile_hides_decryption_failure (c : string) (w : os) (f : file)
  (e : exn) :
  is_encrypted (mode config) = true ->
  files w !! Examples.filePath config c = Some f ->
  is_blank (content f) = false ->
  Examples.decrypt config (content f) = Throw e ->
  Examples.loadFile config c w = (Ok [], w).
Proof.
  intros Hmode Hf Hblank Hdec.
  unfold Examples.loadFile, bind, try_catch, existsSync, readFileSync.
  rewrite Hf. simpl. rewrite Hf, Hblank, Hmode.
  unfold lift_outcome. rewrite Hdec. reflexivity.
Qed.

Lemma recovery_path_ne (p t : string) :
  p +:+ ".backup." +:+ t <> p /\ p +:+ ".backup." +:+ t <> p +:+ ".backup".
Proof.
  split.
  - apply append_nonempty_ne. discriminate.
  - intros H. apply append_inj_l in H. discriminate.
Qed.

(** C6. When the text of a collection file is not JSON, [loadFile] copies
    the file to [<path>.backup.<timestamp>], writes the empty array to the
    collection file and returns the empty array. *)
Theorem loadFile_recovers_from_parse_failure (c : string) (w : os) (f : file)
  (text : string) (e : exn) :
  files w !! Examples.filePath config c = Some f ->
  is_blank (content f) = false ->
  examples_holds (content f) text ->
  JSON_parse text = Throw e ->
  exists raw w',
    Examples.loadFile config c w = (Ok [], w') /\
    content <$> files w' !! (Examples.filePath config c +:+ ".backup." +:+
                             pretty (now w)) = Some (content f) /\
    content <$> files w' !! Examples.filePath config c = Some raw /\
    examples_holds raw (JSON_stringify (VArr [])).
Proof.
  intros Hf Hblank Hholds Hparse.
  rewrite (examples_loadFile_present c w f text Hf Hblank Hholds), Hparse.
  set (bp := Examples.filePath config c +:+ ".backup." +:+ pretty (now w)).
  set (w1 := os_event (EvCopy (Examples.filePath config c) bp) w).
  destruct (examples_saveFile_eq c [] w1) as [raw [Hraw [_ Hsave]]].
  exists raw, (examples_saved c raw w1). rewrite Hsave.
  split; [reflexivity|]. split; [|split; [apply examples_saved_content|exact Hraw]].
  destruct (recovery_path_ne (Examples.filePath config c) (pretty (now w)))
    as [Hne1 Hne2].
  rewrite examples_saved_other by assumption.
  subst w1. simpl. rewrite Hf. rewrite lookup_insert_eq. reflexivity.
Qed.

(** [loadFile] never removes the collection file. *)
Lemma examples_loadFile_keeps_file (c : string) (w w0 : os) (f : file)
  (r : outcome (list value)) :
  files w !! Examples.filePath config c = Some f ->
  Examples.loadFile config c w = (r, w0) ->
  is_Some (files w0 !! Examples.filePath config c).
Proof.
  intros Hf Hload.
  assert (Hsaved : forall raw w', is_Some (files (examples_saved c raw w')
                                             !! Examples.filePath config c)).
  { intros raw w'. pose proof (examples_saved_content c raw w') as H.
    destruct (files (examples_saved c raw w') !! Examples.filePath config c);
      [eauto|discriminate]. }
  destruct (is_blank (content f)) eqn:Hblank.
  - revert Hload.
    unfold Examples.loadFile, bind, try_catch, existsSync, readFileSync.
    rewrite Hf. simpl. rewrite Hf, Hblank.
    destruct (examples_saveFile_eq c [] w) as [raw [_ [_ Hsave]]].
    rewrite Hsave. unfold ret. intros [= _ <-]. apply Hsaved.
  - destruct (if is_encrypted (mode config)
              then Examples.decrypt config (content f)
              else Ok (content f)) as [text|e] eqn:Hdecode.
    + assert (Hholds : examples_holds (content f) text).
      { unfold examples_holds.
        destruct (is_encrypted (mode config)); congruence. }
      rewrite (examples_loadFile_present c w f text Hf Hblank Hholds) in Hload.
      destruct (JSON_parse text) as [v|e].
      * assert (w0 = w) as -> by (destruct v; congruence). eauto.
      * destruct (examples_saveFile_eq c []
                    (os_event (EvCopy (Examples.filePath config c)
                       (Examples.filePath config c +:+ ".backup." +:+
                        pretty (now w))) w)) as [raw [_ [_ Hsave]]].
        rewrite Hsave in Hload. injection Hload as _ <-. apply Hsaved.
    + destruct (is_encrypted (mode config)) eqn:Hmode; [|discriminate].
      revert Hload.
      unfold Examples.loadFile, bind, try_catch, existsSync, readFileSync.
      rewrite Hf. simpl. rewrite Hf, Hblank, Hmode.
      unfold lift_outcome. rewrite Hdecode. intros [= _ <-]. eauto.
Qed.

(** The collection file of [c] was there in [w0], and [w1] is [w0] after
    these three events: the file copied to [<path>.backup], then
    truncated, then written. *)
Definition examples_backed_up (c : string) (w0 w1 : os) : Prop :=
  exists old raw,
    files w0 !! Examples.filePath config c = Some old /\
    journal w1 =
    journal w0 ++
    [EvCopy (Examples.filePath config c)
       (Examples.filePath config c +:+ ".backup");
     EvTruncate (Examples.filePath config c);
     EvWrite (Examples.filePath config c) raw] /\
    content <$> files w1 !! (Examples.filePath config c +:+ ".backup") =
    Some (content old) /\
    content <$> files w1 !! Examples.filePath config c = Some raw.

Lemma examples_saveFile_backed_up (c : string) (data : list value)
  (w0 : os) (old : file) :
  files w0 !! Examples.filePath config c = Some old ->
  exists w1, Examples.saveFile config c data w0 = (Ok tt, w1) /\
             examples_backed_up c w0 w1.
Proof.
  intros Hold.
  destruct (examples_saveFile_eq c data w0) as [raw [_ [_ Hsave]]].
  exists (examples_saved c raw w0). split; [exact Hsave|].
  exists old, raw. split; [exact Hold|].
  split; [rewrite examples_saved_journal, Hold; reflexivity|].
  split; [apply examples_saved_backup; exact Hold|].
  apply examples_saved_content.
Qed.

Variable auth : value.

Lemma examples_insert_inv (c : string) (record : value) (w w1 : os) :
  Examples.insert config auth c record w = (Ok tt, w1) ->
  exists data w0,
    Examples.loadFile config c w = (Ok data, w0) /\
    Examples.saveFile config c (data ++ [record]) w0 = (Ok tt, w1).
Proof.
  unfold Examples.insert, bind, lift_outcome, throw.
  destruct (Examples.checkPermission config auth "insert"); [|discriminate].
  destruct (Examples.validateCollectionName c); [|discriminate].
  destruct (negb (truthy record) || negb (typeof_object record));
    [discriminate|].
  destruct (Examples.loadFile config c w) as [[data|e] w0]; [|discriminate].
  intros H. exists data, w0. split; [reflexivity|].
  destruct (Examples.saveFile config c (data ++ [record]) w0) as [[[]|e] w'];
    congruence.
Qed.

Lemma examples_update_inv (c : string) (filter changes : value) (w w1 : os)
  (n : Z) :
  Examples.update config auth c filter changes w = (Ok n, w1) ->
  exists data w0 rows,
    Examples.loadFile config c w = (Ok data, w0) /\
    Examples.update_rows filter changes data = Ok (rows, n) /\
    Examples.saveFile config c rows w0 = (Ok tt, w1).
Proof.
  unfold Examples.update, bind, lift_outcome, throw, ret.
  destruct (Examples.checkPermission config auth "update"); [|discriminate].
  destruct (Examples.validateCollectionName c); [|discriminate].
  destruct (negb (truthy changes) || negb (typeof_object changes));
    [discriminate|].
  destruct (Examples.loadFile config c w) as [[data|e] w0]; [|discriminate].
  destruct (Examples.update_rows filter changes data) as [[rows m]|e]
    eqn:Hrows; [|discriminate].
  simpl.
  destruct (Examples.saveFile config c rows w0) as [[[]|e] w'] eqn:Hsave;
    [|discriminate].
  intros [= <- <-]. exists data, w0, rows. auto.
Qed.

Lemma examples_delete_inv (c : string) (filter : value) (w w1 : os) (n : Z) :
  Examples.delete config auth c filter w = (Ok n, w1) ->
  exists data w0 filtered,
    Examples.loadFile config c w = (Ok data, w0) /\
    filter_rows (fun row => outcome_map negb (Examples.matchFilter row filter))
      data = Ok filtered /\
    n = Z.of_nat (length data) - Z.of_nat (length filtered) /\
    Examples.saveFile config c filtered w0 = (Ok tt, w1).
Proof.
  unfold Examples.delete, bind, lift_outcome, throw, ret.
  destruct (Examples.checkPermission config auth "delete"); [|discriminate].
  destruct (Examples.validateCollectionName c); [|discriminate].
  destruct (Examples.loadFile config c w) as [[data|e] w0]; [|discriminate].
  destruct (filter_rows _ data) as [filtered|e] eqn:Hfilter; [|discriminate].
  destruct (Examples.saveFile config c filtered w0) as [[[]|e] w'] eqn:Hsave;
    [|discriminate].
  intros [= <- <-]. exists data, w0, filtered. auto.
Qed.

Lemma examples_backed_up_after (c : string) (data : list value)
  (w w0 w1 : os) (f : file) (r : outcome (list value)) :
  files w !! Examples.filePath config c = Some f ->
  Examples.loadFile config c w = (r, w0) ->
  Examples.saveFile config c data w0 = (Ok tt, w1) ->
  examples_backed_up c w0 w1.
Proof.
  intros Hf Hload Hsave.
  destruct (examples_loadFile_keeps_file c w w0 f r Hf Hload) as [old Hold].
  destruct (examples_saveFile_backed_up c data w0 old Hold) as [w1' [Hs Hb]].
  congruence.
Qed.

(** C10. When the collection file exists, [saveFile] copies it to
    [<path>.backup] before it writes the new content; so does every
    [insert], [update] and [delete] that succeeds, where the file copied
    is the one that [loadFile] left ([w0]). *)
Theorem saveFile_keeps_previous_version (c : string) (w : os) (old : file) :
  files w !! Examples.filePath config c = Some old ->
  (forall data, exists w1,
      Examples.saveFile config c data w = (Ok tt, w1) /\
      examples_backed_up c w w1) /\
  (forall record w1,
      Examples.insert config auth c record w = (Ok tt, w1) ->
      exists data w0, Examples.loadFile config c w = (Ok data, w0) /\
                      examples_backed_up c w0 w1) /\
  (forall filter changes n w1,
      Examples.update config auth c filter changes w = (Ok n, w1) ->
      exists data w0, Examples.loadFile config c w = (Ok data, w0) /\
                      examples_backed_up c w0 w1) /\
  (forall filter n w1,
      Examples.delete config auth c filter w = (Ok n, w1) ->
      exists data w0, Examples.loadFile config c w = (Ok data, w0) /\
                      examples_backed_up c w0 w1).
Proof.
  intros Hold. split; [|split; [|split]].
  - intros data. apply (examples_saveFile_backed_up c data w old Hold).
  - intros record w1 H.
    destruct (examples_insert_inv c record w w1 H) as [data [w0 [Hl Hs]]].
    exists data, w0. split; [exact Hl|].
    apply (examples_backed_up_after c _ w w0 w1 old _ Hold Hl Hs).
  - intros filter changes n w1 H.
    destruct (examples_update_inv c filter changes w w1 n H)
      as [data [w0 [rows [Hl [_ Hs]]]]].
    exists data, w0. split; [exact Hl|].
    apply (examples_backed_up_after c _ w w0 w1 old _ Hold Hl Hs).
  - intros filter n w1 H.
    destruct (examples_delete_inv c filter w w1 n H)
      as [data [w0 [filtered [Hl [_ [_ Hs]]]]]].
    exists data, w0. split; [exact Hl|].
    apply (examples_backed_up_after c _ w w0 w1 old _ Hold Hl Hs).
Qed.

Lemma filter_rows_all {A} (f : A -> outcome bool) (l : list A) :
  (forall x, f x = Ok true) -> filter_rows f l = Ok l.
Proof.
  intros Hf. induction l as [|x l IH]; simpl; [reflexivity|].
  rewrite Hf, IH. reflexivity.
Qed.

Lemma filter_rows_none {A} (f : A -> outcome bool) (l : list A) :
  (forall x, f x = Ok false) -> filter_rows f l = Ok [].
Proof.
  intros Hf. induction l as [|x l IH]; simpl; [reflexivity|].
  rewrite Hf, IH. reflexivity.
Qed.

Lemma map_rows_id {A} (l : list A) : map_rows (fun x => Ok x) l = Ok l.
Proof. induction l as [|x l IH]; simpl; [|rewrite IH]; reflexivity. Qed.

(** C9. The matcher accepts every record when the filter is missing or
    has no keys (in each of the three copies); [queryObject] without a
    filter and without a field list then returns what [loadFile] read, and
    [delete] with the filter [{}] counts every record and leaves a file
    from which [loadFile] reads the empty array. *)
Theorem empty_filter_matches_every_record (c : string) :
  (forall row,
      Examples.matchFilter row VUndef = Ok true /\
      Examples.matchFilter row (VObj []) = Ok true /\
      Basic.matchFilter row VUndef = Ok true /\
      Basic.matchFilter row (VObj []) = Ok true /\
      Engine.matchFilter row VUndef = Ok true /\
      Engine.matchFilter row (VObj []) = Ok true) /\
  (Examples.checkPermission config auth "query" = Ok tt ->
   Examples.validateCollectionName c = Ok tt ->
   forall w filter,
     filter = VUndef \/ filter = VObj [] ->
     Examples.queryObject config auth
       {| Examples.collection := c; Examples.filter := filter;
          Examples.fields := None |} w =
     Examples.loadFile config c w) /\
  (Examples.checkPermission config auth "delete" = Ok tt ->
   Examples.validateCollectionName c = Ok tt ->
   forall w data w0,
     Examples.loadFile config c w = (Ok data, w0) ->
     exists w1,
       Examples.delete config auth c (VObj []) w =
       (Ok (Z.of_nat (length data)), w1) /\
       Examples.loadFile config c w1 = (Ok [], w1)).
Proof.
  split; [intros row; repeat split; reflexivity|]. split.
  - intros Hperm Hname w filter Hfilter.
    unfold Examples.queryObject, bind, lift_outcome. simpl.
    rewrite Hperm, Hname.
    destruct (Examples.loadFile config c w) as [[data|e] w0]; [|reflexivity].
    rewrite filter_rows_all
      by (intros row; destruct Hfilter as [->| ->]; reflexivity).
    simpl. rewrite map_rows_id. reflexivity.
  - intros Hperm Hname w data w0 Hload.
    destruct (examples_load_save c [] w0 I) as [w1 [Hsave Hload1]].
    exists w1. split; [|exact Hload1].
    unfold Examples.delete, bind, lift_outcome, ret.
    rewrite Hperm, Hname, Hload.
    rewrite filter_rows_none by (intros row; reflexivity).
    rewrite Hsave. simpl. f_equal. f_equal. lia.
Qed.
End ExamplesFacts.

(** ** [Engine]: saving and loading *)

Lemma content_os_event (ev : fs_event) (w : os) :
  content <$> files (os_event ev w) = apply_content ev (content <$> files w).
Proof. apply content_apply_event. Qed.

Lemma map_get_set_eq {V} (m : list (string * V)) (k : string) (v : V) :
  map_get (map_set m k v) k = Some v.
Proof.
  induction m as [|[k' v'] m IH]; simpl.
  - rewrite String.eqb_refl. reflexivity.
  - destruct (String.eqb_spec k' k) as [->|Hne]; simpl.
    + rewrite String.eqb_refl. reflexivity.
    + destruct (String.eqb_spec k' k); [contradiction|]. exact IH.
Qed.

Lemma map_set_not_nil {V} (m : list (string * V)) (k : string) (v : V) :
  map_set m k v <> [].
Proof. destruct m as [|[k' v'] m]; simpl; [|destruct (String.eqb k' k)]; discriminate. Qed.

Tactic Notation "engine_step" :=
  cbn [Engine.world Engine.cache Engine.activeTransactions].
Tactic Notation "engine_step" "in" hyp(H) :=
  cbn [Engine.world Engine.cache Engine.activeTransactions] in H.

Section EngineFacts.
Context {crypto : Crypto} {json : JSON}.
Variable config : Engine.ConnectConfig.

(** [raw] is what [saveFile] writes for the text [text] when the random
    tape stands as in [w]: the text itself, or the envelope of the salt
    and the IV drawn from the tape and the ciphertext under the derived
    key. *)
Definition engine_written (w : os) (text raw : string) : Prop :=
  if is_encrypted (Engine.mode config) then
    let salt := tape (entropy w) (drawn w) 16 in
    let iv := tape (entropy w) (drawn w + 16) 16 in
    let key := Engine.deriveKey (Engine.encryptionKey config) salt in
    exists ct,
      aes_256_cbc_encrypt key iv text = Ok ct /\ ct <> "" /\
      aes_256_cbc_decrypt key iv ct = Ok text /\
      raw = to_hex salt +:+ ":" +:+ to_hex iv +:+ ":" +:+ to_hex ct
  else raw = text.

(** [raw] is what a file holds for the text [text]. *)
Definition engine_holds (raw text : string) : Prop :=
  if is_encrypted (Engine.mode config) then Engine.decrypt config raw = Ok text
  else raw = text.

Lemma tape_not_empty (e : nat -> ascii) (from : nat) : tape e from 16 <> "".
Proof.
  intros H. apply (f_equal String.length) in H.
  rewrite tape_length in H. discriminate.
Qed.

Lemma engine_encrypt_ok (data : string) (w : os) :
  let salt := tape (entropy w) (drawn w) 16 in
  let iv := tape (entropy w) (drawn w + 16) 16 in
  let key := Engine.deriveKey (Engine.encryptionKey config) salt in
  exists ct,
    aes_256_cbc_encrypt key iv data = Ok ct /\ ct <> "" /\
    aes_256_cbc_decrypt key iv ct = Ok data /\
    Engine.encrypt config data w =
    (Ok (to_hex salt +:+ ":" +:+ to_hex iv +:+ ":" +:+ to_hex ct),
     os_drew 16 (os_drew 16 w)).
Proof.
  intros salt iv key.
  destruct (aes_256_cbc_roundtrip key iv data) as [ct [Henc [Hne Hdec]]];
    [apply pbkdf2Sync_length|apply tape_length|].
  exists ct. split; [exact Henc|]. split; [exact Hne|]. split; [exact Hdec|].
  unfold Engine.encrypt, try_catch, bind, randomBytes, lift_outcome, ret.
  cbn [os_drew drawn entropy]. subst salt iv key. rewrite Henc. reflexivity.
Qed.

Lemma engine_decrypt_envelope (salt iv ct data : string) :
  salt <> "" -> iv <> "" -> ct <> "" ->
  aes_256_cbc_decrypt (Engine.deriveKey (Engine.encryptionKey config) salt)
    iv ct = Ok data ->
  Engine.decrypt config
    (to_hex salt +:+ ":" +:+ to_hex iv +:+ ":" +:+ to_hex ct) = Ok data.
Proof.
  intros Hsalt Hiv Hct Hdec. unfold Engine.decrypt.
  rewrite split_envelope3, !from_hex_to_hex, Hdec.
  destruct (to_hex salt) eqn:Hs; [apply to_hex_empty in Hs; congruence|].
  destruct (to_hex iv) eqn:Hi; [apply to_hex_empty in Hi; congruence|].
  destruct (to_hex ct) eqn:Hc; [apply to_hex_empty in Hc; congruence|].
  reflexivity.
Qed.

Lemma engine_written_holds (w : os) (text raw : string) :
  is_blank text = false ->
  engine_written w text raw -> engine_holds raw text /\ is_blank raw = false.
Proof.
  unfold engine_written, engine_holds. intros Htext.
  destruct (is_encrypted (Engine.mode config)).
  - intros [ct [_ [Hne [Hdec ->]]]]. split.
    + apply engine_decrypt_envelope; auto using tape_not_empty.
    + apply is_blank_hex, tape_not_empty.
  - intros ->. split; [reflexivity|exact Htext].
Qed.

(** The world after [saveFile] wrote [raw] for the collection file
    [path]: the random bytes of the envelope are drawn, the temporary file
    is written, and it is renamed onto the collection file. *)
Definition engine_saved_world (path raw : string) (w : os) : os :=
  let w0 := if is_encrypted (Engine.mode config)
            then os_drew 16 (os_drew 16 w) else w in
  os_event (EvRename (path +:+ ".tmp") path)
    (os_event (EvWrite (path +:+ ".tmp") raw)
       (os_event (EvTruncate (path +:+ ".tmp")) w0)).

(** [updateCache] throws when the cache is at its limit and holds
    nothing to evict, which a negative [maxCacheSize] brings about. *)
Definition cache_stuck (cache : list (string * Engine.CacheEntry)) : bool :=
  (Engine.cache_limit config <=? Z.of_nat (length cache)) &&
  match cache with [] => true | _ => false end.

Definition cache_updated (c : string) (data : list value) (lm t : Z)
  (cache : list (string * Engine.CacheEntry))
  : list (string * Engine.CacheEntry) :=
  map_set
    (if Engine.cache_limit config <=? Z.of_nat (length cache)
     then match cache with
          | [] => cache
          | e :: entries => map_delete cache (Engine.oldest_from e entries)
          end
     else cache)
    c {| Engine.data := data; Engine.lastModified := lm;
         Engine.accessCount := 1; Engine.lastAccessed := t |}.

Lemma engine_updateCache_eq (c : string) (data : list value) (lm : Z)
  (s : Engine.state) :
  Engine.updateCache config c data lm s =
  if cache_stuck (Engine.cache s) then (Throw JsError, s)
  else (Ok tt,
        {| Engine.world := Engine.world s;
           Engine.cache := cache_updated c data lm (now (Engine.world s))
                             (Engine.cache s);
           Engine.activeTransactions := Engine.activeTransactions s |}).
Proof.
  unfold Engine.updateCache, cache_stuck, cache_updated, bind, get_state.
  destruct s as [w cache txs]. simpl.
  destruct (Engine.cache_limit config <=? Z.of_nat (length cache)); simpl.
  - destruct cache as [|e entries]; reflexivity.
  - reflexivity.
Qed.

Lemma tmp_path_ne (path : string) : path +:+ ".tmp" <> path.
Proof. apply append_nonempty_ne. discriminate. Qed.

Lemma engine_saved_content (path raw : string) (w : os) :
  files (engine_saved_world path raw w) !! path =
  Some (File raw (now (os_event (EvTruncate (path +:+ ".tmp"))
                         (if is_encrypted (Engine.mode config)
                          then os_drew 16 (os_drew 16 w) else w)))).
Proof.
  unfold engine_saved_world. unfold os_event at 1. cbn [files apply_event].
  rewrite written_content, lookup_insert_eq. reflexivity.
Qed.

Lemma engine_saveFile_eq (c : string) (data : list value) (s : Engine.state)
  (path : string) :
  Engine.getCollectionPath config c = Ok path ->
  exists raw,
    engine_written (Engine.world s) (JSON_stringify (VArr data)) raw /\
    Engine.saveFile config c data s =
    let w1 := engine_saved_world path raw (Engine.world s) in
    if cache_stuck (Engine.cache s)
    then (Throw (TextDBXError "FILE_WRITE_ERROR"),
          {| Engine.world := w1; Engine.cache := Engine.cache s;
             Engine.activeTransactions := Engine.activeTransactions s |})
    else (Ok tt,
          {| Engine.world := w1;
             Engine.cache := cache_updated c data (now w1) (now w1)
                               (Engine.cache s);
             Engine.activeTransactions := Engine.activeTransactions s |}).
Proof.
  intros Hpath.
  assert (Hrename : forall raw w0,
    rename (path +:+ ".tmp") path
      (os_event (EvWrite (path +:+ ".tmp") raw)
         (os_event (EvTruncate (path +:+ ".tmp")) w0)) =
    (Ok tt, os_event (EvRename (path +:+ ".tmp") path)
              (os_event (EvWrite (path +:+ ".tmp") raw)
                 (os_event (EvTruncate (path +:+ ".tmp")) w0)))).
  { intros raw w0. unfold rename. rewrite written_content. reflexivity. }
  unfold Engine.saveFile, Engine.withFileLock, engine_written,
    engine_saved_world.
  unfold bind at 1. unfold lift_outcome at 1. rewrite Hpath.
  destruct s as [w cache txs]. cbn [Engine.world Engine.cache
    Engine.activeTransactions].
  destruct (is_encrypted (Engine.mode config)) eqn:Hmode.
  - destruct (engine_encrypt_ok (JSON_stringify (VArr data)) w)
      as [ct [Henc [Hne [Hdec Heq]]]].
    eexists. split; [exists ct; repeat split; eassumption|].
    unfold try_catch, bind, Engine.lift_os. engine_step.
    rewrite Heq. engine_step. rewrite writeFileSync_eq. engine_step.
    rewrite Hrename. engine_step.
    unfold Date_now. engine_step. rewrite engine_updateCache_eq. engine_step.
    destruct (cache_stuck cache); reflexivity.
  - eexists. split; [reflexivity|].
    unfold try_catch, bind, Engine.lift_os, ret. engine_step.
    rewrite writeFileSync_eq. engine_step. rewrite Hrename. engine_step.
    unfold Date_now. engine_step. rewrite engine_updateCache_eq. engine_step.
    destruct (cache_stuck cache); reflexivity.
Qed.

(** The three events of a save. *)
Definition save_events (path raw : string) : list fs_event :=
  [EvTruncate (path +:+ ".tmp"); EvWrite (path +:+ ".tmp") raw;
   EvRename (path +:+ ".tmp") path].

Lemma engine_saved_journal (path raw : string) (w : os) :
  journal (engine_saved_world path raw w) =
  journal w ++ save_events path raw.
Proof.
  unfold engine_saved_world, save_events.
  destruct (is_encrypted (Engine.mode config)); simpl;
    rewrite <- !app_assoc; reflexivity.
Qed.

Lemma engine_saved_contents (path raw : string) (w : os) :
  content <$> files (engine_saved_world path raw w) =
  fold_left (fun fs ev => apply_content ev fs) (save_events path raw)
    (content <$> files w).
Proof.
  unfold engine_saved_world, save_events. rewrite !content_os_event.
  destruct (is_encrypted (Engine.mode config)); reflexivity.
Qed.

(** While the three events happen, a reader of [path] finds what was
    there before or the whole of [raw]. *)
Lemma save_events_atomic (path raw : string) (fs : gmap string string) :
  Forall (fun fs' => fs' !! path = fs !! path \/ fs' !! path = Some raw)
    (states_after fs (save_events path raw)) /\
  fold_left (fun fs ev => apply_content ev fs) (save_events path raw) fs
    !! path = Some raw /\
  fold_left (fun fs ev => apply_content ev fs) (save_events path raw) fs
    !! (path +:+ ".tmp") = None.
Proof.
  pose proof (tmp_path_ne path) as Hne.
  assert (Htmp :
    apply_content (EvWrite (path +:+ ".tmp") raw)
      (apply_content (EvTruncate (path +:+ ".tmp")) fs) !! (path +:+ ".tmp") =
    Some raw).
  { simpl. rewrite lookup_insert_eq. simpl. rewrite lookup_insert_eq.
    reflexivity. }
  split; [|split].
  - unfold save_events. cbn [states_after].
    repeat apply List.Forall_cons; [| | |apply List.Forall_nil].
    + left. simpl. rewrite lookup_insert_ne by congruence. reflexivity.
    + left. simpl. rewrite !lookup_insert_ne by congruence. reflexivity.
    + right. cbn [apply_content] in Htmp |- *. rewrite Htmp.
      rewrite lookup_insert_eq. reflexivity.
  - unfold save_events. cbn [fold_left].
    cbn [apply_content] in Htmp |- *. rewrite Htmp.
    rewrite lookup_insert_eq. reflexivity.
  - unfold save_events. cbn [fold_left].
    cbn [apply_content] in Htmp |- *. rewrite Htmp.
    rewrite lookup_insert_ne by congruence. apply lookup_delete_eq.
Qed.

(** C2. [saveFile] serialises the records with [JSON.stringify(_, null,
    2)], encrypts the text in encrypted mode, writes the result to
    [<path>.tmp] and renames that file onto [<path>]: in every state of
    the file system on the way, [<path>] holds what it held before or the
    whole new content. *)
Theorem saveFile_writes_temp_then_renames (c : string) (data : list value)
  (s : Engine.state) (path : string) :
  Engine.getCollectionPath config c = Ok path ->
  exists raw r s',
    Engine.saveFile config c data s = (r, s') /\
    engine_written (Engine.world s) (JSON_stringify (VArr data)) raw /\
    journal (Engine.world s') =
    journal (Engine.world s) ++ save_events path raw /\
    content <$> files (Engine.world s') =
    fold_left (fun fs ev => apply_content ev fs) (save_events path raw)
      (content <$> files (Engine.world s)) /\
    Forall (fun fs' =>
              fs' !! path = (content <$> files (Engine.world s)) !! path \/
              fs' !! path = Some raw)
      (states_after (content <$> files (Engine.world s))
         (save_events path raw)) /\
    (content <$> files (Engine.world s')) !! path = Some raw /\
    (content <$> files (Engine.world s')) !! (path +:+ ".tmp") = None /\
    (cache_stuck (Engine.cache s) = false -> r = Ok tt).
Proof.
  intros Hpath.
  destruct (engine_saveFile_eq c data s path Hpath) as [raw [Hraw Hsave]].
  destruct (save_events_atomic path raw (content <$> files (Engine.world s)))
    as [Hatomic [Hfinal Htmp]].
  exists raw.
  destruct (cache_stuck (Engine.cache s)); cbv zeta in Hsave;
    eexists; eexists; (split; [exact Hsave|]); engine_step;
    rewrite engine_saved_journal, engine_saved_contents;
    repeat split; try assumption; try reflexivity; discriminate.
Qed.

(** C3. In encrypted mode [saveFile] leaves in the collection file three
    hexadecimal fields joined by [:]: a salt of 16 bytes and an IV of 16
    bytes, both read from the random tape during this save (which moves
    on by 32 bytes), and the AES-256-CBC ciphertext of the JSON text under
    the 32-byte key that PBKDF2-HMAC-SHA256 derives from the passphrase
    and that salt in 100 000 iterations. *)
Theorem encrypted_save_writes_salted_envelope (c : string)
  (data : list value) (s : Engine.state) (path : string) :
  is_encrypted (Engine.mode config) = true ->
  Engine.getCollectionPath config c = Ok path ->
  let salt := tape (entropy (Engine.world s)) (drawn (Engine.world s)) 16 in
  let iv :=
    tape (entropy (Engine.world s)) (drawn (Engine.world s) + 16) 16 in
  let key :=
    pbkdf2Sync (Engine.encryptionKey config) salt 100000%N 32 "sha256" in
  exists ct r s',
    Engine.saveFile config c data s = (r, s') /\
    aes_256_cbc_encrypt key iv (JSON_stringify (VArr data)) = Ok ct /\
    (content <$> files (Engine.world s')) !! path =
    Some (to_hex salt +:+ ":" +:+ to_hex iv +:+ ":" +:+ to_hex ct) /\
    split_on ":" (to_hex salt +:+ ":" +:+ to_hex iv +:+ ":" +:+ to_hex ct) =
    [to_hex salt; to_hex iv; to_hex ct] /\
    from_hex (to_hex salt) = salt /\ from_hex (to_hex iv) = iv /\
    from_hex (to_hex ct) = ct /\
    String.length salt = 16%nat /\ String.length iv = 16%nat /\
    String.length key = 32%nat /\
    drawn (Engine.world s') = (drawn (Engine.world s) + 32)%nat.
Proof.
  intros Hmode Hpath salt iv key.
  destruct (engine_saveFile_eq c data s path Hpath) as [raw [Hraw Hsave]].
  unfold engine_written in Hraw. rewrite Hmode in Hraw.
  destruct Hraw as [ct [Henc [_ [_ ->]]]].
  exists ct.
  assert (Hdrawn : forall raw,
    drawn (engine_saved_world path raw (Engine.world s)) =
    (drawn (Engine.world s) + 32)%nat).
  { intros raw. unfold engine_saved_world. rewrite Hmode. simpl. lia. }
  destruct (cache_stuck (Engine.cache s)); cbv zeta in Hsave;
    eexists; eexists; (split; [exact Hsave|]); engine_step;
    rewrite lookup_fmap, engine_saved_content, Hdrawn;
    repeat split; try reflexivity; try exact Henc;
    try apply split_envelope3; try apply from_hex_to_hex;
    try apply tape_length; apply pbkdf2Sync_length.
Qed.

(** The cache entry of [c], if any, is not older than the file [f]. *)
Definition cache_valid (c : string) (f : file)
  (cache : list (string * Engine.CacheEntry)) : bool :=
  match map_get cache c with
  | Some entry => mtime f <=? Engine.lastModified entry
  | None => false
  end.

Lemma engine_loadFile_hit (c : string) (s : Engine.state) (path : string)
  (f : file) (entry : Engine.CacheEntry) :
  Engine.getCollectionPath config c = Ok path ->
  files (Engine.world s) !! path = Some f ->
  map_get (Engine.cache s) c = Some entry ->
  mtime f <= Engine.lastModified entry ->
  Engine.loadFile config c s =
  (Ok (Engine.data entry),
   {| Engine.world := Engine.world s;
      Engine.cache :=
        map_set (Engine.cache s) c
          {| Engine.data := Engine.data entry;
             Engine.lastModified := Engine.lastModified entry;
             Engine.accessCount := Engine.accessCount entry + 1;
             Engine.lastAccessed := now (Engine.world s) |};
      Engine.activeTransactions := Engine.activeTransactions s |}).
Proof.
  intros Hpath Hf Hentry Hfresh. destruct s as [w cache txs].
  engine_step in Hf. engine_step in Hentry.
  unfold Engine.loadFile, bind at 1, get_state. engine_step. rewrite Hentry.
  unfold bind at 1, lift_outcome at 1. rewrite Hpath.
  unfold try_catch, bind, Engine.lift_os, existsSync, stat_mtime, Date_now,
    get_state, Engine.set_cache, ret. engine_step. rewrite Hf. engine_step.
  cbn [negb]. engine_step. rewrite Hf. engine_step.
  apply Z.leb_le in Hfresh. rewrite Hfresh. reflexivity.
Qed.

Lemma engine_loadFile_miss (c : string) (s : Engine.state) (path : string)
  (f : file) (text : string) (items : list value) :
  Engine.getCollectionPath config c = Ok path ->
  files (Engine.world s) !! path = Some f ->
  cache_valid c f (Engine.cache s) = false ->
  engine_holds (content f) text ->
  JSON_parse text = Ok (VArr items) ->
  cache_stuck (Engine.cache s) = false ->
  Engine.loadFile config c s =
  (Ok items,
   {| Engine.world := Engine.world s;
      Engine.cache := cache_updated c items (mtime f) (now (Engine.world s))
                        (Engine.cache s);
      Engine.activeTransactions := Engine.activeTransactions s |}).
Proof.
  intros Hpath Hf Hstale Hholds Hparse Hroom. destruct s as [w cache txs].
  engine_step in Hf. engine_step in Hstale. engine_step in Hroom.
  unfold Engine.loadFile, bind at 1, get_state. engine_step.
  unfold bind at 1, lift_outcome at 1. rewrite Hpath.
  unfold try_catch, bind, Engine.lift_os, existsSync, stat_mtime,
    readFileSync, lift_outcome, ret, throw.
  engine_step. rewrite Hf. engine_step. cbn [negb]. engine_step.
  rewrite Hf. engine_step.
  unfold cache_valid in Hstale. unfold engine_holds in Hholds.
  destruct (map_get cache c) as [entry|]; rewrite ?Hstale; engine_step;
    rewrite Hf; engine_step;
    destruct (is_encrypted (Engine.mode config)); rewrite Hholds;
    engine_step; rewrite Hparse; engine_step;
    rewrite engine_updateCache_eq; engine_step; rewrite Hroom; reflexivity.
Qed.

Lemma cache_never_stuck (cache : list (string * Engine.CacheEntry)) :
  0 <= Engine.maxCacheSize config -> cache_stuck cache = false.
Proof.
  intros Hmax. unfold cache_stuck, Engine.cache_limit.
  destruct cache; [|apply andb_false_r]. simpl.
  destruct (Engine.maxCacheSize config =? 0) eqn:H0; [reflexivity|].
  apply Z.eqb_neq in H0. rewrite andb_true_r. apply Z.leb_gt. lia.
Qed.

Lemma cache_updated_not_stuck (c : string) (data : list value) (lm t : Z)
  (cache : list (string * Engine.CacheEntry)) :
  cache_stuck (cache_updated c data lm t cache) = false.
Proof.
  unfold cache_stuck.
  destruct (cache_updated c data lm t cache) eqn:H;
    [apply map_set_not_nil in H; contradiction|apply andb_false_r].
Qed.

(** [loadFile] on a file that [saveFile] wrote, whatever the cache
    holds. *)
Lemma engine_load_written (c : string) (R : list value) (path raw : string)
  (w : os) (s : Engine.state) (f : file) :
  json_value (VArr R) ->
  Engine.getCollectionPath config c = Ok path ->
  engine_written w (JSON_stringify (VArr R)) raw ->
  files (Engine.world s) !! path = Some f -> content f = raw ->
  (forall entry, map_get (Engine.cache s) c = Some entry ->
                 mtime f <= Engine.lastModified entry ->
                 Engine.data entry = R) ->
  cache_stuck (Engine.cache s) = false ->
  exists s', Engine.loadFile config c s = (Ok R, s').
Proof.
  intros HR Hpath Hraw Hf Hc Hcached Hroom.
  destruct (cache_valid c f (Engine.cache s)) eqn:Hvalid.
  - unfold cache_valid in Hvalid.
    destruct (map_get (Engine.cache s) c) as [entry|] eqn:Hentry;
      [|discriminate].
    apply Z.leb_le in Hvalid.
    rewrite (engine_loadFile_hit c s path f entry Hpath Hf Hentry Hvalid).
    rewrite (Hcached entry eq_refl Hvalid). eauto.
  - destruct (engine_written_holds w _ raw
                (JSON_stringify_array_not_blank R) Hraw) as [Hholds _].
    rewrite <- Hc in Hholds.
    rewrite (engine_loadFile_miss c s path f _ R Hpath Hf Hvalid Hholds
               (JSON_parse_stringify _ HR) Hroom).
    eauto.
Qed.

(** [loadFile] after [saveFile] gives the records back: from the cache,
    from the file when the cache entry is taken for stale, and from the
    file in an engine that starts with an empty cache. *)
Lemma engine_load_save (c : string) (R : list value) (s : Engine.state)
  (path : string) :
  json_value (VArr R) ->
  Engine.getCollectionPath config c = Ok path ->
  0 <= Engine.maxCacheSize config ->
  exists s1 s2 s3,
    Engine.saveFile config c R s = (Ok tt, s1) /\
    Engine.loadFile config c s1 = (Ok R, s2) /\
    Engine.loadFile config c
      {| Engine.world := Engine.world s1; Engine.cache := [];
         Engine.activeTransactions := [] |} = (Ok R, s3).
Proof.
  intros HR Hpath Hmax.
  destruct (engine_saveFile_eq c R s path Hpath) as [raw [Hraw Hsave]].
  rewrite (cache_never_stuck _ Hmax) in Hsave. cbv zeta in Hsave.
  pose proof (engine_saved_content path raw (Engine.world s)) as Hf.
  match type of Hsave with _ = (_, ?s1) =>
    destruct (engine_load_written c R path raw (Engine.world s) s1 _ HR Hpath
                Hraw Hf eq_refl) as [s2 Hs2];
    [| |destruct (engine_load_written c R path raw (Engine.world s)
                   {| Engine.world := Engine.world s1; Engine.cache := [];
                      Engine.activeTransactions := [] |} _ HR Hpath Hraw Hf
                   eq_refl) as [s3 Hs3];
        [| |exists s1, s2, s3; auto]]
  end.
  - engine_step. unfold cache_updated. intros entry He _.
    rewrite map_get_set_eq in He. injection He as <-. reflexivity.
  - apply cache_updated_not_stuck.
  - engine_step. discriminate.
  - apply cache_never_stuck, Hmax.
Qed.

(** ** [Engine]: transactions *)

Lemma engine_updateCache_frame (c : string) (data : list value) (lm : Z)
  (s s' : Engine.state) (r : outcome unit) :
  Engine.updateCache config c data lm s = (r, s') ->
  Engine.world s' = Engine.world s /\
  Engine.activeTransactions s' = Engine.activeTransactions s.
Proof.
  rewrite engine_updateCache_eq.
  destruct (cache_stuck (Engine.cache s)); intros [= _ <-]; auto.
Qed.

(** A computation that leaves the world and the transactions as they
    are. *)
Definition keeps_world {A} (m : M Engine.state A) : Prop :=
  forall s r s', m s = (r, s') ->
    Engine.world s' = Engine.world s /\
    Engine.activeTransactions s' = Engine.activeTransactions s.

Lemma keeps_ret {A} (a : A) : keeps_world (ret a).
Proof. intros s r s' [= _ <-]. auto. Qed.

Lemma keeps_throw {A} (e : exn) : keeps_world (@throw Engine.state A e).
Proof. intros s r s' [= _ <-]. auto. Qed.

Lemma keeps_lift_outcome {A} (o : outcome A) :
  keeps_world (@lift_outcome Engine.state A o).
Proof. intros s r s' [= _ <-]. auto. Qed.

Lemma keeps_get_state : keeps_world (@get_state Engine.state).
Proof. intros s r s' [= _ <-]. auto. Qed.

Lemma keeps_set_cache (cache : list (string * Engine.CacheEntry)) :
  keeps_world (Engine.set_cache cache).
Proof. intros s r s' [= _ <-]. auto. Qed.

Lemma keeps_bind {A B} (m : M Engine.state A) (k : A -> M Engine.state B) :
  keeps_world m -> (forall a, keeps_world (k a)) -> keeps_world (bind m k).
Proof.
  intros Hm Hk s r s'. unfold bind.
  destruct (m s) as [[a|e] s1] eqn:Hms.
  - intros Hks. destruct (Hm _ _ _ Hms) as [H1 H2].
    destruct (Hk a _ _ _ Hks) as [H3 H4]. split; congruence.
  - intros [= _ <-]. apply (Hm _ _ _ Hms).
Qed.

Lemma keeps_try_catch {A} (m : M Engine.state A)
  (h : exn -> M Engine.state A) :
  keeps_world m -> (forall e, keeps_world (h e)) ->
  keeps_world (try_catch m h).
Proof.
  intros Hm Hh s r s'. unfold try_catch.
  destruct (m s) as [[a|e] s1] eqn:Hms.
  - intros [= _ <-]. apply (Hm _ _ _ Hms).
  - intros Hhs. destruct (Hm _ _ _ Hms) as [H1 H2].
    destruct (Hh e _ _ _ Hhs) as [H3 H4]. split; congruence.
Qed.

Lemma keeps_lift_os {A} (m : M os A) :
  (forall w r w', m w = (r, w') -> w' = w) -> keeps_world (Engine.lift_os m).
Proof.
  intros Hm s r s'. unfold Engine.lift_os.
  destruct (m (Engine.world s)) as [r0 w'] eqn:Hmw.
  intros [= _ <-]. rewrite (Hm _ _ _ Hmw). auto.
Qed.

Lemma keeps_updateCache (c : string) (data : list value) (lm : Z) :
  keeps_world (Engine.updateCache config c data lm).
Proof. intros s r s'. apply engine_updateCache_frame. Qed.

Lemma existsSync_pure (p : string) :
  forall w r w', existsSync p w = (r, w') -> w' = w.
Proof. intros w r w' [= _ <-]. reflexivity. Qed.

Lemma stat_mtime_pure (p : string) :
  forall w r w', stat_mtime p w = (r, w') -> w' = w.
Proof.
  intros w r w'. unfold stat_mtime.
  destruct (files w !! p); intros [= _ <-]; reflexivity.
Qed.

Lemma readFileSync_pure (p : string) :
  forall w r w', readFileSync p w = (r, w') -> w' = w.
Proof.
  intros w r w'. unfold readFileSync.
  destruct (files w !! p); intros [= _ <-]; reflexivity.
Qed.

Lemma Date_now_pure : forall w r w', Date_now w = (r, w') -> w' = w.
Proof. intros w r w' [= _ <-]. reflexivity. Qed.

(** [loadFile] changes the cache only. *)
Lemma engine_loadFile_frame (c : string) : keeps_world (Engine.loadFile config c).
Proof.
  unfold Engine.loadFile.
  apply keeps_bind; [apply keeps_get_state|intros s0].
  apply keeps_bind; [apply keeps_lift_outcome|intros path].
  apply keeps_try_catch; [|intros e; apply keeps_throw].
  apply keeps_bind; [apply keeps_lift_os, existsSync_pure|intros present].
  destruct (negb present); [apply keeps_ret|].
  apply keeps_bind; [apply keeps_lift_os, stat_mtime_pure|intros mt].
  assert (Hfrom_file : keeps_world
    (bind (Engine.lift_os (readFileSync path))
       (fun raw =>
          bind (if is_encrypted (Engine.mode config)
                then lift_outcome (Engine.decrypt config raw) else ret raw)
            (fun text =>
               bind (try_catch (lift_outcome (JSON_parse text))
                       (fun _ => throw (TextDBXError "DATA_CORRUPTION_ERROR")))
                 (fun parsed =>
                    match parsed with
                    | VArr items =>
                        bind (Engine.updateCache config c items mt)
                          (fun _ => ret items)
                    | _ => throw (TextDBXError "DATA_FORMAT_ERROR")
                    end))))).
  { apply keeps_bind; [apply keeps_lift_os, readFileSync_pure|intros raw].
    apply keeps_bind;
      [destruct (is_encrypted (Engine.mode config));
       [apply keeps_lift_outcome|apply keeps_ret]|intros text].
    apply keeps_bind;
      [apply keeps_try_catch;
       [apply keeps_lift_outcome|intros e; apply keeps_throw]|intros parsed].
    destruct parsed; try apply keeps_throw.
    apply keeps_bind; [apply keeps_updateCache|intros _; apply keeps_ret]. }
  destruct (map_get (Engine.cache s0) c) as [entry|]; [|exact Hfrom_file].
  destruct (mt <=? Engine.lastModified entry); [|exact Hfrom_file].
  apply keeps_bind; [apply keeps_lift_os, Date_now_pure|intros t].
  apply keeps_bind; [apply keeps_get_state|intros s1].
  apply keeps_bind; [apply keeps_set_cache|intros _; apply keeps_ret].
Qed.

Variable auth : value.

(** C5, on the code. A transaction is begun, a record is inserted and the
    transaction is rolled back: [insert] wrote the record at once, the
    transaction holds no snapshot, and [rollbackTransaction] changes no
    file and no cache entry. The collection keeps the inserted record
    instead of returning to what [loadFile] gave before the insert. *)
Theorem rolled_back_insert_stays (c : string) (record : value)
  (s : Engine.state) (path : string) :
  Engine.checkPermission config auth "insert" = Ok tt ->
  Engine.getCollectionPath config c = Ok path ->
  0 <= Engine.maxCacheSize config ->
  let tx := uuid_v4 (tape (entropy (Engine.world s))
                       (drawn (Engine.world s)) 16) in
  exists s1,
    Engine.beginTransaction s = (Ok tx, s1) /\
    forall data s1',
      Engine.loadFile config c s1 = (Ok data, s1') ->
      exists raw s2 s3,
        Engine.insert config auth c record s1 = (Ok tt, s2) /\
        content <$> (files (Engine.world s2) !! path) = Some raw /\
        engine_holds raw (JSON_stringify (VArr (data ++ [record]))) /\
        Engine.rollbackTransaction config tx s2 = (Ok tt, s3) /\
        Engine.world s3 = Engine.world s2 /\
        Engine.cache s3 = Engine.cache s2 /\
        Engine.activeTransactions s3 =
        map_delete (Engine.activeTransactions s2) tx /\
        (json_value (VArr (data ++ [record])) ->
         exists s4,
           Engine.loadFile config c s3 = (Ok (data ++ [record]), s4)).
Proof.
  intros Hperm Hpath Hmax tx.
  exists {| Engine.world := os_drew 16 (Engine.world s);
            Engine.cache := Engine.cache s;
            Engine.activeTransactions :=
              map_set (Engine.activeTransactions s) tx
                {| Engine.id := tx; Engine.operations := [];
                   Engine.backups := []; Engine.status := Engine.pending |}
         |}.
  split; [reflexivity|].
  intros data s1' Hload.
  destruct (engine_loadFile_frame c _ _ _ Hload) as [Hw1 Ht1].
  destruct s1' as [w' cache' txs'].
  engine_step in Hw1. engine_step in Ht1. subst w' txs'.
  match type of Hload with _ = (_, ?st) =>
    destruct (engine_saveFile_eq c (data ++ [record]) st path Hpath)
      as [raw [Hraw Hsave]]
  end.
  engine_step in Hraw. engine_step in Hsave.
  rewrite (cache_never_stuck _ Hmax) in Hsave. cbv zeta in Hsave.
  destruct (engine_written_holds _ _ raw
              (JSON_stringify_array_not_blank (data ++ [record])) Hraw)
    as [Hholds _].
  exists raw. eexists. eexists.
  split.
  { unfold Engine.insert, bind at 1, lift_outcome at 1. rewrite Hperm.
    unfold Engine.insertInternal, bind. rewrite Hload. exact Hsave. }
  engine_step. rewrite engine_saved_content.
  split; [reflexivity|]. split; [exact Hholds|].
  split.
  { unfold Engine.rollbackTransaction, bind at 1, get_state. engine_step.
    rewrite map_get_set_eq. reflexivity. }
  engine_step. split; [reflexivity|]. split; [reflexivity|].
  split; [reflexivity|].
  intros HR.
  eapply (engine_load_written c (data ++ [record]) path raw
            (os_drew 16 (Engine.world s))); try eassumption.
  - engine_step. apply engine_saved_content.
  - reflexivity.
  - engine_step. unfold cache_updated. intros entry He _.
    rewrite map_get_set_eq in He. injection He as <-. reflexivity.
  - apply cache_updated_not_stuck.
Qed.
End EngineFacts.

(** ** The reference JSON codec *)

Lemma skip_ws_spaces (n : nat) (k : string) :
  Json.skip_ws (Json.spaces n k) = Json.skip_ws k.
Proof. induction n as [|n IH]; simpl; [reflexivity|exact IH]. Qed.

Lemma skip_ws_newline (n : nat) (k : string) :
  Json.skip_ws (Json.newline n k) = Json.skip_ws k.
Proof. unfold Json.newline. simpl. apply skip_ws_spaces. Qed.

(** The text starts a JSON value: its first character is not white space
    and closes neither an array nor an object. *)
Definition starts_value (s : string) : Prop :=
  match s with
  | EmptyString => False
  | String c _ =>
      Json.is_json_ws c = false /\ Ascii.eqb c "]" = false /\
      Ascii.eqb c "}" = false
  end.

Lemma skip_ws_starts_value (s : string) :
  starts_value s -> Json.skip_ws s = s.
Proof. destruct s as [|c s]; simpl; [tauto|]. intros [-> _]. reflexivity. Qed.

Definition starts_digit (s : string) : bool :=
  match s with
  | EmptyString => false
  | String c _ => match Json.digit_of c with Some _ => true | None => false end
  end.

(** What may follow a value: not a digit, a fraction or an exponent. *)
Definition good_end (k : string) : bool :=
  negb (starts_digit k) && Json.ends_numeral k.

Lemma parse_digits_end (k : string) :
  starts_digit k = false -> Json.parse_digits k = (Decimal.Nil, k).
Proof.
  destruct k as [|c k]; simpl; [reflexivity|].
  destruct (Json.digit_of c); [discriminate|reflexivity].
Qed.

Lemma parse_digits_digits (d : Decimal.uint) (k : string) :
  starts_digit k = false -> Json.parse_digits (Json.digits d k) = (d, k).
Proof.
  intros Hk. induction d; cbn [Json.digits];
    [apply parse_digits_end; exact Hk|..];
    cbn [Json.parse_digits]; rewrite IHd; reflexivity.
Qed.

Lemma to_uint_not_nil (n : N) : N.to_uint n <> Decimal.Nil.
Proof.
  destruct n as [|p]; [discriminate|]. simpl.
  apply DecimalPos.Unsigned.to_uint_nonnil.
Qed.

Lemma uint_beq_refl (d : Decimal.uint) : Decimal.uint_beq d d = true.
Proof. apply Decimal.internal_uint_dec_lb. reflexivity. Qed.

Lemma parse_natural_digits (n : N) (k : string) :
  good_end k = true ->
  Json.parse_natural (Json.digits (N.to_uint n) k) = Some (n, k).
Proof.
  unfold good_end. intros [Hd He]%andb_true_iff. apply negb_true_iff in Hd.
  unfold Json.parse_natural. rewrite parse_digits_digits by exact Hd.
  rewrite DecimalN.Unsigned.of_to, uint_beq_refl, He.
  destruct (N.to_uint n) eqn:Hn; try reflexivity.
  destruct (to_uint_not_nil n Hn).
Qed.

Lemma digits_head (n : N) (k : string) :
  exists c t, Json.digits (N.to_uint n) k = String c t /\
              Json.digit_of c <> None.
Proof.
  destruct (N.to_uint n) eqn:Hn; [destruct (to_uint_not_nil n Hn)|..];
    cbn [Json.digits]; eexists; eexists; (split; [reflexivity|discriminate]).
Qed.

Lemma parse_string_escape (c : ascii) (rest : string) :
  Json.parse_string (Json.escape c rest) =
  match Json.parse_string rest with
  | Some (t, r) => Some (String c t, r)
  | None => None
  end.
Proof.
  destruct c as [[] [] [] [] [] [] [] []]; reflexivity.
Qed.

Lemma parse_string_quote_body (s k : string) :
  Json.parse_string (Json.quote_body s (String "034" k)) = Some (s, k).
Proof.
  induction s as [|c s IH]; [reflexivity|].
  cbn [Json.quote_body]. rewrite parse_string_escape, IH. reflexivity.
Qed.

(** The size of a value: the fuel its text asks of the parser. *)
Fixpoint weight (v : value) : nat :=
  match v with
  | VArr items => S (list_sum (map weight items))
  | VObj o => S (list_sum (map (fun kv => weight (snd kv)) o))
  | _ => 1%nat
  end.

Lemma weight_pos (v : value) : (1 <= weight v)%nat.
Proof. destruct v; simpl; lia. Qed.

Lemma parse_value_newline (fuel indent : nat) (k : string) :
  Json.parse_value fuel (Json.newline indent k) = Json.parse_value fuel k.
Proof.
  destruct fuel as [|fuel]; [reflexivity|].
  cbn [Json.parse_value]. rewrite skip_ws_newline. reflexivity.
Qed.

Lemma parse_value_space (fuel : nat) (k : string) :
  Json.parse_value fuel (String " " k) = Json.parse_value fuel k.
Proof. destruct fuel as [|fuel]; reflexivity. Qed.

Lemma parse_value_numeral (fuel : nat) (c : ascii) (r : string) :
  Json.digit_of c <> None ->
  Json.parse_value (S fuel) (String c r) =
  match Json.parse_natural (String c r) with
  | Some (n, r') => Some (VNum (Z.of_N n), r')
  | None => None
  end.
Proof.
  intros H.
  destruct c as [[] [] [] [] [] [] [] []];
    first [reflexivity | exfalso; apply H; reflexivity].
Qed.

Lemma starts_value_digits (n : N) (k : string) :
  starts_value (Json.digits (N.to_uint n) k).
Proof.
  destruct (N.to_uint n) eqn:Hn; [destruct (to_uint_not_nil n Hn)|..];
    cbn [Json.digits starts_value]; repeat split; reflexivity.
Qed.

Lemma starts_value_object (pr : value -> string -> string) (indent : nat)
  (k : string) (o : props) :
  starts_value (Json.print_object pr indent k o).
Proof.
  induction o as [|[key x] o IH]; [repeat split; reflexivity|].
  destruct x; try exact IH; repeat split; reflexivity.
Qed.

Lemma starts_value_print (indent : nat) (v : value) (k : string) :
  starts_value (Json.print indent v k).
Proof.
  destruct v as [| |[]|n|s|[|x items]|o]; try (repeat split; reflexivity).
  - cbn [Json.print]. unfold Json.number.
    destruct (n <? 0); [repeat split; reflexivity|apply starts_value_digits].
  - apply starts_value_object.
Qed.

Lemma good_end_items (pr : value -> string -> string) (indent : nat)
  (k : string) (l : list value) :
  good_end (Json.print_items pr indent k l) = true.
Proof. destruct l; reflexivity. Qed.

Lemma good_end_members (pr : value -> string -> string) (indent : nat)
  (k : string) (o : props) :
  good_end (Json.print_members pr indent k o) = true.
Proof.
  induction o as [|[key x] o IH]; [reflexivity|].
  destruct x; try exact IH; reflexivity.
Qed.

Lemma json_value_defined (v : value) : json_value v -> v <> VUndef.
Proof. destruct v; simpl; [tauto|discriminate..]. Qed.

Lemma print_members_cons (pr : value -> string -> string) (indent : nat)
  (k key : string) (x : value) (o : props) :
  x <> VUndef ->
  Json.print_members pr indent k ((key, x) :: o) =
  String "," (Json.print_member pr indent key x
                (Json.print_members pr indent k o)).
Proof. destruct x; [congruence|reflexivity..]. Qed.

Lemma print_object_cons (pr : value -> string -> string) (indent : nat)
  (k key : string) (x : value) (o : props) :
  x <> VUndef ->
  Json.print_object pr indent k ((key, x) :: o) =
  String "{" (Json.print_member pr indent key x
                (Json.print_members pr indent k o)).
Proof. destruct x; [congruence|reflexivity..]. Qed.

(** What the induction on values proves of each value. *)
Definition parses_back (v : value) : Prop :=
  json_value v ->
  forall fuel indent k,
    (weight v <= fuel)%nat -> good_end k = true ->
    Json.parse_value fuel (Json.print indent v k) = Some (v, k).

Lemma parse_items_print (l : list value) :
  forall x n fuel indent k,
    Forall parses_back (x :: l) ->
    Forall json_value (x :: l) ->
    Forall (fun y => weight y <= fuel)%nat (x :: l) ->
    (length l < n)%nat ->
    Json.parse_items (Json.parse_value fuel) n
      (Json.newline (indent + 2)
         (Json.print (indent + 2) x
            (Json.print_items (Json.print (indent + 2)) indent k l))) =
    Some (x :: l, k).
Proof.
  induction l as [|y l IH]; intros x n fuel indent k HP HJ HW Hn;
    (destruct n as [|n]; [simpl in Hn; lia|]);
    apply List.Forall_cons_iff in HP as [HPx HP];
    apply List.Forall_cons_iff in HJ as [HJx HJ];
    apply List.Forall_cons_iff in HW as [HWx HW];
    cbn [Json.parse_items]; rewrite parse_value_newline;
    rewrite (HPx HJx fuel (indent + 2)%nat _ HWx (good_end_items _ _ _ _)).
  - cbn [Json.print_items]. rewrite skip_ws_newline. reflexivity.
  - cbn [Json.print_items]. cbn [Json.skip_ws].
    change (Json.is_json_ws ",") with false. cbv iota.
    change (Ascii.eqb "," ",") with true. cbv iota.
    rewrite (IH y n fuel indent k HP HJ HW) by (simpl in Hn; lia).
    reflexivity.
Qed.

Lemma parse_members_print (o : props) :
  forall key x n fuel indent k,
    Forall (fun kv => parses_back (snd kv)) ((key, x) :: o) ->
    Forall (fun kv => json_value (snd kv)) ((key, x) :: o) ->
    Forall (fun kv => weight (snd kv) <= fuel)%nat ((key, x) :: o) ->
    (length o < n)%nat ->
    Json.parse_members (Json.parse_value fuel) n
      (Json.print_member (Json.print (indent + 2)) indent key x
         (Json.print_members (Json.print (indent + 2)) indent k o)) =
    Some ((key, x) :: o, k).
Proof.
  induction o as [|[key' y] o IH]; intros key x n fuel indent k HP HJ HW Hn;
    (destruct n as [|n]; [simpl in Hn; lia|]);
    apply List.Forall_cons_iff in HP as [HPx HP];
    apply List.Forall_cons_iff in HJ as [HJx HJ];
    apply List.Forall_cons_iff in HW as [HWx HW];
    cbn [snd] in HPx, HJx, HWx;
    unfold Json.print_member at 1; cbn [Json.parse_members];
    rewrite skip_ws_newline; unfold Json.quote; cbn [Json.skip_ws];
    change (Json.is_json_ws "034") with false; cbv iota;
    change (Ascii.eqb "034" "034") with true; cbv iota;
    rewrite parse_string_quote_body; cbn [Json.skip_ws];
    change (Json.is_json_ws ":") with false; cbv iota;
    change (Ascii.eqb ":" ":") with true; cbv iota;
    rewrite parse_value_space;
    rewrite (HPx HJx fuel (indent + 2)%nat _ HWx (good_end_members _ _ _ _)).
  - cbn [Json.print_members]. rewrite skip_ws_newline. reflexivity.
  - pose proof (json_value_defined y
                  (proj1 (proj1 (List.Forall_cons_iff _ _ _) HJ))) as Hy.
    rewrite (print_members_cons _ _ _ key' y o Hy). cbn [Json.skip_ws].
    change (Json.is_json_ws ",") with false. cbv iota.
    change (Ascii.eqb "," ",") with true. cbv iota.
    rewrite (IH key' y n fuel indent k HP HJ HW) by (simpl in Hn; lia).
    reflexivity.
Qed.

Lemma json_value_items (items : list value) :
  json_value (VArr items) -> Forall json_value items.
Proof.
  simpl. induction items as [|x items IH]; simpl; intros H; constructor;
    tauto.
Qed.

Lemma json_value_members (o : props) :
  json_value (VObj o) ->
  obj_of_list o = o /\ Forall (fun kv => json_value (snd kv)) o.
Proof.
  simpl. intros [Ho H]. split; [exact Ho|]. clear Ho.
  induction o as [|x o IH]; simpl in *; constructor; tauto.
Qed.

Lemma weight_items (items : list value) (fuel : nat) :
  (list_sum (map weight items) <= fuel)%nat ->
  Forall (fun y => weight y <= fuel)%nat items /\ (length items <= fuel)%nat.
Proof.
  revert fuel. induction items as [|x items IH]; simpl; intros fuel H.
  - split; [constructor|lia].
  - pose proof (weight_pos x).
    destruct (IH (fuel - weight x)%nat) as [H1 H2]; [lia|].
    split; [|lia]. constructor; [lia|].
    eapply List.Forall_impl; [|exact H1]. simpl. intros; lia.
Qed.

Lemma weight_members (o : props) (fuel : nat) :
  (list_sum (map (fun kv => weight (snd kv)) o) <= fuel)%nat ->
  Forall (fun kv => weight (snd kv) <= fuel)%nat o /\ (length o <= fuel)%nat.
Proof.
  revert fuel. induction o as [|x o IH]; simpl; intros fuel H.
  - split; [constructor|lia].
  - pose proof (weight_pos (snd x)).
    destruct (IH (fuel - weight (snd x))%nat) as [H1 H2]; [lia|].
    split; [|lia]. constructor; [lia|].
    eapply List.Forall_impl; [|exact H1]. simpl. intros; lia.
Qed.

(** The parser reads back what the printer wrote. *)
Lemma parse_print (v : value) : parses_back v.
Proof.
  induction v as [| |b|n|s|items IH|o IH] using value_ind;
    intros HJ fuel indent k HW Hk;
    (destruct fuel as [|fuel];
     [match type of HW with
      | le (weight ?w) _ => pose proof (weight_pos w); lia
      end|]).
  - destruct HJ.
  - reflexivity.
  - destruct b; reflexivity.
  - cbn [Json.print]. unfold Json.number.
    destruct (n <? 0) eqn:Hneg.
    + cbn [Json.parse_value Json.skip_ws].
      change (Json.is_json_ws "-") with false. cbv iota.
      change (Ascii.eqb "-" "[") with false.
      change (Ascii.eqb "-" "{") with false.
      change (Ascii.eqb "-" "034") with false.
      change (Ascii.eqb "-" "-") with true. cbv iota.
      rewrite parse_natural_digits by exact Hk.
      apply Z.ltb_lt in Hneg. do 2 f_equal. f_equal. lia.
    + destruct (digits_head (Z.abs_N n) k) as [c [t [Heq Hc]]].
      rewrite Heq, (parse_value_numeral fuel c t Hc), <- Heq.
      rewrite parse_natural_digits by exact Hk.
      apply Z.ltb_ge in Hneg. do 2 f_equal. f_equal. lia.
  - cbn [Json.print]. unfold Json.quote. cbn [Json.parse_value Json.skip_ws].
    change (Json.is_json_ws "034") with false. cbv iota.
    change (Ascii.eqb "034" "[") with false.
    change (Ascii.eqb "034" "{") with false.
    change (Ascii.eqb "034" "034") with true. cbv iota.
    rewrite parse_string_quote_body. reflexivity.
  - destruct items as [|x items]; [reflexivity|].
    cbn [Json.print Json.parse_value Json.skip_ws].
    change (Json.is_json_ws "[") with false. cbv iota.
    change (Ascii.eqb "[" "[") with true. cbv iota.
    rewrite skip_ws_newline.
    pose proof (starts_value_print (indent + 2) x
                  (Json.print_items (Json.print (indent + 2)) indent k items))
      as Hstart.
    rewrite (skip_ws_starts_value _ Hstart).
    destruct (Json.print (indent + 2) x _) as [|c r] eqn:Hprint;
      [destruct Hstart|].
    destruct Hstart as [_ [Hclose _]]. rewrite Hclose, <- Hprint.
    simpl in HW. apply le_S_n in HW.
    destruct (weight_items (x :: items) fuel HW) as [HWs Hlen].
    rewrite (parse_items_print items x fuel fuel indent k IH
               (json_value_items _ HJ) HWs) by (simpl in Hlen; lia).
    reflexivity.
  - destruct (json_value_members o HJ) as [Hcanon HJs].
    destruct o as [|[key x] o]; [reflexivity|].
    pose proof (json_value_defined x
                  (proj1 (proj1 (List.Forall_cons_iff _ _ _) HJs))) as Hx.
    cbn [Json.print]. rewrite (print_object_cons _ _ _ key x o Hx).
    cbn [Json.parse_value Json.skip_ws].
    change (Json.is_json_ws "{") with false. cbv iota.
    change (Ascii.eqb "{" "[") with false.
    change (Ascii.eqb "{" "{") with true. cbv iota.
    unfold Json.print_member at 1. rewrite skip_ws_newline.
    unfold Json.quote at 1. cbn [Json.skip_ws].
    change (Json.is_json_ws "034") with false. cbv iota.
    change (Ascii.eqb "034" "}") with false. cbv iota.
    simpl in HW. apply le_S_n in HW.
    destruct (weight_members ((key, x) :: o) fuel HW) as [HWs Hlen].
    change (Json.newline (indent + 2)
              (String "034" (Json.quote_body key (String "034"
                 (String ":" (String " "
                    (Json.print (indent + 2) x
                       (Json.print_members (Json.print (indent + 2)) indent k
                          o))))))))
      with (Json.print_member (Json.print (indent + 2)) indent key x
              (Json.print_members (Json.print (indent + 2)) indent k o)).
    rewrite (parse_members_print o key x fuel fuel indent k IH HJs HWs)
      by (simpl in Hlen; lia).
    rewrite Hcanon. reflexivity.
Qed.

Lemma length_spaces (n : nat) (k : string) :
  String.length (Json.spaces n k) = (n + String.length k)%nat.
Proof. induction n as [|n IH]; simpl; [|rewrite IH]; reflexivity. Qed.

Lemma length_newline (n : nat) (k : string) :
  String.length (Json.newline n k) = S (n + String.length k).
Proof. unfold Json.newline. simpl. rewrite length_spaces. reflexivity. Qed.

Lemma length_escape (c : ascii) (k : string) :
  (S (String.length k) <= String.length (Json.escape c k))%nat.
Proof.
  unfold Json.escape.
  repeat match goal with
         | |- context [if ?b then _ else _] => destruct b
         end; simpl; lia.
Qed.

Lemma length_quote (s k : string) :
  (2 + String.length k <= String.length (Json.quote s k))%nat.
Proof.
  unfold Json.quote. simpl.
  assert (H : forall k', (String.length k' <=
                          String.length (Json.quote_body s k'))%nat).
  { induction s as [|c s IH]; intros k'; simpl; [lia|].
    pose proof (length_escape c (Json.quote_body s k')).
    specialize (IH k'). lia. }
  specialize (H (String "034" k)). simpl in H. lia.
Qed.

Lemma length_digits (n : N) (k : string) :
  (1 + String.length k <= String.length (Json.digits (N.to_uint n) k))%nat.
Proof.
  assert (H : forall d, (String.length k <=
                         String.length (Json.digits d k))%nat).
  { induction d; simpl; lia. }
  destruct (N.to_uint n) as [|d|d|d|d|d|d|d|d|d|d] eqn:Hn;
    [destruct (to_uint_not_nil n Hn)|..];
    simpl; specialize (H d); lia.
Qed.

(** The text of a value is at least as long as the value is heavy. *)
Definition long_enough (v : value) : Prop :=
  json_value v ->
  forall indent k,
    (weight v + String.length k <=
     String.length (Json.print indent v k))%nat.

Lemma list_sum_map_cons {A : Type} (f : A -> nat) (x : A) (l : list A) :
  list_sum (map f (x :: l)) = (f x + list_sum (map f l))%nat.
Proof. reflexivity. Qed.

Lemma length_print_items (l : list value) (indent : nat) (k : string) :
  Forall long_enough l -> Forall json_value l ->
  (list_sum (map weight l) + String.length k <=
   String.length (Json.print_items (Json.print (indent + 2)) indent k l))%nat.
Proof.
  induction l as [|y l IH]; intros HL HJ; cbn [Json.print_items].
  - rewrite length_newline. simpl. lia.
  - apply List.Forall_cons_iff in HL as [HLy HL].
    apply List.Forall_cons_iff in HJ as [HJy HJ].
    specialize (IH HL HJ).
    rewrite list_sum_map_cons. cbn [String.length]. rewrite length_newline.
    pose proof (HLy HJy (indent + 2)%nat
                  (Json.print_items (Json.print (indent + 2)) indent k l)).
    lia.
Qed.

Lemma length_print_member (indent : nat) (key : string) (x : value)
  (rest : string) :
  long_enough x -> json_value x ->
  (weight x + String.length rest <=
   String.length (Json.print_member (Json.print (indent + 2)) indent key x
                    rest))%nat.
Proof.
  intros HL HJ. unfold Json.print_member. rewrite length_newline.
  pose proof (length_quote key
                (String ":" (String " " (Json.print (indent + 2) x rest)))).
  pose proof (HL HJ (indent + 2)%nat rest).
  cbn [String.length] in *. lia.
Qed.

Lemma length_print_members (o : props) (indent : nat) (k : string) :
  Forall (fun kv => long_enough (snd kv)) o ->
  Forall (fun kv => json_value (snd kv)) o ->
  (list_sum (map (fun kv => weight (snd kv)) o) + String.length k <=
   String.length (Json.print_members (Json.print (indent + 2)) indent k o))%nat.
Proof.
  induction o as [|[key y] o IH]; intros HL HJ.
  - cbn [Json.print_members]. rewrite length_newline. simpl. lia.
  - apply List.Forall_cons_iff in HL as [HLy HL].
    apply List.Forall_cons_iff in HJ as [HJy HJ].
    cbn [snd] in HLy, HJy. specialize (IH HL HJ).
    rewrite (print_members_cons _ _ _ key y o (json_value_defined y HJy)).
    pose proof (length_print_member indent key y
                  (Json.print_members (Json.print (indent + 2)) indent k o)
                  HLy HJy).
    rewrite list_sum_map_cons. cbn [String.length snd] in *. lia.
Qed.

Lemma length_print (v : value) : long_enough v.
Proof.
  induction v as [| |b|n|s|items IH|o IH] using value_ind;
    intros HJ indent k.
  - destruct HJ.
  - simpl. lia.
  - destruct b; simpl; lia.
  - cbn [Json.print weight]. unfold Json.number.
    pose proof (length_digits (Z.abs_N n) k).
    destruct (n <? 0); simpl; lia.
  - cbn [Json.print weight]. pose proof (length_quote s k). lia.
  - pose proof (json_value_items items HJ) as HJs.
    destruct items as [|x items]; [simpl; lia|].
    apply List.Forall_cons_iff in IH as [IHx IH].
    apply List.Forall_cons_iff in HJs as [HJx HJs].
    cbn [Json.print weight String.length]. rewrite list_sum_map_cons.
    rewrite length_newline.
    pose proof (IHx HJx (indent + 2)%nat
                  (Json.print_items (Json.print (indent + 2)) indent k items)).
    pose proof (length_print_items items indent k IH HJs). lia.
  - destruct (json_value_members o HJ) as [_ HJs].
    destruct o as [|[key x] o]; [simpl; lia|].
    apply List.Forall_cons_iff in IH as [IHx IH].
    apply List.Forall_cons_iff in HJs as [HJx HJs].
    cbn [snd] in IHx, HJx.
    cbn [Json.print].
    rewrite (print_object_cons _ _ _ key x o (json_value_defined x HJx)).
    pose proof (length_print_member indent key x
                  (Json.print_members (Json.print (indent + 2)) indent k o)
                  IHx HJx).
    pose proof (length_print_members o indent k IH HJs).
    cbn [weight]. rewrite list_sum_map_cons.
    cbn [String.length snd] in *. lia.
Qed.

(** [JSON.parse(JSON.stringify(v, null, 2))] is [v]. *)
Lemma json_parse_stringify (v : value) :
  json_value v -> Json.parse (Json.stringify v) = Ok v.
Proof.
  intros HJ. unfold Json.parse, Json.stringify.
  rewrite (parse_print v HJ); [reflexivity| |reflexivity].
  pose proof (length_print v HJ 0%nat ""). simpl in *. lia.
Qed.

Lemma json_stringify_array_not_blank (items : list value) :
  is_blank (Json.stringify (VArr items)) = false.
Proof. destruct items; reflexivity. Qed.

(** The codec as an instance of the interface. *)
Definition ref_json : JSON :=
  {| JSON_stringify := Json.stringify;
     JSON_parse := Json.parse;
     JSON_parse_stringify := json_parse_stringify;
     JSON_stringify_array_not_blank := json_stringify_array_not_blank |}.

(** ** The stand-in cipher *)

Lemma resize_length (n : nat) (s : string) :
  String.length (Cipher.resize n s) = n.
Proof.
  revert s. induction n as [|n IH]; intros s; [reflexivity|].
  destruct s; simpl; rewrite IH; reflexivity.
Qed.

Lemma strip_prefix_append (p s : string) :
  Cipher.strip_prefix p (p +:+ s) = Some s.
Proof.
  induction p as [|c p IH]; [reflexivity|].
  rewrite append_cons. simpl. rewrite Ascii.eqb_refl. exact IH.
Qed.

Lemma cipher_roundtrip (key iv pt : string) :
  String.length key = 32%nat -> String.length iv = 16%nat ->
  exists ct, Cipher.encrypt key iv pt = Ok ct /\ ct <> "" /\
             Cipher.decrypt key iv ct = Ok pt.
Proof.
  intros Hkey Hiv. exists (String "001" (key +:+ iv +:+ pt)).
  unfold Cipher.encrypt, Cipher.decrypt, Cipher.sizes_ok.
  rewrite Hkey, Hiv. simpl. split; [reflexivity|]. split; [discriminate|].
  rewrite <- append_assoc, strip_prefix_append. reflexivity.
Qed.

Lemma cipher_decrypt_iv (key iv ct : string) :
  String.length iv <> 16%nat -> Cipher.decrypt key iv ct = Throw JsError.
Proof.
  intros Hiv. unfold Cipher.decrypt, Cipher.sizes_ok.
  apply Nat.eqb_neq in Hiv. rewrite Hiv, andb_false_r. reflexivity.
Qed.

Definition ref_crypto : Crypto :=
  {| sha256 := Cipher.sha256;
     pbkdf2Sync := Cipher.pbkdf2Sync;
     aes_256_cbc_encrypt := Cipher.encrypt;
     aes_256_cbc_decrypt := Cipher.decrypt;
     sha256_length := resize_length 32;
     pbkdf2Sync_length := fun pw salt _ len _ => resize_length len _;
     aes_256_cbc_roundtrip := cipher_roundtrip;
     aes_256_cbc_decrypt_iv := cipher_decrypt_iv |}.

(** ** The engines at concrete inputs *)

#[local] Existing Instances ref_crypto ref_json.

(** A machine whose clock reads 1000 at the start and moves on by one at
    each system call, and whose random tape is the alphabet, over and over *)
Definition machine (fs : gmap string file) : os :=
  {| files := fs; clock := fun n => 1000 + Z.of_nat n; ticks := 0;
     entropy := fun n => ascii_of_nat (97 + n mod 26); drawn := 0; journal := [] |}.

Definition plain_config : ConnectConfig :=
  {| database := "db"; encryptionKey := "secret"; mode := "plain";
     role := "admin" |}.

Definition encrypted_config : ConnectConfig :=
  {| database := "db"; encryptionKey := "secret"; mode := "encrypted";
     role := "admin" |}.

Definition admin_auth : value :=
  VObj [("admin",
         VArr [VStr "query"; VStr "insert"; VStr "update"; VStr "delete"])].

Definition engine_config (mode : string) : Engine.ConnectConfig :=
  {| Engine.database := "db"; Engine.encryptionKey := "secret";
     Engine.mode := mode; Engine.role := "admin";
     Engine.maxCacheSize := 100; Engine.maxConnections := 10;
     Engine.queryTimeout := 30000 |}.

Definition fresh_engine (fs : gmap string file) : Engine.state :=
  {| Engine.world := machine fs; Engine.cache := [];
     Engine.activeTransactions := [] |}.

Definition alice : value := VObj [("id", VNum 1); ("name", VStr "Alice")].
Definition bob : value := VObj [("id", VNum 2); ("name", VStr "Bob")].


(** A file system with one file. *)
Definition disk (path text : string) : gmap string file :=
  {[ path := File text 5 ]}.

(** C4. For every array [R] of JSON values, [loadFile] after [saveFile]
    returns [R], in plain and in encrypted mode: in the copy of
    textdbx/examples from the file just written, and in the engine from
    its cache as well as from the file. *)
Theorem load_after_save_returns_records {crypto : Crypto} {json : JSON}
  (R : list value) :
  json_value (VArr R) ->
  (forall (config : ConnectConfig) (c : string) (w : os),
      exists w1,
        Examples.saveFile config c R w = (Ok tt, w1) /\
        Examples.loadFile config c w1 = (Ok R, w1)) /\
  (forall (config : Engine.ConnectConfig) (c path : string)
          (s : Engine.state),
      Engine.getCollectionPath config c = Ok path ->
      0 <= Engine.maxCacheSize config ->
      exists s1 s2 s3,
        Engine.saveFile config c R s = (Ok tt, s1) /\
        Engine.loadFile config c s1 = (Ok R, s2) /\
        Engine.loadFile config c
          {| Engine.world := Engine.world s1; Engine.cache := [];
             Engine.activeTransactions := [] |} = (Ok R, s3)).
Proof.
  intros HR. split.
  - intros config c w. apply examples_load_save, HR.
  - intros config c path s Hpath Hmax.
    apply (engine_load_save config c R s path HR Hpath Hmax).
Qed.

Lemma load_after_save_returns_records_witness :
  (exists w1,
      Examples.saveFile encrypted_config "users" [alice; bob]
        (machine empty) = (Ok tt, w1) /\
      Examples.loadFile encrypted_config "users" w1 = (Ok [alice; bob], w1)) /\
  (exists s1 s2,
      Engine.saveFile (engine_config "plain") "users" [alice; bob]
        (fresh_engine empty) = (Ok tt, s1) /\
      Engine.loadFile (engine_config "plain") "users" s1 =
      (Ok [alice; bob], s2)).
Proof.
  assert (HR : json_value (VArr [alice; bob])) by (vm_compute; tauto).
  destruct (load_after_save_returns_records [alice; bob] HR) as [Hex Hen].
  split; [apply Hex|].
  destruct (Hen (engine_config "plain") "users" "db/users.tdbx"
              (fresh_engine empty) eq_refl) as [s1 [s2 [_ [Hs [Hl _]]]]];
    [simpl; lia|].
  exists s1, s2. split; assumption.
Defined.

(** *** C1: a file that is no envelope *)

Definition garbled : os := machine (disk "db/users.tdbx" "not an envelope").

Lemma loadFile_hides_decryption_failure_witness :
  Examples.decrypt encrypted_config "not an envelope" = Throw JsError /\
  Examples.loadFile encrypted_config "users" garbled = (Ok [], garbled).
Proof.
  split; [reflexivity|].
  apply (loadFile_hides_decryption_failure encrypted_config "users" garbled
           (File "not an envelope" 5) JsError); reflexivity.
Defined.

(** The first copy and the engine throw on the same file. *)
Example loadFile_elsewhere_surfaces_the_failure :
  Basic.loadFile encrypted_config "users" garbled = (Throw JsError, garbled) /\
  Engine.loadFile (engine_config "encrypted") "users"
    (fresh_engine (disk "db/users.tdbx" "not an envelope")) =
  (Throw (TextDBXError "DECRYPTION_ERROR"),
   fresh_engine (disk "db/users.tdbx" "not an envelope")).
Proof. split; vm_compute; reflexivity. Qed.

(** *** C2 and C3: what a save leaves on the disk *)

Lemma saveFile_writes_temp_then_renames_witness :
  exists s',
    Engine.saveFile (engine_config "plain") "users" [alice; bob]
      (fresh_engine empty) = (Ok tt, s') /\
    journal (Engine.world s') =
    save_events "db/users.tdbx" (Json.stringify (VArr [alice; bob])) /\
    (content <$> files (Engine.world s')) !! "db/users.tdbx" =
    Some (Json.stringify (VArr [alice; bob])) /\
    (content <$> files (Engine.world s')) !! "db/users.tdbx.tmp" = None.
Proof.
  destruct (saveFile_writes_temp_then_renames (engine_config "plain") "users"
              [alice; bob] (fresh_engine empty) "db/users.tdbx" eq_refl)
    as [raw [r [s' [Hsave [Hraw [Hj [_ [_ [Hc [Htmp Hr]]]]]]]]]].
  change (raw = Json.stringify (VArr [alice; bob])) in Hraw. subst raw.
  rewrite (Hr eq_refl) in Hsave.
  exists s'. repeat split; assumption.
Defined.

Lemma encrypted_save_writes_salted_envelope_witness :
  exists ct r s',
    Engine.saveFile (engine_config "encrypted") "users" [alice]
      (fresh_engine empty) = (r, s') /\
    Cipher.encrypt
      (Cipher.pbkdf2Sync "secret" "abcdefghijklmnop" 100000 32 "sha256")
      "qrstuvwxyzabcdef" (Json.stringify (VArr [alice])) = Ok ct /\
    (content <$> files (Engine.world s')) !! "db/users.tdbx" =
    Some (to_hex "abcdefghijklmnop" +:+ ":" +:+ to_hex "qrstuvwxyzabcdef"
          +:+ ":" +:+ to_hex ct).
Proof.
  destruct (encrypted_save_writes_salted_envelope (engine_config "encrypted")
              "users" [alice] (fresh_engine empty) "db/users.tdbx"
              eq_refl eq_refl)
    as [ct [r [s' [Hsave [Hct [Hc _]]]]]].
  exists ct, r, s'. repeat split; assumption.
Defined.

(** *** C5: the scenario of the specification, on one collection *)

Lemma rolled_back_insert_stays_witness :
  exists tx s1 s2 s3 s4,
    Engine.beginTransaction (fresh_engine empty) = (Ok tx, s1) /\
    Engine.loadFile (engine_config "plain") "A" s1 = (Ok [], s1) /\
    Engine.insert (engine_config "plain") admin_auth "A"
      (VObj [("id", VNum 9)]) s1 = (Ok tt, s2) /\
    Engine.rollbackTransaction (engine_config "plain") tx s2 = (Ok tt, s3) /\
    Engine.loadFile (engine_config "plain") "A" s3 =
    (Ok [VObj [("id", VNum 9)]], s4).
Proof.
  destruct (rolled_back_insert_stays (engine_config "plain") admin_auth "A"
              (VObj [("id", VNum 9)]) (fresh_engine empty) "db/A.tdbx"
              eq_refl eq_refl)
    as [s1 [Hbegin Hrest]]; [simpl; lia|].
  assert (Hload : Engine.loadFile (engine_config "plain") "A" s1 =
                  (Ok [], s1)).
  { injection Hbegin as <-. vm_compute. reflexivity. }
  destruct (Hrest [] s1 Hload)
    as [raw [s2 [s3 [Hins [_ [_ [Hroll [_ [_ [_ Hafter]]]]]]]]]].
  destruct Hafter as [s4 Hs4]; [vm_compute; tauto|].
  eexists; exists s1, s2, s3, s4. repeat split; eassumption.
Defined.

(** *** C6: a collection file overwritten with the text [not json] *)

Definition corrupted : os := machine (disk "db/users.tdbx" "not json").

Lemma loadFile_recovers_from_parse_failure_witness :
  exists w',
    Examples.loadFile plain_config "users" corrupted = (Ok [], w') /\
    content <$> files w' !! "db/users.tdbx.backup.1000" = Some "not json" /\
    content <$> files w' !! "db/users.tdbx" = Some "[]".
Proof.
  destruct (loadFile_recovers_from_parse_failure plain_config "users"
              corrupted (File "not json" 5) "not json" JsError)
    as [raw [w' [Hload [Hbackup [Hfile Hraw]]]]]; try reflexivity.
  change (raw = "[]") in Hraw. subst raw.
  exists w'. repeat split; assumption.
Defined.

(** A file that holds nothing but a byte order mark, U+FEFF, is blank to
    [trim]: [loadFile] takes it for an empty file and saves the empty
    array over it, without a copy under [.backup.<timestamp>]. *)
Definition byte_order_mark : string :=
  String "239" (String "187" (String "191" "")).

Example loadFile_takes_a_blank_file_for_empty :
  is_blank byte_order_mark = true /\
  fst (Examples.loadFile plain_config "users"
         (machine (disk "db/users.tdbx" byte_order_mark))) = Ok [] /\
  journal (snd (Examples.loadFile plain_config "users"
                  (machine (disk "db/users.tdbx" byte_order_mark)))) =
  [EvCopy "db/users.tdbx" "db/users.tdbx.backup";
   EvTruncate "db/users.tdbx"; EvWrite "db/users.tdbx" "[]"].
Proof. repeat split; vm_compute; reflexivity. Qed.

(** *** C7: a filter and its negation *)

Lemma matchFilter_not_witness :
  Engine.matchFilter alice (VObj [("$not", VObj [("id", VNum 1)])]) =
  Ok false /\
  Engine.matchFilter alice (VObj [("$not", VObj [("id", VNum 2)])]) =
  Ok true.
Proof.
  split.
  - exact (proj1 (matchFilter_not alice [("id", VNum 1)]) true eq_refl).
  - exact (proj1 (matchFilter_not alice [("id", VNum 2)]) false eq_refl).
Defined.

(** *** C9 and C10: a collection of two records *)

Definition two_users : os :=
  machine (disk "db/users.tdbx" (Json.stringify (VArr [alice; bob]))).

Lemma empty_filter_matches_every_record_witness :
  Examples.matchFilter alice (VObj []) = Ok true /\
  Examples.queryObject plain_config admin_auth
    {| Examples.collection := "users"; Examples.filter := VUndef;
       Examples.fields := None |} two_users =
  (Ok [alice; bob], two_users) /\
  exists w1,
    Examples.delete plain_config admin_auth "users" (VObj []) two_users =
    (Ok 2, w1) /\
    Examples.loadFile plain_config "users" w1 = (Ok [], w1).
Proof.
  assert (Hload : Examples.loadFile plain_config "users" two_users =
                  (Ok [alice; bob], two_users)) by (vm_compute; reflexivity).
  destruct (empty_filter_matches_every_record plain_config admin_auth "users")
    as [Hmatch [Hquery Hdelete]].
  split; [apply Hmatch|]. split.
  - rewrite (Hquery eq_refl eq_refl two_users VUndef (or_introl eq_refl)).
    exact Hload.
  - apply (Hdelete eq_refl eq_refl two_users [alice; bob] two_users Hload).
Defined.

Lemma saveFile_keeps_previous_version_witness :
  exists w1,
    Examples.insert plain_config admin_auth "users"
      (VObj [("id", VNum 3)]) two_users = (Ok tt, w1) /\
    exists data w0,
      Examples.loadFile plain_config "users" two_users = (Ok data, w0) /\
      examples_backed_up plain_config "users" w0 w1.
Proof.
  destruct (saveFile_keeps_previous_version plain_config admin_auth "users"
              two_users (File (Json.stringify (VArr [alice; bob])) 5) eq_refl)
    as [_ [Hins _]].
  destruct (Examples.insert plain_config admin_auth "users"
              (VObj [("id", VNum 3)]) two_users) as [[[]|e] w1] eqn:Hrun.
  - exists w1. split; [reflexivity|]. apply (Hins _ w1 Hrun).
  - vm_compute in Hrun. discriminate.
Defined.

(** *** The two earlier copies

    [saveFile] there writes the collection file in place, and the file is
    empty between the two events of the write; [$not] is a field name like
    any other. *)

Example examples_saveFile_in_place :
  exists w1,
    Examples.saveFile plain_config "users" [alice] two_users = (Ok tt, w1) /\
    journal w1 =
    [EvCopy "db/users.tdbx" "db/users.tdbx.backup";
     EvTruncate "db/users.tdbx";
     EvWrite "db/users.tdbx" (Json.stringify (VArr [alice]))].
Proof.
  destruct (examples_saveFile_eq plain_config "users" [alice] two_users)
    as [raw [Hraw [_ Hsave]]].
  change (raw = Json.stringify (VArr [alice])) in Hraw. subst raw.
  eexists. split; [exact Hsave|].
  rewrite examples_saved_journal. reflexivity.
Qed.

Example examples_saveFile_not_atomic :
  ~ Forall (fun fs' =>
              fs' !! "db/users.tdbx" =
              Some (Json.stringify (VArr [alice; bob])) \/
              fs' !! "db/users.tdbx" = Some (Json.stringify (VArr [alice])))
      (states_after (content <$> files two_users)
         [EvCopy "db/users.tdbx" "db/users.tdbx.backup";
          EvTruncate "db/users.tdbx";
          EvWrite "db/users.tdbx" (Json.stringify (VArr [alice]))]).
Proof.
  intros H. apply List.Forall_cons_iff in H as [_ H].
  apply List.Forall_cons_iff in H as [[H|H] _];
    vm_compute in H; discriminate.
Qed.

Example examples_matchFilter_has_no_not :
  Examples.matchFilter (VObj [("a", VNum 2)])
    (VObj [("$not", VObj [("a", VNum 1)])]) = Ok false /\
  Examples.matchFilter (VObj [("a", VNum 2)]) (VObj [("a", VNum 1)]) =
  Ok false /\
  Basic.matchFilter (VObj [("a", VNum 2)])
    (VObj [("$not", VObj [("a", VNum 1)])]) = Ok false /\
  Engine.matchFilter (VObj [("a", VNum 2)])
    (VObj [("$not", VObj [("a", VNum 1)])]) = Ok true.
Proof. repeat split; reflexivity. Qed.

(* ================================================================== *)
(** * Part III. Further properties of the three copies                 *)
(* ================================================================== *)

(** ** The envelopes *)

Section Envelopes.
Context {crypto : Crypto} {json : JSON}.

(** X1. In the two earlier copies [decrypt] gives back what [encrypt] was
    given, whatever the text, the passphrase and the random bytes; the
    two copies write the same envelope, so that each reads what the
    other wrote. *)
Theorem legacy_envelope_roundtrip (config : ConnectConfig) (data : string)
  (w : os) :
  exists raw,
    Examples.encrypt config data w = (Ok raw, os_drew 16 w) /\
    Basic.encrypt config data w = (Ok raw, os_drew 16 w) /\
    Examples.decrypt config raw = Ok data /\
    Basic.decrypt config raw = Ok data.
Proof.
  destruct (aes_256_cbc_roundtrip (sha256 (encryptionKey config))
              (tape (entropy w) (drawn w) 16) data)
    as [ct [Henc [Hne Hdec]]];
    [apply sha256_length|apply tape_length|].
  exists (to_hex (tape (entropy w) (drawn w) 16) +:+ ":" +:+ to_hex ct).
  split; [|split; [|split]].
  - unfold Examples.encrypt, try_catch, bind, randomBytes, lift_outcome, ret.
    rewrite Henc. reflexivity.
  - unfold Basic.encrypt, bind, randomBytes, lift_outcome, ret.
    rewrite Henc. reflexivity.
  - apply examples_decrypt_envelope; [apply tape_not_empty|exact Hne|exact Hdec].
  - unfold Basic.decrypt. rewrite split_envelope2, !from_hex_to_hex.
    exact Hdec.
Qed.

(** X2. In the engine [decrypt] gives back what [encrypt] was given; the
    envelope costs 32 bytes of the random source. *)
Theorem engine_envelope_roundtrip (config : Engine.ConnectConfig)
  (data : string) (w : os) :
  exists raw,
    Engine.encrypt config data w = (Ok raw, os_drew 16 (os_drew 16 w)) /\
    Engine.decrypt config raw = Ok data.
Proof.
  destruct (engine_encrypt_ok config data w) as [ct [_ [Hne [Hdec Henc]]]].
  eexists. split; [exact Henc|].
  apply engine_decrypt_envelope; auto using tape_not_empty.
Qed.

(** What [Examples.encrypt] returns has two fields. *)
Lemma examples_encrypt_shape (config : ConnectConfig) (data raw : string)
  (w w' : os) :
  Examples.encrypt config data w = (Ok raw, w') ->
  exists iv ct, raw = to_hex iv +:+ ":" +:+ to_hex ct.
Proof.
  unfold Examples.encrypt, try_catch, bind, randomBytes, lift_outcome, ret,
    throw.
  destruct (aes_256_cbc_encrypt _ _ data) as [ct|e]; [|discriminate].
  intros H. exists (tape (entropy w) (drawn w) 16), ct.
  injection H as H _. symmetry. exact H.
Qed.

Lemma engine_decrypt_two_fields (config : Engine.ConnectConfig)
  (iv ct : string) :
  Engine.decrypt config (to_hex iv +:+ ":" +:+ to_hex ct) =
  Throw (TextDBXError "DECRYPTION_ERROR").
Proof. unfold Engine.decrypt. rewrite split_envelope2. reflexivity. Qed.

(** X3. The engine cannot read a collection that one of the earlier
    copies wrote in encrypted mode: the envelope has two fields where the
    engine wants three, and [loadFile] fails with [DECRYPTION_ERROR],
    leaving the cache as it was. *)
Theorem engine_refuses_legacy_envelope (config : Engine.ConnectConfig)
  (old : ConnectConfig) (c path text : string) (f : file) (w w' : os)
  (s : Engine.state) :
  is_encrypted (Engine.mode config) = true ->
  Engine.getCollectionPath config c = Ok path ->
  files (Engine.world s) !! path = Some f ->
  cache_valid c f (Engine.cache s) = false ->
  Examples.encrypt old text w = (Ok (content f), w') ->
  Engine.decrypt config (content f) = Throw (TextDBXError "DECRYPTION_ERROR")
  /\ Engine.loadFile config c s = (Throw (TextDBXError "DECRYPTION_ERROR"), s).
Proof.
  intros Hmode Hpath Hf Hstale Henc.
  destruct (examples_encrypt_shape old text _ w w' Henc) as [iv [ct Hraw]].
  assert (Hdec : Engine.decrypt config (content f) =
                 Throw (TextDBXError "DECRYPTION_ERROR")).
  { rewrite Hraw. apply engine_decrypt_two_fields. }
  split; [exact Hdec|].
  destruct s as [w0 cache txs].
  engine_step in Hf. engine_step in Hstale.
  unfold Engine.loadFile, bind at 1, get_state. engine_step.
  unfold bind at 1, lift_outcome at 1. rewrite Hpath.
  unfold try_catch, bind, Engine.lift_os, existsSync, stat_mtime,
    readFileSync, lift_outcome, ret, throw.
  engine_step. rewrite Hf. engine_step. cbn [negb]. engine_step.
  rewrite Hf. engine_step.
  unfold cache_valid in Hstale.
  destruct (map_get cache c) as [entry|]; rewrite ?Hstale; engine_step;
    rewrite Hf; engine_step; rewrite Hmode, Hdec; reflexivity.
Qed.

End Envelopes.

(** ** Loading *)

Section Loading.
Context {crypto : Crypto} {json : JSON}.

(** What the file holds once the envelope, if any, is taken off. *)
Definition engine_decoded (config : Engine.ConnectConfig) (raw : string)
  : outcome string :=
  if is_encrypted (Engine.mode config) then Engine.decrypt config raw
  else Ok raw.

(** [loadFile] when the file is there and no cache entry is as new as
    the file. *)
Lemma engine_loadFile_from_file (config : Engine.ConnectConfig)
  (c path : string) (f : file) (s : Engine.state) :
  Engine.getCollectionPath config c = Ok path ->
  files (Engine.world s) !! path = Some f ->
  cache_valid c f (Engine.cache s) = false ->
  Engine.loadFile config c s =
  match engine_decoded config (content f) with
  | Throw e => (Throw (Engine.rethrow_as "FILE_READ_ERROR" e), s)
  | Ok text =>
      match JSON_parse text with
      | Throw _ => (Throw (TextDBXError "DATA_CORRUPTION_ERROR"), s)
      | Ok (VArr items) =>
          match Engine.updateCache config c items (mtime f) s with
          | (Ok _, s') => (Ok items, s')
          | (Throw e, s') =>
              (Throw (Engine.rethrow_as "FILE_READ_ERROR" e), s')
          end
      | Ok _ => (Throw (TextDBXError "DATA_FORMAT_ERROR"), s)
      end
  end.
Proof.
  intros Hpath Hf Hstale.
  destruct s as [w cache txs].
  engine_step in Hf. engine_step in Hstale.
  unfold Engine.loadFile, bind at 1, get_state. engine_step.
  unfold bind at 1, lift_outcome at 1. rewrite Hpath.
  unfold try_catch, bind, Engine.lift_os, existsSync, stat_mtime,
    readFileSync, lift_outcome, ret, throw, engine_decoded.
  engine_step. rewrite Hf. engine_step. cbn [negb]. engine_step.
  rewrite Hf. engine_step.
  unfold cache_valid in Hstale.
  destruct (map_get cache c) as [entry|]; rewrite ?Hstale; engine_step;
    rewrite Hf; engine_step;
    (destruct (is_encrypted (Engine.mode config));
     [destruct (Engine.decrypt config (content f)) as [text|e]; engine_step;
      [|reflexivity]|engine_step; set (text := content f)]);
    (destruct (JSON_parse text) as [v|e]; engine_step; [|reflexivity]);
    destruct v; try reflexivity;
    match goal with
    | |- context [Engine.updateCache ?a ?b ?c ?d ?e] =>
        destruct (Engine.updateCache a b c d e) as [[[]|e'] s']; reflexivity
    end.
Qed.

Lemma engine_loadFile_absent (config : Engine.ConnectConfig)
  (c path : string) (s : Engine.state) :
  Engine.getCollectionPath config c = Ok path ->
  files (Engine.world s) !! path = None ->
  Engine.loadFile config c s = (Ok [], s).
Proof.
  intros Hpath Hnone. destruct s as [w cache txs]. engine_step in Hnone.
  unfold Engine.loadFile, bind at 1, get_state. engine_step.
  unfold bind at 1, lift_outcome at 1. rewrite Hpath.
  unfold try_catch, bind, Engine.lift_os, existsSync, ret. engine_step.
  rewrite Hnone. reflexivity.
Qed.

Lemma engine_loadFile_invalid (config : Engine.ConnectConfig)
  (c : string) (e : exn) (s : Engine.state) :
  Engine.getCollectionPath config c = Throw e ->
  Engine.loadFile config c s = (Throw e, s).
Proof.
  intros Hpath. destruct s as [w cache txs].
  unfold Engine.loadFile, bind at 1, get_state. engine_step.
  unfold bind at 1, lift_outcome at 1. rewrite Hpath. reflexivity.
Qed.

(** X4. The engine's [loadFile] only reads: whatever it returns or
    throws, the file system, the clock, the random source and the
    transactions are as before; for a collection that has no file it
    returns the empty array and leaves the cache alone too. *)
Theorem engine_loadFile_only_reads (config : Engine.ConnectConfig)
  (c : string) (s s' : Engine.state) (r : outcome (list value)) :
  Engine.loadFile config c s = (r, s') ->
  Engine.world s' = Engine.world s /\
  Engine.activeTransactions s' = Engine.activeTransactions s /\
  (forall path,
      Engine.getCollectionPath config c = Ok path ->
      files (Engine.world s) !! path = None -> r = Ok [] /\ s' = s).
Proof.
  intros Hload.
  destruct (engine_loadFile_frame config c s r s' Hload) as [Hw Ht].
  split; [exact Hw|]. split; [exact Ht|].
  intros path Hpath Hnone.
  rewrite (engine_loadFile_absent config c path s Hpath Hnone) in Hload.
  injection Hload as <- <-. auto.
Qed.

(** X5. When the engine reads a collection from its file (no cache entry
    as new as the file), a file it cannot decrypt gives
    [DECRYPTION_ERROR], a text that is not JSON gives
    [DATA_CORRUPTION_ERROR], and JSON that is not an array gives
    [DATA_FORMAT_ERROR]; in each case nothing changes, the file included:
    the engine repairs nothing. *)
Theorem engine_loadFile_rejects (config : Engine.ConnectConfig)
  (c path : string) (f : file) (s : Engine.state) :
  Engine.getCollectionPath config c = Ok path ->
  files (Engine.world s) !! path = Some f ->
  cache_valid c f (Engine.cache s) = false ->
  (forall e, engine_decoded config (content f) = Throw e ->
     Engine.loadFile config c s = (Throw (TextDBXError "DECRYPTION_ERROR"), s))
  /\
  (forall text e,
     engine_decoded config (content f) = Ok text ->
     JSON_parse text = Throw e ->
     Engine.loadFile config c s =
     (Throw (TextDBXError "DATA_CORRUPTION_ERROR"), s)) /\
  (forall text v,
     engine_decoded config (content f) = Ok text ->
     JSON_parse text = Ok v -> is_array v = false ->
     Engine.loadFile config c s =
     (Throw (TextDBXError "DATA_FORMAT_ERROR"), s)).
Proof.
  intros Hpath Hf Hstale.
  pose proof (engine_loadFile_from_file config c path f s Hpath Hf Hstale)
    as Hload.
  split; [|split].
  - intros e He. rewrite Hload, He. unfold engine_decoded in He.
    destruct (is_encrypted (Engine.mode config)); [|discriminate].
    unfold Engine.decrypt in He.
    repeat match type of He with
           | context [match ?x with _ => _ end] => destruct x
           | context [if ?x then _ else _] => destruct x
           end; try discriminate; injection He as <-; reflexivity.
  - intros text e Hd Hp. rewrite Hload, Hd, Hp. reflexivity.
  - intros text v Hd Hp Hv. rewrite Hload, Hd, Hp.
    destruct v; try reflexivity. discriminate.
Qed.

(** X6. In the copy of textdbx/examples [loadFile] repairs instead: a
    file that is empty or holds white space only is rewritten with what
    [saveFile] writes for the empty array, and the load returns the empty
    array; a file whose JSON is not an array is left alone and its value
    is returned as the only record. *)
Theorem examples_loadFile_repairs (config : ConnectConfig) (c : string)
  (w : os) (f : file) :
  files w !! Examples.filePath config c = Some f ->
  (is_blank (content f) = true ->
   exists raw w',
     Examples.loadFile config c w = (Ok [], w') /\
     content <$> files w' !! Examples.filePath config c = Some raw /\
     examples_holds config raw (JSON_stringify (VArr []))) /\
  (forall text v,
     is_blank (content f) = false ->
     examples_holds config (content f) text ->
     JSON_parse text = Ok v -> is_array v = false ->
     Examples.loadFile config c w = (Ok [v], w)).
Proof.
  intros Hf. split.
  - intros Hblank.
    destruct (examples_saveFile_eq config c [] w) as [raw [Hraw [_ Hsave]]].
    exists raw, (examples_saved config c raw w).
    split; [|split; [apply examples_saved_content|exact Hraw]].
    unfold Examples.loadFile, bind, try_catch, existsSync, readFileSync.
    rewrite Hf. simpl. rewrite Hf, Hblank, Hsave. reflexivity.
  - intros text v Hblank Hholds Hparse Hv.
    rewrite (examples_loadFile_present config c w f text Hf Hblank Hholds),
      Hparse.
    destruct v; try reflexivity. discriminate.
Qed.

End Loading.

(** ** One collection and the others *)

Lemma name_char_not_dot (c : ascii) : name_char c = true -> c <> "."%char.
Proof. intros H ->. discriminate. Qed.

(** Two valid names whose file names agree up to a suffix are the same
    name. *)
Lemma tdbx_paths_apart (c c' x : string) :
  all_chars name_char c = true -> all_chars name_char c' = true ->
  c' +:+ ".tdbx" = c +:+ ".tdbx" +:+ x -> c' = c /\ x = "".
Proof.
  revert c'. induction c as [|b c IH]; intros [|a c'] Hc Hc';
    rewrite ?append_nil, ?append_cons.
  - intros H. split; [reflexivity|].
    change (".tdbx" +:+ "" = ".tdbx" +:+ x) in H.
    apply append_inj_l in H. congruence.
  - intros H. injection H as -> _. simpl in Hc'. discriminate.
  - intros H. injection H as <- _. simpl in Hc. discriminate.
  - intros H. injection H as -> H. simpl in Hc, Hc'.
    apply andb_true_iff in Hc as [_ Hc]. apply andb_true_iff in Hc' as [_ Hc'].
    destruct (IH c' Hc Hc' H) as [-> ->]. auto.
Qed.

Lemma collection_paths_apart (db c c' x : string) :
  name_regex c = true -> name_regex c' = true -> c' <> c ->
  path_join db (c' +:+ ".tdbx") <> path_join db (c +:+ ".tdbx") +:+ x.
Proof.
  unfold name_regex, path_join. intros Hc Hc' Hne H.
  apply andb_true_iff in Hc as [_ Hc]. apply andb_true_iff in Hc' as [_ Hc'].
  rewrite !append_assoc in H. do 2 apply append_inj_l in H.
  destruct (tdbx_paths_apart c c' x Hc Hc' H). contradiction.
Qed.

Section Isolation.
Context {crypto : Crypto} {json : JSON}.

Lemma engine_valid_name (config : Engine.ConnectConfig) (c path : string) :
  Engine.getCollectionPath config c = Ok path ->
  name_regex c = true /\
  path = path_join (Engine.database config) (c +:+ ".tdbx").
Proof.
  unfold Engine.getCollectionPath, Engine.validateCollectionName.
  destruct (String.eqb c ""); [discriminate|].
  destruct (name_regex c); [|discriminate]. simpl.
  destruct (64 <? String.length c)%nat; [discriminate|].
  destruct (startsWith "." c); [discriminate|]. intros [= <-]. auto.
Qed.

Lemma engine_saved_other (config : Engine.ConnectConfig)
  (path raw q : string) (w : os) :
  q <> path -> q <> path +:+ ".tmp" ->
  files (engine_saved_world config path raw w) !! q = files w !! q.
Proof.
  intros Hq Htmp. unfold engine_saved_world.
  unfold os_event at 1. cbn [files apply_event].
  rewrite written_content. rewrite lookup_insert_ne by congruence.
  rewrite lookup_delete_ne by congruence.
  rewrite written_other by exact Htmp.
  destruct (is_encrypted (Engine.mode config)); reflexivity.
Qed.

(** X7. Distinct valid collection names have distinct files, and the
    engine's [saveFile] for one collection leaves the file of every
    other collection exactly as it was, content and modification time,
    whether it returns or throws: neither the temporary file nor the
    rename ever lands on another collection. *)
Theorem engine_saveFile_isolated (config : Engine.ConnectConfig)
  (c c' path path' : string) (data : list value) (s s' : Engine.state)
  (r : outcome unit) :
  Engine.getCollectionPath config c = Ok path ->
  Engine.getCollectionPath config c' = Ok path' ->
  c' <> c ->
  Engine.saveFile config c data s = (r, s') ->
  path' <> path /\
  files (Engine.world s') !! path' = files (Engine.world s) !! path'.
Proof.
  intros Hpath Hpath' Hne Hsave.
  destruct (engine_valid_name config c path Hpath) as [Hc ->].
  destruct (engine_valid_name config c' path' Hpath') as [Hc' ->].
  pose proof (collection_paths_apart (Engine.database config) c c' ""
                Hc Hc' Hne) as H0.
  pose proof (collection_paths_apart (Engine.database config) c c' ".tmp"
                Hc Hc' Hne) as Htmp.
  assert (Hp : path_join (Engine.database config) (c' +:+ ".tdbx") <>
               path_join (Engine.database config) (c +:+ ".tdbx")).
  { intros H. apply H0. rewrite H. clear.
    induction (path_join _ _) as [|a p IH]; [reflexivity|].
    rewrite append_cons, <- IH. reflexivity. }
  split; [exact Hp|].
  destruct (engine_saveFile_eq config c data s _ Hpath) as [raw [_ Heq]].
  rewrite Heq in Hsave. cbv zeta in Hsave.
  destruct (cache_stuck config (Engine.cache s)); injection Hsave as _ <-;
    engine_step; apply engine_saved_other; assumption.
Qed.

End Isolation.

Section ExamplesIsolation.
Context {crypto : Crypto} {json : JSON}.
Variable config : ConnectConfig.

(** [saveFile] and [loadFile] for a collection touch no file whose path
    does not start with the path of the collection file. *)
Lemma examples_saveFile_other (c q : string) (data : list value)
  (w w1 : os) (r : outcome unit) :
  (forall x, q <> Examples.filePath config c +:+ x) ->
  Examples.saveFile config c data w = (r, w1) ->
  files w1 !! q = files w !! q.
Proof.
  intros Hq Hsave.
  destruct (examples_saveFile_eq config c data w) as [raw [_ [_ Heq]]].
  rewrite Heq in Hsave. injection Hsave as _ <-.
  apply examples_saved_other; [|apply Hq].
  intros H. apply (Hq ""). rewrite H. clear.
  induction (Examples.filePath config c) as [|a p IH]; [reflexivity|].
  rewrite append_cons, <- IH. reflexivity.
Qed.

Lemma examples_loadFile_other (c q : string) (w w0 : os)
  (r : outcome (list value)) :
  (forall x, q <> Examples.filePath config c +:+ x) ->
  Examples.loadFile config c w = (r, w0) ->
  files w0 !! q = files w !! q.
Proof.
  intros Hq.
  destruct (files w !! Examples.filePath config c) as [f|] eqn:Hf.
  - destruct (is_blank (content f)) eqn:Hblank.
    + unfold Examples.loadFile, bind, try_catch, existsSync, readFileSync.
      rewrite Hf. simpl. rewrite Hf, Hblank.
      destruct (Examples.saveFile config c [] w) as [[u|e] w'] eqn:Hsave;
        unfold ret; intros [= _ <-];
        apply (examples_saveFile_other c q [] w w' _ Hq Hsave).
    + destruct (if is_encrypted (mode config)
                then Examples.decrypt config (content f)
                else Ok (content f)) as [text|e] eqn:Hdecode.
      * assert (Hholds : examples_holds config (content f) text).
        { unfold examples_holds.
          destruct (is_encrypted (mode config)); congruence. }
        rewrite (examples_loadFile_present config c w f text Hf Hblank Hholds).
        destruct (JSON_parse text) as [v|e].
        -- destruct v; intros [= _ <-]; reflexivity.
        -- destruct (Examples.saveFile config c [] _) as [u w'] eqn:Hsave.
           intros [= _ <-].
           rewrite (examples_saveFile_other c q [] _ w' _ Hq Hsave).
           simpl. rewrite Hf. apply lookup_insert_ne.
           intros H. apply (Hq (".backup." +:+ pretty (now w))). auto.
      * destruct (is_encrypted (mode config)) eqn:Hmode; [|discriminate].
        unfold Examples.loadFile, bind, try_catch, existsSync, readFileSync.
        rewrite Hf. simpl. rewrite Hf, Hblank, Hmode.
        unfold lift_outcome. rewrite Hdecode. intros [= _ <-]. reflexivity.
  - unfold Examples.loadFile, bind, existsSync. rewrite Hf. simpl.
    intros [= _ <-]. reflexivity.
Qed.

Lemma examples_valid_name (c : string) :
  Examples.validateCollectionName c = Ok tt -> name_regex c = true.
Proof.
  unfold Examples.validateCollectionName.
  destruct (String.eqb c ""); [discriminate|].
  destruct (name_regex c); [reflexivity|discriminate].
Qed.

Variable auth : value.

(** X8. In the copy of textdbx/examples no operation on one collection
    changes the file of another collection with a valid name: whatever
    [queryObject], [insert], [update] and [delete] return or throw, and
    whatever repair or backup they make on the way, the other file has
    the content and the modification time it had. *)
Theorem examples_operations_isolated (c c' : string) (w w1 : os) :
  Examples.validateCollectionName c' = Ok tt -> c' <> c ->
  (forall q r,
      Examples.collection q = c ->
      Examples.queryObject config auth q w = (r, w1) ->
      files w1 !! Examples.filePath config c' =
      files w !! Examples.filePath config c') /\
  (forall record r,
      Examples.insert config auth c record w = (r, w1) ->
      files w1 !! Examples.filePath config c' =
      files w !! Examples.filePath config c') /\
  (forall filter changes r,
      Examples.update config auth c filter changes w = (r, w1) ->
      files w1 !! Examples.filePath config c' =
      files w !! Examples.filePath config c') /\
  (forall filter r,
      Examples.delete config auth c filter w = (r, w1) ->
      files w1 !! Examples.filePath config c' =
      files w !! Examples.filePath config c').
Proof.
  intros Hc' Hne. apply examples_valid_name in Hc'.
  assert (Hq : name_regex c = true ->
               forall x, Examples.filePath config c' <>
                         Examples.filePath config c +:+ x).
  { intros Hc x. apply collection_paths_apart; assumption. }
  split; [|split; [|split]].
  - intros q r <-. unfold Examples.queryObject, bind, lift_outcome.
    destruct (Examples.checkPermission config auth "query");
      [|intros [= _ <-]; reflexivity].
    destruct (Examples.validateCollectionName (Examples.collection q))
      as [[]|e0] eqn:Hc; [|intros [= _ <-]; reflexivity].
    destruct (Examples.loadFile config (Examples.collection q) w)
      as [[data|e] w0] eqn:Hload.
    + destruct (filter_rows _ data) as [kept|e];
        [destruct (map_rows _ kept)|]; intros [= _ <-];
        apply (examples_loadFile_other _ _ _ _ _ (Hq (examples_valid_name _ Hc)) Hload).
    + intros [= _ <-].
      apply (examples_loadFile_other _ _ _ _ _ (Hq (examples_valid_name _ Hc)) Hload).
  - intros record r. unfold Examples.insert, bind, lift_outcome, throw.
    destruct (Examples.checkPermission config auth "insert");
      [|intros [= _ <-]; reflexivity].
    destruct (Examples.validateCollectionName c) as [[]|e0] eqn:Hc;
      [|intros [= _ <-]; reflexivity].
    destruct (negb (truthy record) || negb (typeof_object record));
      [intros [= _ <-]; reflexivity|].
    destruct (Examples.loadFile config c w) as [[data|e] w0] eqn:Hload.
    + intros Hsave.
      rewrite (examples_saveFile_other _ _ _ _ _ _ (Hq (examples_valid_name _ Hc)) Hsave).
      apply (examples_loadFile_other _ _ _ _ _ (Hq (examples_valid_name _ Hc)) Hload).
    + intros [= _ <-].
      apply (examples_loadFile_other _ _ _ _ _ (Hq (examples_valid_name _ Hc)) Hload).
  - intros filter changes r.
    unfold Examples.update, bind, lift_outcome, throw, ret.
    destruct (Examples.checkPermission config auth "update");
      [|intros [= _ <-]; reflexivity].
    destruct (Examples.validateCollectionName c) as [[]|e0] eqn:Hc;
      [|intros [= _ <-]; reflexivity].
    destruct (negb (truthy changes) || negb (typeof_object changes));
      [intros [= _ <-]; reflexivity|].
    destruct (Examples.loadFile config c w) as [[data|e] w0] eqn:Hload.
    + destruct (Examples.update_rows filter changes data) as [rows|e].
      * destruct (Examples.saveFile config c (fst rows) w0)
          as [[u|e] w'] eqn:Hsave; intros [= _ <-];
          rewrite (examples_saveFile_other _ _ _ _ _ _ (Hq (examples_valid_name _ Hc)) Hsave);
          apply (examples_loadFile_other _ _ _ _ _ (Hq (examples_valid_name _ Hc)) Hload).
      * intros [= _ <-].
        apply (examples_loadFile_other _ _ _ _ _ (Hq (examples_valid_name _ Hc)) Hload).
    + intros [= _ <-].
      apply (examples_loadFile_other _ _ _ _ _ (Hq (examples_valid_name _ Hc)) Hload).
  - intros filter r. unfold Examples.delete, bind, lift_outcome, ret.
    destruct (Examples.checkPermission config auth "delete");
      [|intros [= _ <-]; reflexivity].
    destruct (Examples.validateCollectionName c) as [[]|e0] eqn:Hc;
      [|intros [= _ <-]; reflexivity].
    destruct (Examples.loadFile config c w) as [[data|e] w0] eqn:Hload.
    + destruct (filter_rows _ data) as [filtered|e].
      * destruct (Examples.saveFile config c filtered w0)
          as [[u|e] w'] eqn:Hsave; intros [= _ <-];
          rewrite (examples_saveFile_other _ _ _ _ _ _ (Hq (examples_valid_name _ Hc)) Hsave);
          apply (examples_loadFile_other _ _ _ _ _ (Hq (examples_valid_name _ Hc)) Hload).
      * intros [= _ <-].
        apply (examples_loadFile_other _ _ _ _ _ (Hq (examples_valid_name _ Hc)) Hload).
    + intros [= _ <-].
      apply (examples_loadFile_other _ _ _ _ _ (Hq (examples_valid_name _ Hc)) Hload).
Qed.

End ExamplesIsolation.

(** ** The cache of the engine *)

Lemma map_set_length {V} (m : list (string * V)) (k : string) (v : V) :
  length (map_set m k v) =
  match map_get m k with
  | Some _ => length m
  | None => S (length m)
  end.
Proof.
  induction m as [|[k' v'] m IH]; simpl; [reflexivity|].
  destruct (String.eqb k' k); simpl; [reflexivity|].
  rewrite IH. destruct (map_get m k); reflexivity.
Qed.

Lemma map_delete_length {V} (m : list (string * V)) (k : string) :
  In k (map fst m) -> S (length (map_delete m k)) = length m.
Proof.
  induction m as [|[k' v'] m IH]; simpl; [tauto|].
  destruct (String.eqb_spec k' k) as [->|Hne]; [reflexivity|].
  intros [H|H]; [contradiction|]. simpl. rewrite (IH H). reflexivity.
Qed.

(** The key that [updateCache] evicts belongs to an entry of the cache
    that no other entry was accessed before. *)
Lemma oldest_from_least (best : string * Engine.CacheEntry)
  (entries : list (string * Engine.CacheEntry)) :
  exists e,
    In (Engine.oldest_from best entries, e) (best :: entries) /\
    forall x, In x (best :: entries) ->
              Engine.lastAccessed e <= Engine.lastAccessed (snd x).
Proof.
  revert best. induction entries as [|y entries IH]; intros best.
  - exists (snd best). split; [left; destruct best; reflexivity|].
    intros x [<-|[]]. lia.
  - cbn [Engine.oldest_from].
    destruct (Z.ltb_spec (Engine.lastAccessed (snd y))
                (Engine.lastAccessed (snd best))) as [Hlt|Hge].
    + destruct (IH y) as [e [Hin Hmin]]. exists e. split.
      * right. exact Hin.
      * intros x [<-|Hx]; [|apply Hmin, Hx].
        specialize (Hmin y (or_introl eq_refl)). lia.
    + destruct (IH best) as [e [Hin Hmin]]. exists e. split.
      * destruct Hin as [Hin|Hin]; [left; exact Hin|right; right; exact Hin].
      * intros x [<-|[<-|Hx]].
        -- apply Hmin. left. reflexivity.
        -- specialize (Hmin best (or_introl eq_refl)). lia.
        -- apply Hmin. right. exact Hx.
Qed.

Section Cache.
Context {crypto : Crypto} {json : JSON}.
Variable config : Engine.ConnectConfig.

(** X9. [updateCache] on a full cache evicts one entry, and it is a least
    recently accessed one: no entry of the cache has a smaller
    [lastAccessed]. Below the limit nothing is evicted. In both cases the
    collection then has a fresh entry with [accessCount] 1. *)
Theorem updateCache_evicts_least_recent (c : string) (data : list value)
  (lm : Z) (s : Engine.state) :
  Engine.cache s <> [] ->
  exists cache',
    Engine.updateCache config c data lm s =
    (Ok tt, {| Engine.world := Engine.world s; Engine.cache := cache';
               Engine.activeTransactions := Engine.activeTransactions s |}) /\
    map_get cache' c =
    Some {| Engine.data := data; Engine.lastModified := lm;
            Engine.accessCount := 1;
            Engine.lastAccessed := now (Engine.world s) |} /\
    (Z.of_nat (length (Engine.cache s)) < Engine.cache_limit config ->
     cache' = map_set (Engine.cache s) c
                {| Engine.data := data; Engine.lastModified := lm;
                   Engine.accessCount := 1;
                   Engine.lastAccessed := now (Engine.world s) |}) /\
    (Engine.cache_limit config <= Z.of_nat (length (Engine.cache s)) ->
     exists k e,
       In (k, e) (Engine.cache s) /\
       (forall x, In x (Engine.cache s) ->
                  Engine.lastAccessed e <= Engine.lastAccessed (snd x)) /\
       cache' = map_set (map_delete (Engine.cache s) k) c
                  {| Engine.data := data; Engine.lastModified := lm;
                     Engine.accessCount := 1;
                     Engine.lastAccessed := now (Engine.world s) |}).
Proof.
  intros Hne. rewrite engine_updateCache_eq.
  assert (Hstuck : cache_stuck config (Engine.cache s) = false).
  { unfold cache_stuck. destruct (Engine.cache s); [congruence|].
    apply andb_false_r. }
  rewrite Hstuck. eexists. split; [reflexivity|].
  unfold cache_updated. split; [apply map_get_set_eq|]. split.
  - intros Hlt. apply Z.leb_gt in Hlt. rewrite Hlt. reflexivity.
  - intros Hge. apply Z.leb_le in Hge. rewrite Hge.
    destruct (Engine.cache s) as [|best entries]; [congruence|].
    destruct (oldest_from_least best entries) as [e [Hin Hmin]].
    exists (Engine.oldest_from best entries), e. auto.
Qed.

(** The number of entries stays within the limit. *)
Definition cache_within_limit (s : Engine.state) : Prop :=
  Z.of_nat (length (Engine.cache s)) <= Engine.cache_limit config.

Lemma cache_updated_within_limit (c : string) (data : list value)
  (lm t : Z) (cache : list (string * Engine.CacheEntry)) :
  Z.of_nat (length cache) <= Engine.cache_limit config ->
  0 < Engine.cache_limit config ->
  Z.of_nat (length (cache_updated config c data lm t cache)) <=
  Engine.cache_limit config.
Proof.
  intros Hle Hpos. unfold cache_updated. rewrite map_set_length.
  destruct (Z.leb_spec (Engine.cache_limit config) (Z.of_nat (length cache)))
    as [Hfull|Hroom].
  - destruct cache as [|best entries]; [simpl in *; lia|].
    destruct (oldest_from_least best entries) as [e [Hin _]].
    pose proof (map_delete_length (best :: entries)
                  (Engine.oldest_from best entries)) as Hdel.
    assert (Hkey : In (Engine.oldest_from best entries)
                     (map fst (best :: entries))).
    { apply in_map_iff. exists (Engine.oldest_from best entries, e). auto. }
    specialize (Hdel Hkey).
    destruct (map_get _ c); lia.
  - destruct (map_get cache c); lia.
Qed.

Lemma cache_limit_positive :
  0 <= Engine.maxCacheSize config -> 0 < Engine.cache_limit config.
Proof.
  unfold Engine.cache_limit. intros H.
  destruct (Z.eqb_spec (Engine.maxCacheSize config) 0); lia.
Qed.

End Cache.

Section CacheBound.
Context {crypto : Crypto} {json : JSON}.
Variable config : Engine.ConnectConfig.
Hypothesis Hmax : 0 <= Engine.maxCacheSize config.

Lemma updateCache_within_limit (c : string) (data : list value) (lm : Z)
  (s s' : Engine.state) (r : outcome unit) :
  cache_within_limit config s ->
  Engine.updateCache config c data lm s = (r, s') ->
  cache_within_limit config s'.
Proof.
  unfold cache_within_limit. intros Hle. rewrite engine_updateCache_eq.
  destruct (cache_stuck config (Engine.cache s)); intros [= _ <-];
    [exact Hle|].
  engine_step. apply cache_updated_within_limit;
    [exact Hle|apply cache_limit_positive, Hmax].
Qed.

Lemma loadFile_within_limit (c : string) (s s' : Engine.state)
  (r : outcome (list value)) :
  cache_within_limit config s ->
  Engine.loadFile config c s = (r, s') ->
  cache_within_limit config s'.
Proof.
  intros Hle.
  destruct (Engine.getCollectionPath config c) as [path|e] eqn:Hpath;
    [|rewrite (engine_loadFile_invalid config c e s Hpath);
      intros [= _ <-]; exact Hle].
  destruct (files (Engine.world s) !! path) as [f|] eqn:Hf;
    [|rewrite (engine_loadFile_absent config c path s Hpath Hf);
      intros [= _ <-]; exact Hle].
  destruct (cache_valid c f (Engine.cache s)) eqn:Hvalid.
  - unfold cache_valid in Hvalid.
    destruct (map_get (Engine.cache s) c) as [entry|] eqn:Hentry;
      [|discriminate].
    apply Z.leb_le in Hvalid.
    rewrite (engine_loadFile_hit config c s path f entry Hpath Hf Hentry
               Hvalid).
    intros [= _ <-]. unfold cache_within_limit in *. engine_step.
    rewrite map_set_length, Hentry. exact Hle.
  - rewrite (engine_loadFile_from_file config c path f s Hpath Hf Hvalid).
    destruct (engine_decoded config (content f)) as [text|e];
      [|intros [= _ <-]; exact Hle].
    destruct (JSON_parse text) as [v|e]; [|intros [= _ <-]; exact Hle].
    destruct v; try (intros [= _ <-]; exact Hle).
    destruct (Engine.updateCache config c items (mtime f) s)
      as [[u|e] s1] eqn:Hupd; intros [= _ <-];
      apply (updateCache_within_limit _ _ _ _ _ _ Hle Hupd).
Qed.

Lemma saveFile_within_limit (c : string) (data : list value)
  (s s' : Engine.state) (r : outcome unit) :
  cache_within_limit config s ->
  Engine.saveFile config c data s = (r, s') ->
  cache_within_limit config s'.
Proof.
  intros Hle.
  destruct (Engine.getCollectionPath config c) as [path|e] eqn:Hpath.
  - destruct (engine_saveFile_eq config c data s path Hpath)
      as [raw [_ Heq]].
    rewrite Heq. cbv zeta. unfold cache_within_limit in *.
    destruct (cache_stuck config (Engine.cache s)); intros [= _ <-];
      engine_step; [exact Hle|].
    apply cache_updated_within_limit;
      [exact Hle|apply cache_limit_positive, Hmax].
  - unfold Engine.saveFile, bind, lift_outcome. rewrite Hpath.
    intros [= _ <-]. exact Hle.
Qed.

Variable auth : value.

(** X10. With a [maxCacheSize] that is not negative, the cache never
    grows beyond its limit ([maxCacheSize], or 100 when that is 0):
    [updateCache], [loadFile], [saveFile] and [insert] keep the number of
    entries within the limit, whether they return or throw. *)
Theorem cache_stays_within_limit (s : Engine.state) :
  Z.of_nat (length (Engine.cache s)) <= Engine.cache_limit config ->
  (forall c data lm r s',
     Engine.updateCache config c data lm s = (r, s') ->
     Z.of_nat (length (Engine.cache s')) <= Engine.cache_limit config) /\
  (forall c r s',
     Engine.loadFile config c s = (r, s') ->
     Z.of_nat (length (Engine.cache s')) <= Engine.cache_limit config) /\
  (forall c data r s',
     Engine.saveFile config c data s = (r, s') ->
     Z.of_nat (length (Engine.cache s')) <= Engine.cache_limit config) /\
  (forall c record r s',
     Engine.insert config auth c record s = (r, s') ->
     Z.of_nat (length (Engine.cache s')) <= Engine.cache_limit config).
Proof.
  intros Hle. split; [|split; [|split]].
  - intros c data lm r s'. apply (updateCache_within_limit c data lm s s' r Hle).
  - intros c r s'. apply (loadFile_within_limit c s s' r Hle).
  - intros c data r s'. apply (saveFile_within_limit c data s s' r Hle).
  - intros c record r s'. unfold Engine.insert, bind at 1, lift_outcome at 1.
    destruct (Engine.checkPermission config auth "insert");
      [|intros [= _ <-]; exact Hle].
    unfold Engine.insertInternal, bind.
    destruct (Engine.loadFile config c s) as [[data|e] s1] eqn:Hload.
    + intros Hsave.
      apply (saveFile_within_limit c _ s1 s' r
               (loadFile_within_limit c s s1 _ Hle Hload) Hsave).
    + intros [= _ <-]. apply (loadFile_within_limit c s s1 _ Hle Hload).
Qed.

End CacheBound.

(** ** The filter language of the engine *)

Lemma every_map {A B} (g : B -> outcome bool) (h : A -> B) (l : list A) :
  every g (map h l) = every (fun x => g (h x)) l.
Proof.
  induction l as [|x l IH]; simpl; [reflexivity|].
  destruct (g (h x)) as [[|]|]; auto.
Qed.

Lemma some_map {A B} (g : B -> outcome bool) (h : A -> B) (l : list A) :
  some g (map h l) = some (fun x => g (h x)) l.
Proof.
  induction l as [|x l IH]; simpl; [reflexivity|].
  destruct (g (h x)) as [[|]|]; auto.
Qed.

Lemma every_negb_some {A} (g : A -> outcome bool) (l : list A) :
  every (fun x => outcome_map negb (g x)) l = outcome_map negb (some g l).
Proof.
  induction l as [|x l IH]; simpl; [reflexivity|].
  destruct (g x) as [[|]|]; simpl; auto.
Qed.

Lemma some_negb_every {A} (g : A -> outcome bool) (l : list A) :
  some (fun x => outcome_map negb (g x)) l = outcome_map negb (every g l).
Proof.
  induction l as [|x l IH]; simpl; [reflexivity|].
  destruct (g x) as [[|]|]; simpl; auto.
Qed.

Lemma filter_error_negb (r : outcome bool) :
  Engine.filter_error (outcome_map negb (Engine.filter_error r)) =
  Engine.filter_error (outcome_map negb r).
Proof. destruct r; reflexivity. Qed.

Lemma matchFilter_and (row : value) (fs : list value) :
  Engine.matchFilter row (VObj [("$and", VArr fs)]) =
  Engine.filter_error (every (Engine.matchFilter row) fs).
Proof. rewrite matchFilter_unfold. reflexivity. Qed.

Lemma matchFilter_or (row : value) (fs : list value) :
  Engine.matchFilter row (VObj [("$or", VArr fs)]) =
  Engine.filter_error (some (Engine.matchFilter row) fs).
Proof. rewrite matchFilter_unfold. reflexivity. Qed.

Lemma every_ext {A} (g h : A -> outcome bool) (l : list A) :
  (forall x, g x = h x) -> every g l = every h l.
Proof.
  intros H. induction l as [|x l IH]; simpl; [reflexivity|].
  rewrite H, IH. reflexivity.
Qed.

Lemma some_ext {A} (g h : A -> outcome bool) (l : list A) :
  (forall x, g x = h x) -> some g l = some h l.
Proof.
  intros H. induction l as [|x l IH]; simpl; [reflexivity|].
  rewrite H, IH. reflexivity.
Qed.

(** The filter [{$not: F}]. *)
Definition f_not (F : props) : value := VObj [("$not", VObj F)].

(** X11. De Morgan's laws hold for the filters of the engine, errors
    included: [{$not: {$or: [F1, ..., Fn]}}] and
    [{$and: [{$not: F1}, ..., {$not: Fn}]}] give the same answer or both
    fail with [FILTER_ERROR] on every record, and so do
    [{$not: {$and: [...]}}] and [{$or: [{$not: F1}, ...]}]; a double
    negation [{$not: {$not: F}}] is [F]. *)
Theorem matchFilter_de_morgan (row : value) (fs : list props) (F : props) :
  Engine.matchFilter row (VObj [("$not", VObj [("$or", VArr (map VObj fs))])])
  = Engine.matchFilter row (VObj [("$and", VArr (map f_not fs))]) /\
  Engine.matchFilter row (VObj [("$not", VObj [("$and", VArr (map VObj fs))])])
  = Engine.matchFilter row (VObj [("$or", VArr (map f_not fs))]) /\
  Engine.matchFilter row (f_not [("$not", VObj F)]) =
  Engine.matchFilter row (VObj F).
Proof.
  assert (Hnot : forall G, Engine.matchFilter row (f_not G) =
                           outcome_map negb (Engine.matchFilter row (VObj G))).
  { intros G. apply matchFilter_not_truthy. reflexivity. }
  split; [|split].
  - rewrite matchFilter_not_truthy by reflexivity.
    rewrite matchFilter_and, matchFilter_or, every_map, some_map.
    rewrite (every_ext _ _ fs Hnot).
    rewrite every_negb_some.
    destruct (some _ fs) as [[|]|]; reflexivity.
  - rewrite matchFilter_not_truthy by reflexivity.
    rewrite matchFilter_and, matchFilter_or, every_map, some_map.
    rewrite (some_ext _ _ fs Hnot).
    rewrite some_negb_every.
    destruct (every _ fs) as [[|]|]; reflexivity.
  - rewrite Hnot. unfold f_not. rewrite matchFilter_not_truthy by reflexivity.
    destruct (Engine.matchFilter row (VObj F)) as [[|]|e]; reflexivity.
Qed.

Lemma every_dollar_keys (row : value) (o : props) :
  (forall k, In k (obj_keys o) -> startsWith "$" k = true) ->
  every (Engine.field_matches row) o = Ok true.
Proof.
  unfold obj_keys. induction o as [|[k v] o IH]; intros Hkeys;
    [reflexivity|].
  cbn [every]. unfold Engine.field_matches at 1. cbn [fst snd].
  rewrite (Hkeys k) by (left; reflexivity).
  apply IH. intros k' Hk'. apply Hkeys. right. exact Hk'.
Qed.

(** X12. A logical operator hides everything else in its filter: a
    filter with a [$and] matches exactly as the filter with that [$and]
    alone, otherwise one with an [$or] as that [$or] alone, otherwise one
    with a [$not] as that [$not] alone; field conditions beside them are
    never looked at. A filter that has only other keys starting with [$]
    matches every record. *)
Theorem logical_operator_hides_fields (row : value) (o : props) :
  (truthy (obj_get o "$and") = true ->
   Engine.matchFilter row (VObj o) =
   Engine.matchFilter row (VObj [("$and", obj_get o "$and")])) /\
  (truthy (obj_get o "$and") = false -> truthy (obj_get o "$or") = true ->
   Engine.matchFilter row (VObj o) =
   Engine.matchFilter row (VObj [("$or", obj_get o "$or")])) /\
  (truthy (obj_get o "$and") = false -> truthy (obj_get o "$or") = false ->
   truthy (obj_get o "$not") = true ->
   Engine.matchFilter row (VObj o) =
   Engine.matchFilter row (VObj [("$not", obj_get o "$not")])) /\
  (truthy (obj_get o "$and") = false -> truthy (obj_get o "$or") = false ->
   truthy (obj_get o "$not") = false ->
   (forall k, In k (obj_keys o) -> startsWith "$" k = true) ->
   Engine.matchFilter row (VObj o) = Ok true).
Proof.
  assert (Hm : forall k, array_index k = None -> String.eqb k "length" = false
                         -> member (VObj o) k = obj_get o k).
  { intros k Hi Hl. apply (member_plain_key (VObj o) k Hi Hl). }
  split; [|split; [|split]].
  - intros Hand. rewrite !(matchFilter_unfold row (VObj _)).
    rewrite (Hm "$and") by reflexivity. cbn. rewrite Hand. reflexivity.
  - intros Hand Hor. rewrite !(matchFilter_unfold row (VObj _)).
    rewrite (Hm "$and"), (Hm "$or") by reflexivity. cbn.
    rewrite Hand, Hor. reflexivity.
  - intros Hand Hor Hnot. rewrite !(matchFilter_unfold row (VObj _)).
    rewrite (Hm "$and"), (Hm "$or"), (Hm "$not") by reflexivity. cbn.
    rewrite Hand, Hor, Hnot. reflexivity.
  - intros Hand Hor Hnot Hkeys. rewrite matchFilter_unfold.
    rewrite (Hm "$and"), (Hm "$or"), (Hm "$not") by reflexivity.
    rewrite Hand, Hor, Hnot. cbn [truthy negb enum_props].
    rewrite (every_dollar_keys row o Hkeys). reflexivity.
Qed.



(** ** The filters of the two earlier copies *)

(** X14. The matcher of textdbx/examples extends that of textdbx/src:
    whenever the older one returns, the newer one returns the same; and
    they agree on every filter in which no condition is [null] (where
    the older one throws a [TypeError] on reading [null.$contains]). *)
Theorem examples_matchFilter_extends_basic (row filter : value) :
  (forall b, Basic.matchFilter row filter = Ok b ->
             Examples.matchFilter row filter = Ok b) /\
  ((forall kv, In kv (enum_props filter) -> snd kv <> VNull) ->
   Basic.matchFilter row filter = Examples.matchFilter row filter).
Proof.
  unfold Basic.matchFilter, Examples.matchFilter.
  destruct (negb (truthy filter)); [split; auto|].
  induction (enum_props filter) as [|[k v] l [IH1 IH2]]; [split; auto|].
  cbn [every fst snd].
  assert (Hv : v <> VNull ->
    (if typeof_object v then outcome_map truthy (get_prop v "$contains")
     else Ok false) =
    Ok (typeof_object v && negb (is_null v) &&
        truthy (member v "$contains"))).
  { intros Hv. unfold member. destruct v; try reflexivity; congruence. }
  split.
  - intros b. destruct v; try (rewrite Hv by discriminate);
      try (destruct (_ && _ && _);
           destruct (get_prop row k) as [[]|]; try discriminate;
           try (destruct (arr_includes _ _)); try (destruct (strict_eq _ _));
           auto; apply IH1);
      try (simpl; discriminate).
  - intros Hall. rewrite Hv by (apply (Hall (k, v)); left; reflexivity).
    destruct (_ && _ && _);
      destruct (get_prop row k) as [[]|]; try reflexivity;
      try (destruct (arr_includes _ _)); try (destruct (strict_eq _ _));
      try reflexivity; apply IH2; intros kv Hkv; apply Hall; right; exact Hkv.
Qed.

(** ** Reading back what was written, in textdbx/examples *)

Lemma json_value_array (items : list value) :
  json_value (VArr items) <-> Forall json_value items.
Proof.
  simpl. induction items as [|x items IH]; simpl.
  - split; [constructor|trivial].
  - rewrite List.Forall_cons_iff. tauto.
Qed.

(** [filter_rows] when no call of the predicate throws. *)
Lemma filter_rows_ok {A} (f : A -> outcome bool) (l kept : list A) :
  filter_rows f l = Ok kept ->
  kept = List.filter (fun x => match f x with Ok true => true | _ => false end)
           l /\
  forall x, In x l -> exists b, f x = Ok b.
Proof.
  revert kept. induction l as [|x l IH]; simpl; intros kept.
  - intros [= <-]. split; [reflexivity|]. intros x [].
  - destruct (f x) as [b|e] eqn:Hx; [|discriminate].
    destruct (filter_rows f l) as [l'|e]; [|discriminate].
    destruct (IH l' eq_refl) as [-> Hall]. intros [= <-]. split.
    + destruct b; reflexivity.
    + intros y [<-|Hy]; eauto.
Qed.



Section ReadBack.
Context {crypto : Crypto} {json : JSON}.
Variable config : ConnectConfig.
Variable auth : value.
Hypothesis Hquery : Examples.checkPermission config auth "query" = Ok tt.

Lemma examples_query_all (c : string) (w w0 : os) (data : list value) :
  Examples.validateCollectionName c = Ok tt ->
  Examples.loadFile config c w = (Ok data, w0) ->
  Examples.queryObject config auth
    {| Examples.collection := c; Examples.filter := VUndef;
       Examples.fields := None |} w = (Ok data, w0).
Proof.
  intros Hname Hload. unfold Examples.queryObject, bind, lift_outcome.
  simpl. rewrite Hquery, Hname, Hload.
  rewrite filter_rows_all by (intros row; reflexivity).
  simpl. rewrite map_rows_id. reflexivity.
Qed.

(** X15. [insert] puts the record at the end of the collection and keeps
    the records before it in their order: a query without filter right
    after a successful insert returns the earlier records followed by the
    new one. *)
Theorem examples_insert_appends (c : string) (record : value)
  (data : list value) (w w0 : os) :
  Examples.checkPermission config auth "insert" = Ok tt ->
  Examples.validateCollectionName c = Ok tt ->
  truthy record = true -> typeof_object record = true ->
  json_value record ->
  Examples.loadFile config c w = (Ok data, w0) ->
  json_value (VArr data) ->
  exists w1,
    Examples.insert config auth c record w = (Ok tt, w1) /\
    Examples.queryObject config auth
      {| Examples.collection := c; Examples.filter := VUndef;
         Examples.fields := None |} w1 = (Ok (data ++ [record]), w1).
Proof.
  intros Hperm Hname Htruthy Hobject Hrecord Hload Hdata.
  assert (HR : json_value (VArr (data ++ [record]))).
  { apply json_value_array, Forall_app. split;
      [apply json_value_array, Hdata|repeat constructor; exact Hrecord]. }
  destruct (examples_load_save config c _ w0 HR) as [w1 [Hsave Hload1]].
  exists w1. split.
  - unfold Examples.insert, bind, lift_outcome.
    rewrite Hperm, Hname, Htruthy, Hobject. simpl. rewrite Hload.
    exact Hsave.
  - apply examples_query_all; assumption.
Qed.


Lemma Forall2_with_left {A B} (P : A -> Prop) (R : A -> B -> Prop)
  (l : list A) (l' : list B) :
  Forall P l -> Forall2 R l l' -> Forall2 (fun x y => P x /\ R x y) l l'.
Proof.
  intros HP HR. induction HR as [|x y l l' Hxy HR IH]; [constructor|].
  inversion HP; subst. constructor; auto.
Qed.

(** On records neither the matcher of textdbx/examples nor the merge
    throws: the loop of [update] comes to its end. *)
Lemma every_returns {A} (f : A -> outcome bool) (items : list A) :
  (forall x, In x items -> exists b, f x = Ok b) ->
  exists b, every f items = Ok b.
Proof.
  induction items as [|x items IH]; intros H; simpl; [eauto|].
  destruct (H x (or_introl eq_refl)) as [[|] ->]; [|eauto].
  apply IH. intros y Hy. apply H. right. exact Hy.
Qed.

Lemma examples_matchFilter_record (o : props) (filter : value) :
  exists b, Examples.matchFilter (VObj o) filter = Ok b.
Proof.
  unfold Examples.matchFilter. destruct (negb (truthy filter)); [eauto|].
  apply every_returns. intros [key val] _. cbn [fst snd get_prop].
  destruct (typeof_object val && negb (is_null val)
            && truthy (member val "$contains")); [|eauto].
  destruct (obj_get o key); eauto.
Qed.

Lemma update_rows_records (filter changes : value) (data : list value) :
  Forall (fun row => is_record row = true) data ->
  exists rows n, Examples.update_rows filter changes data = Ok (rows, n).
Proof.
  induction 1 as [|row data Hrow _ IH]; simpl; [eauto|].
  destruct row as [| | | | | |o]; try discriminate.
  destruct (examples_matchFilter_record o filter) as [hit ->].
  destruct IH as [rows [n ->]]. destruct hit; cbn; eauto.
Qed.

(** What the loop of [update] does to each row. *)
Lemma update_rows_spec (filter changes : value) (data rows : list value)
  (n : Z) :
  Examples.update_rows filter changes data = Ok (rows, n) ->
  Forall2 (fun row row' =>
             match Examples.matchFilter row filter with
             | Ok true => object_assign row changes = Ok row'
             | _ => row' = row
             end) data rows /\
  n = Z.of_nat
        (length (List.filter
                   (fun row => match Examples.matchFilter row filter with
                               | Ok true => true
                               | _ => false
                               end) data)).
Proof.
  revert rows n. induction data as [|row data IH]; simpl; intros rows n.
  - intros [= <- <-]. split; [constructor|reflexivity].
  - destruct (Examples.matchFilter row filter) as [hit|e] eqn:Hm;
      [|discriminate].
    destruct (if hit then object_assign row changes else Ok row)
      as [row'|e] eqn:Hrow; [|discriminate].
    destruct (Examples.update_rows filter changes data) as [[rows0 n0]|e];
      [|discriminate].
    destruct (IH rows0 n0 eq_refl) as [Hall Hn]. intros [= <- <-].
    destruct hit; cbv beta iota in Hrow;
      (split; [constructor; [rewrite Hm; congruence|exact Hall]|]);
      simpl; rewrite ?Hm; simpl; lia.
Qed.

(** [Object.assign] on a record: the fields of [changes] get their new
    values, the other fields keep theirs. *)
Lemma object_assign_fields (o ch : props) :
  List.NoDup (obj_keys ch) ->
  exists o',
    object_assign (VObj o) (VObj ch) = Ok (VObj o') /\
    forall k, obj_get o' k = if obj_has ch k then obj_get ch k
                             else obj_get o k.
Proof.
  intros Hnd. unfold object_assign. cbn [enum_props]. eexists.
  split; [reflexivity|]. revert o Hnd.
  induction ch as [|[k0 v0] ch IH]; intros o Hnd k; [reflexivity|].
  cbn [fold_left fst snd obj_has obj_get]. inversion Hnd as [|? ? Hnot Hnd'].
  subst. rewrite (IH _ Hnd' k).
  destruct (String.eqb_spec k0 k) as [->|Hne]; cbn [orb].
  - destruct (obj_has ch k) eqn:Hhas;
      [apply obj_has_keys in Hhas; contradiction|apply obj_get_set_eq].
  - destruct (obj_has ch k); [reflexivity|].
    apply obj_get_set_ne. congruence.
Qed.

(** X17. Where the stored rows are records, the filter names no property
    that every object inherits and the changes have no key [__proto__],
    [update] succeeds: it merges the changes into exactly the records
    that the filter matches, field by field, leaves the others as they
    are, keeps the number and the order of the records, and returns how
    many it changed; the file then holds the new records. Where rows
    are records or [null] and the loop throws, as it does on [null],
    [update] throws and nothing is written. *)
Theorem examples_update_merges (c : string) (filter : value) (ch : props)
  (data : list value) (w w0 : os) :
  Examples.checkPermission config auth "update" = Ok tt ->
  Examples.validateCollectionName c = Ok tt ->
  List.NoDup (obj_keys ch) ->
  Examples.loadFile config c w = (Ok data, w0) ->
  (Forall (fun row => is_record row = true) data ->
   plain_names filter = true ->
   obj_has ch "__proto__" = false ->
   exists rows n raw w1,
     Examples.update config auth c filter (VObj ch) w = (Ok n, w1) /\
     content <$> files w1 !! Examples.filePath config c = Some raw /\
     examples_holds config raw (JSON_stringify (VArr rows)) /\
     (json_value (VArr rows) ->
      Examples.loadFile config c w1 = (Ok rows, w1)) /\
     n = Z.of_nat
           (length (List.filter
                      (fun row =>
                         match Examples.matchFilter row filter with
                         | Ok true => true
                         | _ => false
                         end) data)) /\
     Forall2
       (fun row row' =>
          match Examples.matchFilter row filter with
          | Ok true =>
              exists o o', row = VObj o /\ row' = VObj o' /\
                forall k, obj_get o' k = if obj_has ch k then obj_get ch k
                                         else obj_get o k
          | _ => row' = row
          end) data rows) /\
  (Forall (fun row => is_record row = true \/ row = VNull) data ->
   forall e,
     Examples.update_rows filter (VObj ch) data = Throw e ->
     Examples.update config auth c filter (VObj ch) w = (Throw e, w0)).
Proof.
  intros Hperm Hname Hnd Hload. split.
  - intros Hrec _ _.
    destruct (update_rows_records filter (VObj ch) data Hrec)
      as [rows [n Hrows]].
    exists rows, n.
    destruct (examples_saveFile_eq config c rows w0) as [raw [Hraw [Hb Hsave]]].
    exists raw, (examples_saved config c raw w0).
    destruct (update_rows_spec _ _ _ _ _ Hrows) as [Hall Hn].
    split; [|split; [apply examples_saved_content|split; [exact Hraw|]]].
    + unfold Examples.update, bind, lift_outcome, ret.
      rewrite Hperm, Hname. simpl. rewrite Hload, Hrows. simpl.
      rewrite Hsave. reflexivity.
    + split; [|split; [exact Hn|]].
      * intros HR.
        destruct (examples_load_save config c rows w0 HR) as [w1 [Hs Hl]].
        rewrite Hsave in Hs. injection Hs as <-. exact Hl.
      * eapply Forall2_impl; [exact (Forall2_with_left _ _ _ _ Hrec Hall)|].
        intros row row' [Hrow Hstep]. cbv beta in *.
        destruct (Examples.matchFilter row filter) as [[|]|]; auto.
        destruct row as [| | | | | |o]; try discriminate.
        destruct (object_assign_fields o ch Hnd) as [o' [Ho' Hget]].
        rewrite Ho' in Hstep. injection Hstep as <-. eauto.
  - intros _ e He. unfold Examples.update, bind, lift_outcome.
    rewrite Hperm, Hname. simpl. rewrite Hload, He. reflexivity.
Qed.

End ReadBack.

(** ** The guards *)

Lemma arr_includes_str (items : list value) (a : string) :
  arr_includes items (VStr a) = true <-> In (VStr a) items.
Proof.
  unfold arr_includes. rewrite existsb_exists. split.
  - intros [y [Hin Heq]]. destruct y; try discriminate.
    apply String.eqb_eq in Heq. subst. exact Hin.
  - intros Hin. exists (VStr a). split; [exact Hin|apply String.eqb_refl].
Qed.

Section Guards.
Context {crypto : Crypto} {json : JSON}.

(** X18. The permission check of textdbx/examples and that of the
    engine read the auth document the same way: a role whose entry is an
    array of actions may do exactly the actions listed, and a role
    without an entry may do nothing. The engine then throws
    [PERMISSION_DENIED], unless the role is named like a property that
    every object inherits ([toString], [constructor], ...): there the
    call of [includes] fails and the engine throws a [TypeError]. *)
Theorem checkPermission_reads_auth (config : ConnectConfig)
  (econfig : Engine.ConnectConfig) (roles : props) (action : string) :
  (forall acts,
     obj_get roles (role config) = VArr acts ->
     (Examples.checkPermission config (VObj roles) action = Ok tt <->
      In (VStr action) acts)) /\
  (forall acts,
     obj_get roles (Engine.role econfig) = VArr acts ->
     (Engine.checkPermission econfig (VObj roles) action = Ok tt <->
      In (VStr action) acts) /\
     (~ In (VStr action) acts ->
      Engine.checkPermission econfig (VObj roles) action =
      Throw (TextDBXError "PERMISSION_DENIED"))) /\
  (obj_has roles (role config) = false ->
   Examples.checkPermission config (VObj roles) action = Throw JsError) /\
  (obj_has roles (Engine.role econfig) = false ->
   Engine.checkPermission econfig (VObj roles) action =
   if inherited_name (Engine.role econfig) then Throw JsError
   else Throw (TextDBXError "PERMISSION_DENIED")).
Proof.
  unfold Examples.checkPermission, Engine.checkPermission.
  cbn [get_prop inherits].
  split; [|split; [|split]].
  - intros acts ->. cbn. rewrite <- arr_includes_str.
    destruct (arr_includes acts (VStr action)); split; congruence.
  - intros acts Hacts.
    destruct (obj_has roles (Engine.role econfig)) eqn:Hhas;
      [|rewrite (obj_get_absent _ _ Hhas) in Hacts; discriminate].
    rewrite Hacts. cbn. rewrite <- arr_includes_str.
    destruct (arr_includes acts (VStr action)); repeat split; congruence.
  - intros H. rewrite (obj_get_absent _ _ H). reflexivity.
  - intros H. rewrite H, (obj_get_absent _ _ H). cbn [negb andb].
    destruct (inherited_name (Engine.role econfig)); reflexivity.
Qed.

(** X19. In the copy of textdbx/examples the guards come before any
    access to the file system: an operation that the role may not do, or
    on a collection name that is not valid, or an [insert] or [update]
    given something that is not an object, throws and leaves every file
    as it was; not even the repair of [loadFile] happens. *)
Theorem examples_guards_come_first (config : ConnectConfig) (auth : value)
  (c : string) (w : os) :
  let refused (action : string) :=
    Examples.checkPermission config auth action <> Ok tt \/
    Examples.validateCollectionName c <> Ok tt in
  (forall q, Examples.collection q = c -> refused "query" ->
     exists e, Examples.queryObject config auth q w = (Throw e, w)) /\
  (forall record,
     refused "insert" \/ truthy record = false \/
     typeof_object record = false ->
     exists e, Examples.insert config auth c record w = (Throw e, w)) /\
  (forall filter changes,
     refused "update" \/ truthy changes = false \/
     typeof_object changes = false ->
     exists e,
       Examples.update config auth c filter changes w = (Throw e, w)) /\
  (forall filter, refused "delete" ->
     exists e, Examples.delete config auth c filter w = (Throw e, w)).
Proof.
  intros refused. subst refused. cbv beta.
  split; [|split; [|split]].
  - intros q <- H. unfold Examples.queryObject, bind, lift_outcome.
    destruct (Examples.checkPermission config auth "query") as [[]|e];
      [|eauto].
    destruct (Examples.validateCollectionName (Examples.collection q))
      as [[]|e]; [|eauto].
    destruct H; congruence.
  - intros record H. unfold Examples.insert, bind, lift_outcome, throw.
    destruct (Examples.checkPermission config auth "insert") as [[]|e];
      [|eauto].
    destruct (Examples.validateCollectionName c) as [[]|e]; [|eauto].
    destruct H as [[H|H]|[->| ->]]; try congruence;
      rewrite ?orb_true_r; simpl; eauto.
  - intros filter changes H.
    unfold Examples.update, bind, lift_outcome, throw.
    destruct (Examples.checkPermission config auth "update") as [[]|e];
      [|eauto].
    destruct (Examples.validateCollectionName c) as [[]|e]; [|eauto].
    destruct H as [[H|H]|[->| ->]]; try congruence;
      rewrite ?orb_true_r; simpl; eauto.
  - intros filter H. unfold Examples.delete, bind, lift_outcome.
    destruct (Examples.checkPermission config auth "delete") as [[]|e];
      [|eauto].
    destruct (Examples.validateCollectionName c) as [[]|e]; [|eauto].
    destruct H; congruence.
Qed.

End Guards.

(** ** Transactions of the engine *)

Lemma map_delete_set_fresh {V} (m : list (string * V)) (k : string) (v : V) :
  map_get m k = None -> map_delete (map_set m k v) k = m.
Proof.
  induction m as [|[k' v'] m IH]; simpl.
  - rewrite String.eqb_refl. reflexivity.
  - destruct (String.eqb k' k) eqn:Hk; [discriminate|]. simpl.
    rewrite Hk. intros H. rewrite (IH H). reflexivity.
Qed.

Section Transactions.
Context {crypto : Crypto} {json : JSON}.
Variable config : Engine.ConnectConfig.

(** X20. [beginTransaction] returns a UUID of version 4. A transaction
    that is begun and rolled back at once leaves the engine as it was,
    apart from the sixteen random bytes that the UUID took: no file is
    written, the cache is untouched and the transaction is gone, so that
    rolling it back a second time fails with [TRANSACTION_ERROR], as
    rolling back any unknown identifier does, without changing
    anything. *)
Theorem begin_then_rollback (s : Engine.state) :
  let tx := uuid_v4 (tape (entropy (Engine.world s))
                       (drawn (Engine.world s)) 16) in
  let s2 := {| Engine.world := os_drew 16 (Engine.world s);
               Engine.cache := Engine.cache s;
               Engine.activeTransactions := Engine.activeTransactions s |} in
  (map_get (Engine.activeTransactions s) tx = None ->
   exists s1,
     Engine.beginTransaction s = (Ok tx, s1) /\
     map_get (Engine.activeTransactions s1) tx =
     Some {| Engine.id := tx; Engine.operations := [];
             Engine.backups := []; Engine.status := Engine.pending |} /\
     Engine.rollbackTransaction config tx s1 = (Ok tt, s2) /\
     Engine.rollbackTransaction config tx s2 =
     (Throw (TextDBXError "TRANSACTION_ERROR"), s2)) /\
  (forall id,
     map_get (Engine.activeTransactions s) id = None ->
     Engine.rollbackTransaction config id s =
     (Throw (TextDBXError "TRANSACTION_ERROR"), s)).
Proof.
  intros tx s2.
  assert (Hunknown : forall id st,
    map_get (Engine.activeTransactions st) id = None ->
    Engine.rollbackTransaction config id st =
    (Throw (TextDBXError "TRANSACTION_ERROR"), st)).
  { intros id st H. unfold Engine.rollbackTransaction, bind at 1, get_state.
    rewrite H. reflexivity. }
  split; [|intros id; apply Hunknown].
  intros Hfresh.
  exists {| Engine.world := os_drew 16 (Engine.world s);
            Engine.cache := Engine.cache s;
            Engine.activeTransactions :=
              map_set (Engine.activeTransactions s) tx
                {| Engine.id := tx; Engine.operations := [];
                   Engine.backups := []; Engine.status := Engine.pending |}
         |}.
  split; [reflexivity|]. engine_step.
  split; [apply map_get_set_eq|]. split.
  - unfold Engine.rollbackTransaction, bind at 1, get_state. engine_step.
    rewrite map_get_set_eq.
    cbn [Engine.backups Engine.for_each].
    unfold try_catch, bind, get_state, Engine.set_transactions, ret.
    engine_step.
    rewrite (map_delete_set_fresh _ _ _ Hfresh). reflexivity.
  - apply Hunknown. exact Hfresh.
Qed.

End Transactions.

(** ** Reading back what was written, in the engine *)

Section EngineReadBack.
Context {crypto : Crypto} {json : JSON}.
Variable config : Engine.ConnectConfig.
Variable auth : value.
Hypothesis Hmax : 0 <= Engine.maxCacheSize config.




End EngineReadBack.

(** ** Updating in the engine *)


Section EngineUpdate.
Context {crypto : Crypto} {json : JSON}.
Variable config : Engine.ConnectConfig.
Variable auth : value.




End EngineUpdate.

(** ** The connection file *)

(** [trimStart] leaves the text, or goes on behind a character of white
    space. *)
Lemma trim_start_step (s : string) :
  trim_start s = s \/
  exists t, trim_start s = trim_start t /\
            (String.length t < String.length s)%nat.
Proof.
  destruct s as [|c s1]; [left; reflexivity|]. cbn [trim_start].
  destruct (is_ws c); [right; exists s1; simpl; auto|].
  destruct s1 as [|d s2]; [left; reflexivity|].
  destruct (is_ws2 c d); [right; exists s2; simpl; auto|].
  destruct s2 as [|e s3]; [left; reflexivity|].
  destruct (is_ws3 c d e); [right; exists s3; simpl; auto|].
  left; reflexivity.
Qed.

Lemma length_trim_start (s : string) :
  (String.length (trim_start s) <= String.length s)%nat.
Proof.
  remember (String.length s) as n eqn:Hn.
  assert (Hle : (String.length s <= n)%nat) by lia. clear Hn.
  revert s Hle. induction n as [|n IH]; intros s Hle.
  - destruct s; [simpl; lia|simpl in Hle; lia].
  - destruct (trim_start_step s) as [->|[t [-> Ht]]]; [exact Hle|].
    assert (H := IH t ltac:(lia)). lia.
Qed.

Lemma length_trim_end (s : string) :
  (String.length (trim_end s) <= String.length s)%nat.
Proof.
  induction s as [|c s IH]; [simpl; lia|].
  cbn [trim_end]. destruct (is_blank (String c s)); simpl; lia.
Qed.

(** Where [trimStart] takes nothing away, the text stays. *)
Lemma trim_start_same (s : string) :
  String.length (trim_start s) = String.length s -> trim_start s = s.
Proof.
  intros H. destruct (trim_start_step s) as [Hs|[t [Hs Ht]]]; [exact Hs|].
  rewrite Hs in H. assert (H' := length_trim_start t). lia.
Qed.

(** A text that [trim] leaves alone has no white space at either end. *)
Lemma trim_fixed (s : string) :
  trim s = s -> trim_start s = s /\ trim_end s = s.
Proof.
  intros Ht. unfold trim in Ht.
  assert (H1 := length_trim_start s).
  assert (H2 := length_trim_end (trim_start s)).
  rewrite Ht in H2.
  assert (Hs : trim_start s = s) by (apply trim_start_same; lia).
  split; [exact Hs|]. rewrite Hs in Ht. exact Ht.
Qed.

Lemma trim_start_plain (c : ascii) (s : string) :
  plain_byte c = true -> trim_start (String c s) = String c s.
Proof.
  intros H. destruct (plain_byte_not_ws c H) as [H1 [H2 H3]].
  cbn [trim_start]. rewrite H1. destruct s as [|d s]; [reflexivity|].
  rewrite H2. destruct s as [|e s]; [reflexivity|]. rewrite H3. reflexivity.
Qed.

(** The bytes of white space of several bytes are above ASCII. *)
Lemma is_ws2_high (c d : ascii) :
  is_ws2 c d = true -> plain_byte c = false /\ plain_byte d = false.
Proof.
  unfold is_ws2, plain_byte. intros H.
  apply andb_true_iff in H as [Hc Hd].
  apply Nat.eqb_eq in Hc, Hd. rewrite Hc, Hd. split; reflexivity.
Qed.

Lemma is_ws3_high (c d e : ascii) :
  is_ws3 c d e = true ->
  plain_byte c = false /\ plain_byte d = false /\ plain_byte e = false.
Proof.
  unfold is_ws3, plain_byte. cbv zeta. intros H.
  assert (Hhigh : (128 <= nat_of_ascii c /\ 128 <= nat_of_ascii d /\
                   128 <= nat_of_ascii e)%nat).
  { repeat (apply orb_true_iff in H as [H|H]);
      repeat match goal with
             | H : _ && _ = true |- _ => apply andb_true_iff in H as [? ?]
             | H : _ || _ = true |- _ => apply orb_true_iff in H as [?|?]
             | H : (_ =? _)%nat = true |- _ => apply Nat.eqb_eq in H
             | H : (_ <=? _)%nat = true |- _ => apply Nat.leb_le in H
             end; lia. }
  destruct Hhigh as (Hc & Hd & He).
  repeat split; apply andb_false_iff; left; apply Nat.ltb_ge; lia.
Qed.

(** A blank text has no plain byte. *)
Lemma is_blank_no_plain (a : string) (c : ascii) (b : string) :
  plain_byte c = true -> is_blank (a +:+ String c b) = false.
Proof.
  intros Hc.
  remember (String.length a) as n eqn:Hn.
  assert (Hle : (String.length a <= n)%nat) by lia. clear Hn.
  revert a Hle. induction n as [|n IH]; intros a Hle.
  - destruct a; [apply is_blank_plain, Hc|simpl in Hle; lia].
  - destruct a as [|x a1]; [apply is_blank_plain, Hc|].
    rewrite append_cons. cbn [is_blank]. simpl in Hle.
    destruct (is_ws x); [apply IH; lia|].
    destruct a1 as [|y a2].
    + rewrite append_nil.
      destruct (is_ws2 x c) eqn:H2;
        [apply is_ws2_high in H2 as [_ H2]; congruence|].
      destruct b as [|e b']; [reflexivity|].
      destruct (is_ws3 x c e) eqn:H3;
        [apply is_ws3_high in H3 as (_ & H3 & _); congruence|reflexivity].
    + rewrite append_cons.
      destruct (is_ws2 x y); [apply IH; simpl in Hle; lia|].
      destruct a2 as [|z a3].
      * rewrite append_nil.
        destruct (is_ws3 x y c) eqn:H3;
          [apply is_ws3_high in H3 as (_ & _ & H3); congruence|reflexivity].
      * rewrite append_cons.
        destruct (is_ws3 x y z); [|reflexivity].
        cbn [andb]. apply IH. simpl in Hle. lia.
Qed.

(** [trimEnd] stops at a plain byte. *)
Lemma trim_end_plain (a : string) (c : ascii) (b : string) :
  plain_byte c = true ->
  trim_end (a +:+ String c b) = a +:+ String c (trim_end b).
Proof.
  intros Hc. induction a as [|x a IH].
  - rewrite !append_nil. cbn [trim_end].
    rewrite (is_blank_plain c b Hc). reflexivity.
  - rewrite !append_cons. cbn [trim_end]. rewrite <- append_cons.
    rewrite (is_blank_no_plain (String x a) c b Hc).
    rewrite IH. reflexivity.
Qed.

Lemma split_on_nonempty (sep : ascii) (s : string) : split_on sep s <> [].
Proof.
  destruct s as [|c s]; simpl; [discriminate|].
  destruct (Ascii.eqb c sep); [discriminate|].
  destruct (split_on sep s); discriminate.
Qed.

Lemma join_cons (sep p : string) (ps : list string) :
  ps <> [] -> join sep (p :: ps) = p +:+ sep +:+ join sep ps.
Proof. destruct ps; [congruence|reflexivity]. Qed.

(** Joining the pieces with the separator gives the text back. *)
Lemma join_split_on (sep : ascii) (s : string) :
  join (String sep "") (split_on sep s) = s.
Proof.
  induction s as [|c s IH]; [reflexivity|].
  simpl split_on. destruct (Ascii.eqb c sep) eqn:Hc.
  - apply Ascii.eqb_eq in Hc. subst c.
    rewrite join_cons by apply split_on_nonempty. rewrite IH. reflexivity.
  - destruct (split_on sep s) as [|f fs] eqn:Hs;
      [exfalso; exact (split_on_nonempty _ _ Hs)|].
    destruct fs as [|g fs].
    + simpl in *. congruence.
    + rewrite join_cons by discriminate. rewrite join_cons in IH by discriminate.
      rewrite append_cons. congruence.
Qed.

(** A setting: its text survives [trim] and is not empty. *)
Definition setting (v : string) : Prop := trim v = v /\ v <> "".

(** A key of the connection file: it starts with a plain byte other than
    [#], has no [=] inside and survives [trim]. *)
Definition config_key (k : string) : Prop :=
  trim k = k /\ includes_char "=" k = false /\ startsWith "#" k = false /\
  match k with
  | String c _ => plain_byte c = true
  | EmptyString => False
  end.

Lemma trim_assignment (k v : string) :
  config_key k -> setting v ->
  trim (k +:+ String "=" v) = k +:+ String "=" v.
Proof.
  intros (_ & _ & _ & Hc) [Hv _].
  destruct k as [|c k']; [contradiction|].
  destruct (trim_fixed v Hv) as [_ Hve].
  unfold trim. rewrite append_cons, (trim_start_plain c _ Hc).
  rewrite <- append_cons, trim_end_plain by reflexivity.
  rewrite Hve. reflexivity.
Qed.

Lemma examples_config_line (cfg : props) (k v : string) :
  config_key k -> setting v ->
  Examples.config_line cfg (k +:+ String "=" v) = obj_set cfg k (VStr v).
Proof.
  intros Hk Hv. unfold Examples.config_line.
  rewrite (trim_assignment k v Hk Hv).
  destruct Hk as (Hkt & Heq & Hhash & Hc). destruct Hv as [Hvt Hvne].
  destruct k as [|c k']; [contradiction|].
  assert (Hhash' : startsWith "#" (String c k' +:+ String "=" v) = false).
  { unfold startsWith in *. rewrite append_cons.
    cbn [String.prefix] in *.
    destruct (ascii_dec "#" c); [|reflexivity].
    destruct k'; discriminate. }
  rewrite Hhash'. rewrite split_on_append by exact Heq.
  rewrite append_cons. simpl String.eqb. cbn [negb andb].
  destruct (split_on "=" v) as [|f fs] eqn:Hs;
    [exfalso; exact (split_on_nonempty _ _ Hs)|].
  cbn [negb]. rewrite <- Hs.
  change "=" with (String "="%char "") at 1.
  rewrite join_split_on, Hkt, Hvt. reflexivity.
Qed.

Lemma examples_config_line_blank (cfg : props) (line : string) :
  trim line = "" -> Examples.config_line cfg line = cfg.
Proof. intros H. unfold Examples.config_line. rewrite H. reflexivity. Qed.

Lemma config_field_set (cfg : props) (k v : string) :
  v <> "" -> Examples.config_field (obj_set cfg k (VStr v)) k = Some v.
Proof.
  intros Hv. unfold Examples.config_field. rewrite obj_get_set_eq.
  destruct (String.eqb_spec v ""); [congruence|reflexivity].
Qed.

Lemma config_field_other (cfg : props) (k k' : string) (v : value) :
  k <> k' ->
  Examples.config_field (obj_set cfg k v) k' = Examples.config_field cfg k'.
Proof.
  intros Hk. unfold Examples.config_field.
  rewrite obj_get_set_ne by congruence.
  reflexivity.
Qed.

(** The text of a connection file: the four settings, one on a line, as
    the error message of [loadConfig] lays them out. *)
Definition connect_text (d k m r : string) : string :=
  ("database=" +:+ d) +:+ String "010"
  (("encryptionKey=" +:+ k) +:+ String "010"
  (("mode=" +:+ m) +:+ String "010"
  (("role=" +:+ r) +:+ String "010" ""))).

(** A setting that fills one line: well-formed text without a line
    feed. *)
Definition one_line (v : string) : Prop :=
  setting v /\ includes_char "010" v = false /\ valid_utf8 v = true.

Lemma connect_lines (d k m r : string) :
  one_line d -> one_line k -> one_line m -> one_line r ->
  split_on "010" (connect_text d k m r) =
  ["database=" +:+ d; "encryptionKey=" +:+ k; "mode=" +:+ m; "role=" +:+ r;
   ""].
Proof.
  intros (_ & Hd & _) (_ & Hk & _) (_ & Hm & _) (_ & Hr & _).
  unfold connect_text.
  rewrite !split_on_append;
    try (rewrite includes_char_append; simpl; assumption).
  reflexivity.
Qed.

(** X27. textdbx/examples: [loadConfig] reads the four settings of a
    connection file back as they were written, each of them a text of
    well-formed UTF-8 on one line that is not empty and has no white
    space at its ends, also where a setting (a base64 key, say) has [=]
    inside: the line is cut at its first [=] only. *)
Theorem examples_loadConfig_reads_settings
    (p d k m r : string) (f : file) (w : os) :
  one_line d -> one_line k -> one_line m -> one_line r ->
  files w !! p = Some f ->
  content f = connect_text d k m r ->
  Examples.loadConfig p w =
  (Ok {| database := d; encryptionKey := k; mode := m; role := r |}, w).
Proof.
  intros Hd Hk Hm Hr Hf Hc.
  unfold Examples.loadConfig, bind, existsSync, readFileSync.
  rewrite Hf. cbn [negb]. rewrite Hf. cbn beta iota.
  rewrite Hc, (connect_lines d k m r Hd Hk Hm Hr).
  cbn [fold_left].
  change ("database=" +:+ d) with ("database" +:+ String "=" d).
  change ("encryptionKey=" +:+ k) with ("encryptionKey" +:+ String "=" k).
  change ("mode=" +:+ m) with ("mode" +:+ String "=" m).
  change ("role=" +:+ r) with ("role" +:+ String "=" r).
  destruct Hd as [Hd _], Hk as [Hk _], Hm as [Hm _], Hr as [Hr _].
  rewrite !examples_config_line
    by (try assumption; repeat split; (reflexivity || discriminate)).
  rewrite examples_config_line_blank by reflexivity.
  rewrite (config_field_set _ "role" r) by apply Hr.
  rewrite (config_field_other _ "role" "mode") by discriminate.
  rewrite (config_field_set _ "mode" m) by apply Hm.
  rewrite !(config_field_other _ "role") by discriminate.
  rewrite !(config_field_other _ "mode") by discriminate.
  rewrite (config_field_set _ "encryptionKey" k) by apply Hk.
  rewrite !(config_field_other _ "encryptionKey") by discriminate.
  rewrite (config_field_set _ "database" d) by apply Hd.
  reflexivity.
Qed.

Lemma append_nil_r (a : string) : a +:+ "" = a.
Proof.
  induction a as [|c a IH]; [reflexivity|].
  rewrite append_cons, IH. reflexivity.
Qed.

Lemma basic_config_line (cfg : props) (k v tail : string) :
  config_key k -> setting v -> includes_char "=" v = false ->
  tail = "" \/ (exists rest, tail = String "=" rest) ->
  Basic.config_line cfg (k +:+ String "=" (v +:+ tail)) =
  obj_set cfg k (VStr v).
Proof.
  intros (Hkt & Heq & _ & Hc) [Hvt Hvne] Hveq Htail.
  assert (Hkne : k <> "") by (destruct k; [contradiction|discriminate]).
  unfold Basic.config_line. rewrite split_on_append by exact Heq.
  assert (Hs : exists more, split_on "=" (v +:+ tail) = v :: more).
  { destruct Htail as [->|[rest ->]].
    - rewrite append_nil_r, split_on_none by exact Hveq. eauto.
    - rewrite split_on_append by exact Hveq. eauto. }
  destruct Hs as [more ->].
  destruct (String.eqb_spec k ""); [congruence|].
  destruct (String.eqb_spec v ""); [congruence|].
  cbn [negb andb]. rewrite Hkt, Hvt. reflexivity.
Qed.

Lemma basic_config_line_plain (cfg : props) (k v : string) :
  config_key k -> setting v -> includes_char "=" v = false ->
  Basic.config_line cfg (k +:+ String "=" v) = obj_set cfg k (VStr v).
Proof.
  intros Hk Hv He. rewrite <- (basic_config_line cfg k v "" Hk Hv He); auto.
  rewrite append_nil_r. reflexivity.
Qed.

Lemma basic_loadConfig_lines (p d k m r tail : string)
    (f : file) (w : os) :
  one_line d -> one_line k -> one_line m -> one_line r ->
  includes_char "=" d = false -> includes_char "=" k = false ->
  includes_char "=" m = false -> includes_char "=" r = false ->
  tail = "" \/
  (exists rest, tail = String "=" rest /\ includes_char "010" rest = false) ->
  files w !! p = Some f ->
  content f = connect_text d (k +:+ tail) m r ->
  Basic.loadConfig p w =
  (Ok {| database := d; encryptionKey := k; mode := m; role := r |}, w).
Proof.
  intros (Hd & Hdn & _) (Hk & Hkn & _) (Hm & Hmn & _) (Hr & Hrn & _)
    Hde Hke Hme Hre Htail Hf Hc.
  unfold Basic.loadConfig, bind, readFileSync. rewrite Hf, Hc.
  assert (Hlines :
    split_on "010" (connect_text d (k +:+ tail) m r) =
    ["database=" +:+ d; "encryptionKey=" +:+ (k +:+ tail); "mode=" +:+ m;
     "role=" +:+ r; ""]).
  { unfold connect_text.
    rewrite !split_on_append; [reflexivity|..];
      rewrite ?includes_char_append; simpl; try assumption.
    rewrite Hkn. destruct Htail as [->|(rest & -> & Hrest)]; simpl; auto. }
  rewrite Hlines. cbn [fold_left].
  change ("database=" +:+ d) with ("database" +:+ String "=" d).
  change ("encryptionKey=" +:+ (k +:+ tail))
    with ("encryptionKey" +:+ String "=" (k +:+ tail)).
  change ("mode=" +:+ m) with ("mode" +:+ String "=" m).
  change ("role=" +:+ r) with ("role" +:+ String "=" r).
  assert (Hkey : forall name, name = "database" \/ name = "encryptionKey" \/
                              name = "mode" \/ name = "role" ->
                              config_key name).
  { intros name [->|[->|[->| ->]]]; repeat split; discriminate. }
  rewrite (basic_config_line_plain _ "database" d) by auto 6.
  rewrite (basic_config_line _ "encryptionKey" k tail);
    [|auto 6|assumption|assumption|
     destruct Htail as [->|(rest & -> & _)]; eauto].
  rewrite (basic_config_line_plain _ "mode" m) by auto 6.
  rewrite (basic_config_line_plain _ "role" r) by auto 6.
  change (Basic.config_line ?c "") with c.
  rewrite (config_field_set _ "role" r) by apply Hr.
  rewrite (config_field_other _ "role" "mode") by discriminate.
  rewrite (config_field_set _ "mode" m) by apply Hm.
  rewrite !(config_field_other _ "role") by discriminate.
  rewrite !(config_field_other _ "mode") by discriminate.
  rewrite (config_field_set _ "encryptionKey" k) by apply Hk.
  rewrite !(config_field_other _ "encryptionKey") by discriminate.
  rewrite (config_field_set _ "database" d) by apply Hd.
  reflexivity.
Qed.

(** X28. textdbx/src: [loadConfig] reads the four settings of a
    connection file back (each a text of well-formed UTF-8 on one line,
    not empty and without white space at its ends) while none of them
    has [=] inside; of a setting with [=] inside it keeps what stands
    before that [=] and drops the rest without an error, so that a key
    [k=rest] is read as [k]. *)
Theorem basic_loadConfig_cuts_at_equals
    (p d k m r : string) (f : file) (w : os) :
  one_line d -> one_line k -> one_line m -> one_line r ->
  includes_char "=" d = false -> includes_char "=" k = false ->
  includes_char "=" m = false -> includes_char "=" r = false ->
  files w !! p = Some f ->
  (content f = connect_text d k m r ->
   Basic.loadConfig p w =
   (Ok {| database := d; encryptionKey := k; mode := m; role := r |}, w)) /\
  (forall rest,
     includes_char "010" rest = false ->
     content f = connect_text d (k +:+ String "=" rest) m r ->
     Basic.loadConfig p w =
     (Ok {| database := d; encryptionKey := k; mode := m; role := r |}, w)).
Proof.
  intros Hd Hk Hm Hr Hde Hke Hme Hre Hf. split.
  - intros Hc.
    apply (basic_loadConfig_lines p d k m r "" f w); auto.
    rewrite append_nil_r. exact Hc.
  - intros rest Hrest Hc.
    apply (basic_loadConfig_lines p d k m r (String "=" rest) f w); eauto.
Qed.

(** ** The permission file *)

Lemma hidden_paths_apart (db : string) :
  path_join db ".users" <> path_join db ".auth".
Proof.
  unfold path_join. intros H. apply append_inj_l in H. discriminate.
Qed.

Lemma defaultAuth_json : json_value Examples.defaultAuth.
Proof. simpl. repeat split. Qed.

Section Permissions.
Context {json : JSON}.
Variable config : ConnectConfig.

(** X29. textdbx/examples: on a database directory without [.users] and
    [.auth], [loadUsersAndAuth] leaves the users empty, takes the three
    default roles and writes them to [.auth], touching no other file;
    the next start reads the same roles back from that file and writes
    nothing. Under these roles a reader may query and do nothing else. *)
Theorem loadUsersAndAuth_writes_default_roles (w : os) :
  files w !! (path_join (database config) ".users") = None -> files w !! (path_join (database config) ".auth") = None ->
  exists w1,
    Examples.loadUsersAndAuth config w =
    (Ok (VObj [], Examples.defaultAuth), w1) /\
    content <$> files w1 !! (path_join (database config) ".auth") =
    Some (JSON_stringify Examples.defaultAuth) /\
    (forall p, p <> (path_join (database config) ".auth") -> files w1 !! p = files w !! p) /\
    Examples.loadUsersAndAuth config w1 =
    (Ok (VObj [], Examples.defaultAuth), w1) /\
    (role config = "reader" ->
     forall action,
       Examples.checkPermission config Examples.defaultAuth action = Ok tt <->
       action = "query").
Proof.
  intros Hu Ha.
  exists (os_event (EvWrite (path_join (database config) ".auth") (JSON_stringify Examples.defaultAuth))
            (os_event (EvTruncate (path_join (database config) ".auth")) w)).
  assert (Hfile :
    files (os_event (EvWrite (path_join (database config) ".auth") (JSON_stringify Examples.defaultAuth))
             (os_event (EvTruncate (path_join (database config) ".auth")) w)) !! (path_join (database config) ".auth") =
    Some (File (JSON_stringify Examples.defaultAuth)
            (now (os_event (EvTruncate (path_join (database config) ".auth")) w)))).
  { simpl. rewrite lookup_insert_eq. simpl. rewrite lookup_insert_eq.
    reflexivity. }
  assert (Hother : forall p, p <> (path_join (database config) ".auth") ->
    files (os_event (EvWrite (path_join (database config) ".auth") (JSON_stringify Examples.defaultAuth))
             (os_event (EvTruncate (path_join (database config) ".auth")) w)) !! p = files w !! p).
  { intros p Hp. simpl. rewrite !lookup_insert_ne by congruence.
    reflexivity. }
  split; [|split; [|split; [|split]]].
  - unfold Examples.loadUsersAndAuth, bind, existsSync.
    rewrite Hu. unfold ret. cbn beta iota.
    rewrite Ha. reflexivity.
  - rewrite Hfile. reflexivity.
  - exact Hother.
  - unfold Examples.loadUsersAndAuth, bind, existsSync.
    rewrite (Hother (path_join (database config) ".users")) by apply hidden_paths_apart.
    rewrite Hu. unfold ret. cbn beta iota. rewrite Hfile. cbn beta iota.
    unfold try_catch, bind, readFileSync, lift_outcome. rewrite Hfile.
    cbn [content]. rewrite JSON_parse_stringify by apply defaultAuth_json.
    reflexivity.
  - intros Hrole action. unfold Examples.checkPermission. rewrite Hrole.
    change (get_prop Examples.defaultAuth "reader")
      with (Ok (VArr [VStr "query"])).
    cbn [truthy negb js_includes].
    destruct (arr_includes [VStr "query"] (VStr action)) eqn:Hin.
    + apply arr_includes_str in Hin. destruct Hin as [[= <-]|[]].
      split; reflexivity.
    + split; [discriminate|]. intros ->. discriminate.
Qed.

End Permissions.

(** ** The further properties at concrete inputs *)

(** The envelope that the copy of textdbx/examples writes for the text
    of the empty array. *)
Definition legacy_raw : string :=
  match Examples.encrypt encrypted_config "[]" (machine empty) with
  | (Ok raw, _) => raw
  | (Throw _, _) => ""
  end.

Lemma engine_refuses_legacy_envelope_witness :
  Engine.loadFile (engine_config "encrypted") "users"
    (fresh_engine (disk "db/users.tdbx" legacy_raw)) =
  (Throw (TextDBXError "DECRYPTION_ERROR"),
   fresh_engine (disk "db/users.tdbx" legacy_raw)).
Proof.
  apply (engine_refuses_legacy_envelope (engine_config "encrypted")
           encrypted_config "users" "db/users.tdbx" "[]"
           (File legacy_raw 5) (machine empty) (os_drew 16 (machine empty))
           (fresh_engine (disk "db/users.tdbx" legacy_raw)));
    reflexivity.
Defined.

Lemma engine_loadFile_only_reads_witness :
  Engine.world (fresh_engine empty) = machine empty /\
  Engine.loadFile (engine_config "plain") "users" (fresh_engine empty) =
  (Ok [], fresh_engine empty).
Proof.
  assert (H : Engine.loadFile (engine_config "plain") "users"
                (fresh_engine empty) = (Ok [], fresh_engine empty))
    by reflexivity.
  destruct (engine_loadFile_only_reads (engine_config "plain") "users"
              (fresh_engine empty) (fresh_engine empty) (Ok []) H)
    as [Hw [_ _]].
  split; [exact Hw|exact H].
Defined.

Lemma engine_loadFile_rejects_witness :
  Engine.loadFile (engine_config "plain") "users"
    (fresh_engine (disk "db/users.tdbx" "not json")) =
  (Throw (TextDBXError "DATA_CORRUPTION_ERROR"),
   fresh_engine (disk "db/users.tdbx" "not json")) /\
  Engine.loadFile (engine_config "plain") "users"
    (fresh_engine (disk "db/users.tdbx" "17")) =
  (Throw (TextDBXError "DATA_FORMAT_ERROR"),
   fresh_engine (disk "db/users.tdbx" "17")).
Proof.
  split.
  - apply (proj1 (proj2 (engine_loadFile_rejects (engine_config "plain")
             "users" "db/users.tdbx" (File "not json" 5)
             (fresh_engine (disk "db/users.tdbx" "not json"))
             eq_refl eq_refl eq_refl)) "not json" JsError);
      reflexivity.
  - apply (proj2 (proj2 (engine_loadFile_rejects (engine_config "plain")
             "users" "db/users.tdbx" (File "17" 5)
             (fresh_engine (disk "db/users.tdbx" "17"))
             eq_refl eq_refl eq_refl)) "17" (VNum 17));
      reflexivity.
Defined.

Lemma examples_loadFile_repairs_witness :
  (exists w',
     Examples.loadFile plain_config "users"
       (machine (disk "db/users.tdbx" "  ")) = (Ok [], w') /\
     content <$> files w' !! "db/users.tdbx" = Some "[]") /\
  Examples.loadFile plain_config "users" (machine (disk "db/users.tdbx" "17"))
  = (Ok [VNum 17], machine (disk "db/users.tdbx" "17")).
Proof.
  split.
  - destruct (proj1 (examples_loadFile_repairs plain_config "users"
                       (machine (disk "db/users.tdbx" "  "))
                       (File "  " 5) eq_refl) eq_refl)
      as [raw [w' [Hload [Hfile Hraw]]]].
    change (raw = "[]") in Hraw. subst raw. exists w'. auto.
  - apply (proj2 (examples_loadFile_repairs plain_config "users"
                    (machine (disk "db/users.tdbx" "17"))
                    (File "17" 5) eq_refl) "17" (VNum 17)); reflexivity.
Defined.

(** A database with two collections. *)
Definition two_collections (users : string) : os :=
  machine (<["db/orders.tdbx" := File "[]" 5]> (disk "db/users.tdbx" users)).

Lemma engine_saveFile_isolated_witness :
  exists r s',
    Engine.saveFile (engine_config "plain") "users" [alice]
      (fresh_engine (disk "db/orders.tdbx" "[]")) = (r, s') /\
    files (Engine.world s') !! "db/orders.tdbx" = Some (File "[]" 5).
Proof.
  destruct (Engine.saveFile (engine_config "plain") "users" [alice]
              (fresh_engine (disk "db/orders.tdbx" "[]")))
    as [r s'] eqn:Hsave.
  exists r, s'. split; [reflexivity|].
  destruct (engine_saveFile_isolated (engine_config "plain") "users" "orders"
              "db/users.tdbx" "db/orders.tdbx" [alice]
              (fresh_engine (disk "db/orders.tdbx" "[]")) s' r
              eq_refl eq_refl) as [_ Hfile];
    [discriminate|exact Hsave|].
  transitivity (files (machine (disk "db/orders.tdbx" "[]"))
                  !! "db/orders.tdbx"); [exact Hfile|reflexivity].
Defined.

Lemma examples_operations_isolated_witness :
  exists r w1,
    Examples.insert plain_config admin_auth "users" alice
      (two_collections "not json") = (r, w1) /\
    files w1 !! "db/orders.tdbx" = Some (File "[]" 5).
Proof.
  destruct (Examples.insert plain_config admin_auth "users" alice
              (two_collections "not json")) as [r w1] eqn:Hins.
  exists r, w1. split; [reflexivity|].
  destruct (examples_operations_isolated plain_config admin_auth "users"
              "orders" (two_collections "not json") w1 eq_refl)
    as [_ [Hinsert _]]; [discriminate|].
  transitivity (files (two_collections "not json") !! "db/orders.tdbx");
    [exact (Hinsert alice r Hins)|reflexivity].
Defined.

Definition one_entry : Engine.state :=
  {| Engine.world := machine empty;
     Engine.cache :=
       [("orders", {| Engine.data := []; Engine.lastModified := 5;
                      Engine.accessCount := 1; Engine.lastAccessed := 7 |})];
     Engine.activeTransactions := [] |}.

(** A cache of two entries, of which [items] was read longest ago, under
    a limit of two. *)
Definition two_entries : Engine.state :=
  {| Engine.world := machine empty;
     Engine.cache :=
       [("orders", {| Engine.data := []; Engine.lastModified := 5;
                      Engine.accessCount := 1; Engine.lastAccessed := 7 |});
        ("items", {| Engine.data := []; Engine.lastModified := 4;
                     Engine.accessCount := 2; Engine.lastAccessed := 3 |})];
     Engine.activeTransactions := [] |}.

Definition small_cache_config : Engine.ConnectConfig :=
  {| Engine.database := "db"; Engine.encryptionKey := "secret";
     Engine.mode := "plain"; Engine.role := "admin";
     Engine.maxCacheSize := 2; Engine.maxConnections := 10;
     Engine.queryTimeout := 30000 |}.

Lemma updateCache_evicts_least_recent_witness :
  (exists cache',
     Engine.updateCache small_cache_config "users" [alice] 9 two_entries =
     (Ok tt, {| Engine.world := machine empty; Engine.cache := cache';
                Engine.activeTransactions := [] |}) /\
     map_get cache' "items" = None /\
     map_get cache' "orders" =
     Some {| Engine.data := []; Engine.lastModified := 5;
             Engine.accessCount := 1; Engine.lastAccessed := 7 |} /\
     map_get cache' "users" =
     Some {| Engine.data := [alice]; Engine.lastModified := 9;
             Engine.accessCount := 1; Engine.lastAccessed := 1000 |}) /\
  (exists cache',
     Engine.updateCache (engine_config "plain") "users" [alice] 9
       two_entries =
     (Ok tt, {| Engine.world := machine empty; Engine.cache := cache';
                Engine.activeTransactions := [] |}) /\
     length cache' = 3%nat).
Proof.
  split.
  - destruct (updateCache_evicts_least_recent small_cache_config "users"
                [alice] 9 two_entries)
      as [cache' [Hupd [Hget [_ Hfull]]]]; [discriminate|].
    destruct (Hfull ltac:(vm_compute; discriminate))
      as [k [e [Hin [Hleast Hcache]]]].
    exists cache'. split; [exact Hupd|].
    destruct Hin as [Hin|[Hin|[]]]; injection Hin as <- <-.
    + exfalso.
      assert (H := Hleast _ (or_intror (or_introl eq_refl))).
      vm_compute in H. apply H. reflexivity.
    + subst cache'. repeat split; reflexivity.
  - destruct (updateCache_evicts_least_recent (engine_config "plain")
                "users" [alice] 9 two_entries)
      as [cache' [Hupd [_ [Hbelow _]]]]; [discriminate|].
    exists cache'. split; [exact Hupd|].
    rewrite (Hbelow ltac:(vm_compute; reflexivity)). reflexivity.
Defined.

Lemma cache_stays_within_limit_witness :
  exists r s',
    Engine.saveFile (engine_config "plain") "users" [alice] one_entry =
    (r, s') /\
    Z.of_nat (length (Engine.cache s')) <= 100.
Proof.
  destruct (Engine.saveFile (engine_config "plain") "users" [alice]
              one_entry) as [r s'] eqn:Hsave.
  exists r, s'. split; [reflexivity|].
  apply (proj1 (proj2 (proj2 (cache_stays_within_limit
            (engine_config "plain") ltac:(vm_compute; discriminate)
            admin_auth one_entry ltac:(vm_compute; discriminate))))
           "users" [alice] r s' Hsave).
Defined.

Lemma logical_operator_hides_fields_witness :
  Engine.matchFilter alice
    (VObj [("$and", VArr []); ("name", VStr "Bob")]) = Ok true.
Proof.
  rewrite (proj1 (logical_operator_hides_fields alice
                    [("$and", VArr []); ("name", VStr "Bob")]) eq_refl).
  reflexivity.
Defined.


Lemma examples_matchFilter_extends_basic_witness :
  Examples.matchFilter alice (VObj [("id", VNum 1)]) = Ok true.
Proof.
  apply (proj1 (examples_matchFilter_extends_basic alice
                  (VObj [("id", VNum 1)])) true).
  reflexivity.
Defined.

Lemma examples_insert_appends_witness :
  exists w1,
    Examples.insert plain_config admin_auth "users"
      (VObj [("id", VNum 3)]) two_users = (Ok tt, w1) /\
    Examples.queryObject plain_config admin_auth
      {| Examples.collection := "users"; Examples.filter := VUndef;
         Examples.fields := None |} w1 =
    (Ok [alice; bob; VObj [("id", VNum 3)]], w1).
Proof.
  apply (examples_insert_appends plain_config admin_auth eq_refl "users"
           (VObj [("id", VNum 3)]) [alice; bob] two_users two_users);
    try reflexivity; vm_compute; tauto.
Defined.


(** A collection whose second row is [null]. *)
Definition null_row : os :=
  machine (disk "db/users.tdbx" (Json.stringify (VArr [alice; VNull]))).

Lemma examples_update_merges_witness :
  (exists o' raw w1,
     Examples.update plain_config admin_auth "users" (VObj [("id", VNum 1)])
       (VObj [("name", VStr "Al")]) two_users = (Ok 1, w1) /\
     content <$> files w1 !! "db/users.tdbx" = Some raw /\
     examples_holds plain_config raw (Json.stringify (VArr [VObj o'; bob])) /\
     obj_get o' "id" = VNum 1 /\ obj_get o' "name" = VStr "Al") /\
  Examples.update plain_config admin_auth "users" (VObj [])
    (VObj [("name", VStr "Al")]) null_row = (Throw JsError, null_row).
Proof.
  split.
  - assert (Hload0 : Examples.loadFile plain_config "users" two_users =
                     (Ok [alice; bob], two_users))
      by (vm_compute; reflexivity).
    destruct (proj1 (examples_update_merges plain_config admin_auth "users"
                       (VObj [("id", VNum 1)]) [("name", VStr "Al")]
                       [alice; bob] two_users two_users eq_refl eq_refl
                       ltac:(repeat constructor; simpl; tauto) Hload0)
                ltac:(repeat constructor) eq_refl eq_refl)
      as (rows & n & raw & w1 & Hupd & Hcontent & Hholds & _ & Hn & Hall).
    vm_compute in Hn. subst n.
    inversion Hall as [|x y l l' H1 Hrest]; subst.
    inversion Hrest as [|x2 y2 l2 l2' H2 Hrest2]; subst.
    inversion Hrest2; subst.
    assert (Hm1 : Examples.matchFilter alice (VObj [("id", VNum 1)]) =
                  Ok true) by reflexivity.
    assert (Hm2 : Examples.matchFilter bob (VObj [("id", VNum 1)]) =
                  Ok false) by reflexivity.
    rewrite Hm1 in H1. rewrite Hm2 in H2. subst y2.
    destruct H1 as (o & o' & Ho & -> & Hget).
    injection Ho as <-.
    exists o', raw, w1.
    split; [exact Hupd|]. split; [exact Hcontent|]. split; [exact Hholds|].
    split; [exact (Hget "id")|exact (Hget "name")].
  - assert (Hload0 : Examples.loadFile plain_config "users" null_row =
                     (Ok [alice; VNull], null_row))
      by (vm_compute; reflexivity).
    apply (proj2 (examples_update_merges plain_config admin_auth "users"
                    (VObj []) [("name", VStr "Al")] [alice; VNull]
                    null_row null_row eq_refl eq_refl
                    ltac:(repeat constructor; simpl; tauto) Hload0)
             ltac:(constructor; [left; reflexivity|];
                   constructor; [right; reflexivity|constructor]) JsError).
    reflexivity.
Defined.

Definition to_string_config : Engine.ConnectConfig :=
  {| Engine.database := "db"; Engine.encryptionKey := "secret";
     Engine.mode := "plain"; Engine.role := "toString";
     Engine.maxCacheSize := 100; Engine.maxConnections := 10;
     Engine.queryTimeout := 30000 |}.

Lemma checkPermission_reads_auth_witness :
  Examples.checkPermission plain_config
    (VObj [("admin", VArr [VStr "query"]); ("guest", VArr [])]) "query" =
  Ok tt /\
  Engine.checkPermission (engine_config "plain")
    (VObj [("admin", VArr [VStr "query"]); ("guest", VArr [])]) "insert" =
  Throw (TextDBXError "PERMISSION_DENIED") /\
  Engine.checkPermission (engine_config "plain")
    (VObj [("guest", VArr [VStr "query"])]) "query" =
  Throw (TextDBXError "PERMISSION_DENIED") /\
  Engine.checkPermission to_string_config
    (VObj [("admin", VArr [VStr "query"])]) "query" = Throw JsError.
Proof.
  split; [|split; [|split]].
  - apply (proj1 (checkPermission_reads_auth plain_config
                    (engine_config "plain")
                    [("admin", VArr [VStr "query"]); ("guest", VArr [])]
                    "query") [VStr "query"] eq_refl).
    left. reflexivity.
  - apply (proj1 (proj2 (checkPermission_reads_auth plain_config
                           (engine_config "plain")
                           [("admin", VArr [VStr "query"]);
                            ("guest", VArr [])] "insert"))
             [VStr "query"] eq_refl).
    intros [H|[]]. discriminate.
  - exact (proj2 (proj2 (proj2 (checkPermission_reads_auth plain_config
                                  (engine_config "plain")
                                  [("guest", VArr [VStr "query"])]
                                  "query"))) eq_refl).
  - exact (proj2 (proj2 (proj2 (checkPermission_reads_auth plain_config
                                  to_string_config
                                  [("admin", VArr [VStr "query"])]
                                  "query"))) eq_refl).
Defined.

Lemma examples_guards_come_first_witness :
  exists e,
    Examples.insert plain_config (VObj []) "users" alice two_users =
    (Throw e, two_users).
Proof.
  apply (proj1 (proj2 (examples_guards_come_first plain_config (VObj [])
                         "users" two_users)) alice).
  left. left. discriminate.
Defined.

Lemma begin_then_rollback_witness :
  (exists s1,
     Engine.beginTransaction (fresh_engine empty) =
     (Ok "61626364-6566-4768-a96a-6b6c6d6e6f70", s1) /\
     Engine.rollbackTransaction (engine_config "plain")
       "61626364-6566-4768-a96a-6b6c6d6e6f70" s1 =
     (Ok tt, {| Engine.world := os_drew 16 (machine empty);
                Engine.cache := []; Engine.activeTransactions := [] |})) /\
  Engine.rollbackTransaction (engine_config "plain") "no such transaction"
    (fresh_engine empty) =
  (Throw (TextDBXError "TRANSACTION_ERROR"), fresh_engine empty).
Proof.
  split.
  - destruct (proj1 (begin_then_rollback (engine_config "plain")
                       (fresh_engine empty)) eq_refl)
      as [s1 [Hbegin [_ [Hroll _]]]].
    exists s1. split; [exact Hbegin|exact Hroll].
  - apply (proj2 (begin_then_rollback (engine_config "plain")
                    (fresh_engine empty)) "no such transaction").
    reflexivity.
Defined.
(** *** X21 to X25: the engine on a collection of two records *)











(** *** X27 to X29: the files beside the collections *)

Definition connect_file : os :=
  machine (disk "config.connect"
             (connect_text "./database" "c2VjcmV0LWtleQ==" "encrypted"
                "admin")).

Lemma examples_loadConfig_reads_settings_witness :
  Examples.loadConfig "config.connect" connect_file =
  (Ok {| database := "./database"; encryptionKey := "c2VjcmV0LWtleQ==";
         mode := "encrypted"; role := "admin" |}, connect_file).
Proof.
  apply (examples_loadConfig_reads_settings "config.connect" "./database"
           "c2VjcmV0LWtleQ==" "encrypted" "admin"
           (File (connect_text "./database" "c2VjcmV0LWtleQ==" "encrypted"
                    "admin") 5) connect_file);
    try reflexivity; repeat split; (reflexivity || discriminate).
Defined.

Lemma basic_loadConfig_cuts_at_equals_witness :
  Basic.loadConfig "config.connect" connect_file =
  (Ok {| database := "./database"; encryptionKey := "c2VjcmV0LWtleQ";
         mode := "encrypted"; role := "admin" |}, connect_file).
Proof.
  apply (proj2 (basic_loadConfig_cuts_at_equals "config.connect"
                  "./database" "c2VjcmV0LWtleQ" "encrypted" "admin"
                  (File (connect_text "./database" "c2VjcmV0LWtleQ=="
                           "encrypted" "admin") 5) connect_file
                  ltac:(repeat split; (reflexivity || discriminate))
                  ltac:(repeat split; (reflexivity || discriminate))
                  ltac:(repeat split; (reflexivity || discriminate))
                  ltac:(repeat split; (reflexivity || discriminate))
                  eq_refl eq_refl eq_refl eq_refl eq_refl) "=");
    reflexivity.
Defined.

Definition reader_config : ConnectConfig :=
  {| database := "db"; encryptionKey := "secret"; mode := "plain";
     role := "reader" |}.

Lemma loadUsersAndAuth_writes_default_roles_witness :
  exists w1,
    Examples.loadUsersAndAuth reader_config (machine empty) =
    (Ok (VObj [], Examples.defaultAuth), w1) /\
    Examples.loadUsersAndAuth reader_config w1 =
    (Ok (VObj [], Examples.defaultAuth), w1) /\
    Examples.checkPermission reader_config Examples.defaultAuth "insert" <>
    Ok tt.
Proof.
  destruct (loadUsersAndAuth_writes_default_roles reader_config
              (machine empty) (lookup_empty _) (lookup_empty _))
    as (w1 & Hfirst & _ & _ & Hnext & Hreader).
  exists w1. repeat split; [exact Hfirst|exact Hnext|].
  intros Hins. apply (Hreader eq_refl) in Hins. discriminate.
Defined.
